(** * xexr_rts: the per-tick simulation engine, embedded and verified

    A shallow embedding of [src/services/GameEngine.ts] (class [GameEngine]:
    the simulation, and the camera and the mouse handlers of its view), of
    the production command [queueUnit], the message panel, the building
    counts and the raw PCM loop of [src/App.tsx], and of the catalog of
    [src/constants.ts], followed by the properties of the specification
    settled against it and by further properties of the code.

    Conventions of the embedding.
    - JavaScript numbers that hold coordinates, distances and sizes are
      kept behind the interface [Num], which [JsFloat.float_Num]
      instantiates with IEEE-754 binary64, the numbers JavaScript computes
      with; what is proved for every [Num] holds of them.  Counters that
      only ever hold integers (credits, hit points, cooldowns, cargo,
      progress, ticks) are [Z].
    - Objects shared by reference (an [Entity] sits in [units] or
      [buildings], and is pointed to by [targetUnit] and by a projectile's
      [target]) live in [heap]; a reference is the index of the object.
      Vectors are copied: the source shares a vector only where neither
      holder writes to it afterwards.
    - The engine mutates [this]; every method is a function
      [GameEngine -> GameEngine].  The callbacks the React layer installs
      are recorded by what they do: [onMessage] and [onGameOver] append to
      [log], [onUpdateUI] refreshes the [hasBuildings] snapshot that
      [queueUnit] reads.
    - [Math.random()] is the sequence [random]; [rng] counts the draws.

    Layout: numbers, data model, engine, view, the vocabulary of the
    properties and the scenarios they are run on, then the proofs. *)

From Stdlib Require Import ZArith Floats Lia Bool.
From stdpp Require Import base list strings pretty.

Local Open Scope Z_scope.

(** ** Numbers *)

Class Num (F : Type) := {
  ofZ : Z -> F;
  add : F -> F -> F;
  sub : F -> F -> F;
  mul : F -> F -> F;
  div : F -> F -> F;
  sqrt : F -> F;          (* Math.sqrt *)
  floor : F -> F;         (* Math.floor *)
  fabs : F -> F;          (* Math.abs *)
  fmin : F -> F -> F;     (* Math.min *)
  fmax : F -> F -> F;     (* Math.max *)
  ltb : F -> F -> bool;   (* a < b *)
  leb : F -> F -> bool;   (* a <= b *)
  truthy : F -> bool      (* ToBoolean: false on 0 and NaN *)
}.

Declare Scope js_scope.
Delimit Scope js_scope with js.
Infix "+" := add : js_scope.
Infix "-" := sub : js_scope.
Infix "*" := mul : js_scope.
Infix "/" := div : js_scope.
Infix "<?" := ltb : js_scope.
Infix "<=?" := leb : js_scope.
Notation "a >? b" := (ltb b a) : js_scope.

(** A decimal literal [n/d], e.g. 0.05 is [dec 5 100]; binary64 division
    is correctly rounded, so this is the double the literal denotes. *)
Definition dec {F} `{Num F} (n d : Z) : F := (ofZ n / ofZ d)%js.

(** [a || b] on an optional number: [b] when [a] is undefined or falsy. *)
Definition orF {F} `{Num F} (a : option F) (b : F) : F :=
  match a with
  | Some v => if truthy v then v else b
  | None => b
  end.

Definition orZ (a : option Z) (b : Z) : Z :=
  match a with
  | Some v => if v =? 0 then b else v
  | None => b
  end.

(** IEEE-754 binary64, as JavaScript has it. *)
Module JsFloat.

Definition fromZ (z : Z) : float :=
  match z with
  | Z0 => 0%float
  | Zpos _ => PrimFloat.of_uint63 (Uint63.of_Z z)
  | Zneg p => PrimFloat.opp (PrimFloat.of_uint63 (Uint63.of_Z (Zpos p)))
  end.

(** [Math.floor]: a finite double is [(-1)^s * m * 2^e]; with [e >= 0] it
    is an integer already, otherwise the mantissa is shifted right and a
    negative value with a remainder is rounded away from zero. *)
Definition mathFloor (x : float) : float :=
  match Prim2SF x with
  | S754_finite s m e =>
      if 0 <=? e then x
      else
        let q := Z.shiftr (Zpos m) (- e) in
        let exact := Z.shiftl q (- e) =? Zpos m in
        if s then fromZ (- (if exact then q else q + 1)) else fromZ q
  | _ => x
  end.

Definition toBoolean (x : float) : bool :=
  negb (PrimFloat.eqb x 0 || PrimFloat.is_nan x).

(** [Math.max] and [Math.min]: NaN if either argument is, and of the
    two zeros [+0] is the larger. *)
Definition mathMax (a b : float) : float :=
  if PrimFloat.is_nan a || PrimFloat.is_nan b then PrimFloat.nan
  else if PrimFloat.ltb a b then b
  else if PrimFloat.ltb b a then a
  else match PrimFloat.classify a with NZero => b | _ => a end.

Definition mathMin (a b : float) : float :=
  if PrimFloat.is_nan a || PrimFloat.is_nan b then PrimFloat.nan
  else if PrimFloat.ltb b a then b
  else if PrimFloat.ltb a b then a
  else match PrimFloat.classify a with PZero => b | _ => a end.

#[global] Instance float_Num : Num float := {|
  ofZ := fromZ;
  add := PrimFloat.add;
  sub := PrimFloat.sub;
  mul := PrimFloat.mul;
  div := PrimFloat.div;
  sqrt := PrimFloat.sqrt;
  floor := mathFloor;
  fabs := PrimFloat.abs;
  fmin := mathMin;
  fmax := mathMax;
  ltb := PrimFloat.ltb;
  leb := PrimFloat.leb;
  truthy := toBoolean
|}.

End JsFloat.

(** ** Data model ([src/types.ts]) *)

Inductive EntityType :=
  | CONSTRUCTION_YARD | POWER_PLANT | REFINERY | BARRACKS | FACTORY | CANNON
  | INFANTRY | TANK | HARVESTER
  | ORE.

(** The enum is string-valued: each member is its own name. *)
Definition EntityType_value (t : EntityType) : string :=
  match t with
  | CONSTRUCTION_YARD => "CONSTRUCTION_YARD"
  | POWER_PLANT => "POWER_PLANT"
  | REFINERY => "REFINERY"
  | BARRACKS => "BARRACKS"
  | FACTORY => "FACTORY"
  | CANNON => "CANNON"
  | INFANTRY => "INFANTRY"
  | TANK => "TANK"
  | HARVESTER => "HARVESTER"
  | ORE => "ORE"
  end.

#[global] Instance EntityType_eq_dec : EqDecision EntityType.
Proof. solve_decision. Defined.

Inductive Team := player | enemy.

#[global] Instance Team_eq_dec : EqDecision Team.
Proof. solve_decision. Defined.

Inductive HarvestState := idle | moving_to_ore | harvesting | returning.

#[global] Instance HarvestState_eq_dec : EqDecision HarvestState.
Proof. solve_decision. Defined.

(** The two keys of [productionQueues] and of the [hasBuildings] snapshot. *)
Inductive BuildingKey := barracks | factory.

#[global] Instance BuildingKey_eq_dec : EqDecision BuildingKey.
Proof. solve_decision. Defined.

(** A reference to an [Entity] object: its index in the heap. *)
Definition ref := nat.

(** [turretAngle] is written with [Math.atan2 (dy, dx)] and read by the
    renderer only; the value is kept as the call that produced it. *)
Inductive Angle (F : Type) :=
  | Angle0
  | Atan2 (dy dx : F).
Arguments Angle0 {F}.
Arguments Atan2 {F} dy dx.

Module Vector.
Record t (F : Type) := mk { x : F; y : F }.
Arguments mk {F} x y.
Arguments x {F} t.
Arguments y {F} t.
End Vector.
Abbreviation Vector := Vector.t.

Module TypeDefinition.
Record t (F : Type) := mk {
  name : string;
  w : F;
  h : F;
  hp : Z;
  cost : Z;
  power : Z;
  speed : option F;
  range : option F;
  damage : option Z;
  fireRate : option Z;
  buildTime : option Z;
  radius : option F;
  capacity : option Z
}.
Arguments mk {F}.
Arguments name {F} t.
Arguments w {F} t.
Arguments h {F} t.
Arguments hp {F} t.
Arguments cost {F} t.
Arguments power {F} t.
Arguments speed {F} t.
Arguments range {F} t.
Arguments damage {F} t.
Arguments fireRate {F} t.
Arguments buildTime {F} t.
Arguments radius {F} t.
Arguments capacity {F} t.
End TypeDefinition.
Abbreviation TypeDefinition := TypeDefinition.t.

Module Entity.
(** [selected] is [false] where the source leaves it undefined;
    [cooldown] is [None] where the source stores [undefined] (the
    [fireRate] of a type that has none). *)
Record t (F : Type) := mk {
  id : F;
  pos : Vector F;
  type : EntityType;
  team : Team;
  hp : Z;
  maxHp : Z;
  dead : bool;
  radius : F;
  selected : bool;
  targetPos : option (Vector F);
  targetUnit : option ref;
  cooldown : option Z;
  cargo : Z;
  harvestState : HarvestState;
  turretAngle : Angle F
}.
Arguments mk {F}.
Arguments id {F} t.
Arguments pos {F} t.
Arguments type {F} t.
Arguments team {F} t.
Arguments hp {F} t.
Arguments maxHp {F} t.
Arguments dead {F} t.
Arguments radius {F} t.
Arguments selected {F} t.
Arguments targetPos {F} t.
Arguments targetUnit {F} t.
Arguments cooldown {F} t.
Arguments cargo {F} t.
Arguments harvestState {F} t.
Arguments turretAngle {F} t.

Definition set_pos {F} v (s : t F) : t F :=
  {| id := id s; pos := v; type := type s; team := team s; hp := hp s; maxHp
  := maxHp s; dead := dead s; radius := radius s; selected := selected s;
  targetPos := targetPos s; targetUnit := targetUnit s; cooldown := cooldown
  s; cargo := cargo s; harvestState := harvestState s; turretAngle :=
  turretAngle s |}.

Definition set_hp {F} v (s : t F) : t F :=
  {| id := id s; pos := pos s; type := type s; team := team s; hp := v;
  maxHp := maxHp s; dead := dead s; radius := radius s; selected := selected
  s; targetPos := targetPos s; targetUnit := targetUnit s; cooldown :=
  cooldown s; cargo := cargo s; harvestState := harvestState s; turretAngle
  := turretAngle s |}.

Definition set_dead {F} v (s : t F) : t F :=
  {| id := id s; pos := pos s; type := type s; team := team s; hp := hp s;
  maxHp := maxHp s; dead := v; radius := radius s; selected := selected s;
  targetPos := targetPos s; targetUnit := targetUnit s; cooldown := cooldown
  s; cargo := cargo s; harvestState := harvestState s; turretAngle :=
  turretAngle s |}.

Definition set_selected {F} v (s : t F) : t F :=
  {| id := id s; pos := pos s; type := type s; team := team s; hp := hp s;
  maxHp := maxHp s; dead := dead s; radius := radius s; selected := v;
  targetPos := targetPos s; targetUnit := targetUnit s; cooldown := cooldown
  s; cargo := cargo s; harvestState := harvestState s; turretAngle :=
  turretAngle s |}.

Definition set_targetPos {F} v (s : t F) : t F :=
  {| id := id s; pos := pos s; type := type s; team := team s; hp := hp s;
  maxHp := maxHp s; dead := dead s; radius := radius s; selected := selected
  s; targetPos := v; targetUnit := targetUnit s; cooldown := cooldown s;
  cargo := cargo s; harvestState := harvestState s; turretAngle :=
  turretAngle s |}.

Definition set_targetUnit {F} v (s : t F) : t F :=
  {| id := id s; pos := pos s; type := type s; team := team s; hp := hp s;
  maxHp := maxHp s; dead := dead s; radius := radius s; selected := selected
  s; targetPos := targetPos s; targetUnit := v; cooldown := cooldown s;
  cargo := cargo s; harvestState := harvestState s; turretAngle :=
  turretAngle s |}.

Definition set_cooldown {F} v (s : t F) : t F :=
  {| id := id s; pos := pos s; type := type s; team := team s; hp := hp s;
  maxHp := maxHp s; dead := dead s; radius := radius s; selected := selected
  s; targetPos := targetPos s; targetUnit := targetUnit s; cooldown := v;
  cargo := cargo s; harvestState := harvestState s; turretAngle :=
  turretAngle s |}.

Definition set_cargo {F} v (s : t F) : t F :=
  {| id := id s; pos := pos s; type := type s; team := team s; hp := hp s;
  maxHp := maxHp s; dead := dead s; radius := radius s; selected := selected
  s; targetPos := targetPos s; targetUnit := targetUnit s; cooldown :=
  cooldown s; cargo := v; harvestState := harvestState s; turretAngle :=
  turretAngle s |}.

Definition set_harvestState {F} v (s : t F) : t F :=
  {| id := id s; pos := pos s; type := type s; team := team s; hp := hp s;
  maxHp := maxHp s; dead := dead s; radius := radius s; selected := selected
  s; targetPos := targetPos s; targetUnit := targetUnit s; cooldown :=
  cooldown s; cargo := cargo s; harvestState := v; turretAngle :=
  turretAngle s |}.

Definition set_turretAngle {F} v (s : t F) : t F :=
  {| id := id s; pos := pos s; type := type s; team := team s; hp := hp s;
  maxHp := maxHp s; dead := dead s; radius := radius s; selected := selected
  s; targetPos := targetPos s; targetUnit := targetUnit s; cooldown :=
  cooldown s; cargo := cargo s; harvestState := harvestState s; turretAngle
  := v |}.
End Entity.
Abbreviation Entity := Entity.t.

Module OrePatch.
Record t (F : Type) := mk { pos : Vector F; amount : Z }.
Arguments mk {F}.
Arguments pos {F} t.
Arguments amount {F} t.
End OrePatch.
Abbreviation OrePatch := OrePatch.t.

Module Particle.
Record t (F : Type) := mk {
  pos : Vector F;
  vel : Vector F;
  life : Z;
  color : string
}.
Arguments mk {F}.
Arguments pos {F} t.
Arguments vel {F} t.
Arguments life {F} t.
Arguments color {F} t.
End Particle.
Abbreviation Particle := Particle.t.

(** The objects of [projectiles: any[]], as [fireProjectile] builds them. *)
Module Projectile.
Record t (F : Type) := mk {
  pos : Vector F;
  target : ref;
  damage : Z
}.
Arguments mk {F}.
Arguments pos {F} t.
Arguments target {F} t.
Arguments damage {F} t.
End Projectile.
Abbreviation Projectile := Projectile.t.

(** An entry of [productionQueues]. *)
Module Queue.
Record t := mk {
  type : EntityType;
  progress : Z;
  total : Z
}.
End Queue.
Abbreviation Queue := Queue.t.

(** [productionQueues]: the object [{ barracks, factory }];
    [Object.entries] lists [barracks] first. *)
Module Queues.
Record t := mk {
  barracks : option Queue;
  factory : option Queue
}.
End Queues.
Abbreviation Queues := Queues.t.

Definition getQueue (key : BuildingKey) (q : Queues) : option Queue :=
  match key with
  | barracks => Queues.barracks q
  | factory => Queues.factory q
  end.

Definition setQueue (key : BuildingKey) (v : option Queue) (q : Queues) : Queues :=
  match key with
  | barracks => {| Queues.barracks := v; Queues.factory := Queues.factory q |}
  | factory => {| Queues.barracks := Queues.barracks q; Queues.factory := v |}
  end.

(** The React state [hasBuildings] of [App]. *)
Module HasBuildings.
Record t := mk { barracks : bool; factory : bool }.
End HasBuildings.
Abbreviation HasBuildings := HasBuildings.t.

Definition getHasBuilding (key : BuildingKey) (hb : HasBuildings) : bool :=
  match key with
  | barracks => HasBuildings.barracks hb
  | factory => HasBuildings.factory hb
  end.

(** What the callbacks record: a text notification, the terminal signal. *)
Inductive Event :=
  | Message (msg : string)
  | GameOver.

#[global] Instance Event_eq_dec : EqDecision Event.
Proof. solve_decision. Defined.

(** The engine ([class GameEngine]).  Canvas, camera and panning fields
    belong to the view layer and are left out; [worldMouse] is the point
    the view layer hands to the commands.  [heap], [rng], [log] and
    [hasBuildings] (the React state [queueUnit] reads) are the model's. *)
Record GameEngine (F : Type) := mkGameEngine {
  credits : Z;
  power : Z;
  wave : Z;
  tick : Z;
  buildings : list ref;
  units : list ref;
  projectiles : list (Projectile F);
  particles : list (Particle F);
  orePatches : list (OrePatch F);
  worldMouse : Vector F;
  isDraggingSelection : bool;
  selectionStart : Vector F;
  buildMode : option EntityType;
  productionQueues : Queues;
  onUpdateUI : bool;
  onMessage : bool;
  onGameOver : bool;
  heap : list (Entity F);
  rng : nat;
  log : list Event;
  hasBuildings : HasBuildings
}.
Arguments mkGameEngine {F}.
Arguments credits {F} g.
Arguments power {F} g.
Arguments wave {F} g.
Arguments tick {F} g.
Arguments buildings {F} g.
Arguments units {F} g.
Arguments projectiles {F} g.
Arguments particles {F} g.
Arguments orePatches {F} g.
Arguments worldMouse {F} g.
Arguments isDraggingSelection {F} g.
Arguments selectionStart {F} g.
Arguments buildMode {F} g.
Arguments productionQueues {F} g.
Arguments onUpdateUI {F} g.
Arguments onMessage {F} g.
Arguments onGameOver {F} g.
Arguments heap {F} g.
Arguments rng {F} g.
Arguments log {F} g.
Arguments hasBuildings {F} g.

Definition set_credits {F} v (s : GameEngine F) : GameEngine F :=
  {| credits := v; power := power s; wave := wave s; tick := tick s; buildings
  := buildings s; units := units s; projectiles := projectiles s; particles :=
  particles s; orePatches := orePatches s; worldMouse := worldMouse s;
  isDraggingSelection := isDraggingSelection s; selectionStart :=
  selectionStart s; buildMode := buildMode s; productionQueues :=
  productionQueues s; onUpdateUI := onUpdateUI s; onMessage := onMessage s;
  onGameOver := onGameOver s; heap := heap s; rng := rng s; log := log s;
  hasBuildings := hasBuildings s |}.

Definition set_power {F} v (s : GameEngine F) : GameEngine F :=
  {| credits := credits s; power := v; wave := wave s; tick := tick s;
  buildings := buildings s; units := units s; projectiles := projectiles s;
  particles := particles s; orePatches := orePatches s; worldMouse :=
  worldMouse s; isDraggingSelection := isDraggingSelection s; selectionStart
  := selectionStart s; buildMode := buildMode s; productionQueues :=
  productionQueues s; onUpdateUI := onUpdateUI s; onMessage := onMessage s;
  onGameOver := onGameOver s; heap := heap s; rng := rng s; log := log s;
  hasBuildings := hasBuildings s |}.

Definition set_wave {F} v (s : GameEngine F) : GameEngine F :=
  {| credits := credits s; power := power s; wave := v; tick := tick s;
  buildings := buildings s; units := units s; projectiles := projectiles s;
  particles := particles s; orePatches := orePatches s; worldMouse :=
  worldMouse s; isDraggingSelection := isDraggingSelection s; selectionStart
  := selectionStart s; buildMode := buildMode s; productionQueues :=
  productionQueues s; onUpdateUI := onUpdateUI s; onMessage := onMessage s;
  onGameOver := onGameOver s; heap := heap s; rng := rng s; log := log s;
  hasBuildings := hasBuildings s |}.

Definition set_tick {F} v (s : GameEngine F) : GameEngine F :=
  {| credits := credits s; power := power s; wave := wave s; tick := v;
  buildings := buildings s; units := units s; projectiles := projectiles s;
  particles := particles s; orePatches := orePatches s; worldMouse :=
  worldMouse s; isDraggingSelection := isDraggingSelection s; selectionStart
  := selectionStart s; buildMode := buildMode s; productionQueues :=
  productionQueues s; onUpdateUI := onUpdateUI s; onMessage := onMessage s;
  onGameOver := onGameOver s; heap := heap s; rng := rng s; log := log s;
  hasBuildings := hasBuildings s |}.

Definition set_buildings {F} v (s : GameEngine F) : GameEngine F :=
  {| credits := credits s; power := power s; wave := wave s; tick := tick s;
  buildings := v; units := units s; projectiles := projectiles s; particles :=
  particles s; orePatches := orePatches s; worldMouse := worldMouse s;
  isDraggingSelection := isDraggingSelection s; selectionStart :=
  selectionStart s; buildMode := buildMode s; productionQueues :=
  productionQueues s; onUpdateUI := onUpdateUI s; onMessage := onMessage s;
  onGameOver := onGameOver s; heap := heap s; rng := rng s; log := log s;
  hasBuildings := hasBuildings s |}.

Definition set_units {F} v (s : GameEngine F) : GameEngine F :=
  {| credits := credits s; power := power s; wave := wave s; tick := tick s;
  buildings := buildings s; units := v; projectiles := projectiles s;
  particles := particles s; orePatches := orePatches s; worldMouse :=
  worldMouse s; isDraggingSelection := isDraggingSelection s; selectionStart
  := selectionStart s; buildMode := buildMode s; productionQueues :=
  productionQueues s; onUpdateUI := onUpdateUI s; onMessage := onMessage s;
  onGameOver := onGameOver s; heap := heap s; rng := rng s; log := log s;
  hasBuildings := hasBuildings s |}.

Definition set_projectiles {F} v (s : GameEngine F) : GameEngine F :=
  {| credits := credits s; power := power s; wave := wave s; tick := tick s;
  buildings := buildings s; units := units s; projectiles := v; particles :=
  particles s; orePatches := orePatches s; worldMouse := worldMouse s;
  isDraggingSelection := isDraggingSelection s; selectionStart :=
  selectionStart s; buildMode := buildMode s; productionQueues :=
  productionQueues s; onUpdateUI := onUpdateUI s; onMessage := onMessage s;
  onGameOver := onGameOver s; heap := heap s; rng := rng s; log := log s;
  hasBuildings := hasBuildings s |}.

Definition set_particles {F} v (s : GameEngine F) : GameEngine F :=
  {| credits := credits s; power := power s; wave := wave s; tick := tick s;
  buildings := buildings s; units := units s; projectiles := projectiles s;
  particles := v; orePatches := orePatches s; worldMouse := worldMouse s;
  isDraggingSelection := isDraggingSelection s; selectionStart :=
  selectionStart s; buildMode := buildMode s; productionQueues :=
  productionQueues s; onUpdateUI := onUpdateUI s; onMessage := onMessage s;
  onGameOver := onGameOver s; heap := heap s; rng := rng s; log := log s;
  hasBuildings := hasBuildings s |}.

Definition set_orePatches {F} v (s : GameEngine F) : GameEngine F :=
  {| credits := credits s; power := power s; wave := wave s; tick := tick s;
  buildings := buildings s; units := units s; projectiles := projectiles s;
  particles := particles s; orePatches := v; worldMouse := worldMouse s;
  isDraggingSelection := isDraggingSelection s; selectionStart :=
  selectionStart s; buildMode := buildMode s; productionQueues :=
  productionQueues s; onUpdateUI := onUpdateUI s; onMessage := onMessage s;
  onGameOver := onGameOver s; heap := heap s; rng := rng s; log := log s;
  hasBuildings := hasBuildings s |}.

Definition set_worldMouse {F} v (s : GameEngine F) : GameEngine F :=
  {| credits := credits s; power := power s; wave := wave s; tick := tick s;
  buildings := buildings s; units := units s; projectiles := projectiles s;
  particles := particles s; orePatches := orePatches s; worldMouse := v;
  isDraggingSelection := isDraggingSelection s; selectionStart :=
  selectionStart s; buildMode := buildMode s; productionQueues :=
  productionQueues s; onUpdateUI := onUpdateUI s; onMessage := onMessage s;
  onGameOver := onGameOver s; heap := heap s; rng := rng s; log := log s;
  hasBuildings := hasBuildings s |}.

Definition set_isDraggingSelection {F} v (s : GameEngine F) : GameEngine F :=
  {| credits := credits s; power := power s; wave := wave s; tick := tick s;
  buildings := buildings s; units := units s; projectiles := projectiles s;
  particles := particles s; orePatches := orePatches s; worldMouse :=
  worldMouse s; isDraggingSelection := v; selectionStart := selectionStart s;
  buildMode := buildMode s; productionQueues := productionQueues s; onUpdateUI
  := onUpdateUI s; onMessage := onMessage s; onGameOver := onGameOver s; heap
  := heap s; rng := rng s; log := log s; hasBuildings := hasBuildings s |}.

Definition set_selectionStart {F} v (s : GameEngine F) : GameEngine F :=
  {| credits := credits s; power := power s; wave := wave s; tick := tick s;
  buildings := buildings s; units := units s; projectiles := projectiles s;
  particles := particles s; orePatches := orePatches s; worldMouse :=
  worldMouse s; isDraggingSelection := isDraggingSelection s; selectionStart
  := v; buildMode := buildMode s; productionQueues := productionQueues s;
  onUpdateUI := onUpdateUI s; onMessage := onMessage s; onGameOver :=
  onGameOver s; heap := heap s; rng := rng s; log := log s; hasBuildings :=
  hasBuildings s |}.

Definition set_buildMode {F} v (s : GameEngine F) : GameEngine F :=
  {| credits := credits s; power := power s; wave := wave s; tick := tick s;
  buildings := buildings s; units := units s; projectiles := projectiles s;
  particles := particles s; orePatches := orePatches s; worldMouse :=
  worldMouse s; isDraggingSelection := isDraggingSelection s; selectionStart
  := selectionStart s; buildMode := v; productionQueues := productionQueues s;
  onUpdateUI := onUpdateUI s; onMessage := onMessage s; onGameOver :=
  onGameOver s; heap := heap s; rng := rng s; log := log s; hasBuildings :=
  hasBuildings s |}.

Definition set_productionQueues {F} v (s : GameEngine F) : GameEngine F :=
  {| credits := credits s; power := power s; wave := wave s; tick := tick s;
  buildings := buildings s; units := units s; projectiles := projectiles s;
  particles := particles s; orePatches := orePatches s; worldMouse :=
  worldMouse s; isDraggingSelection := isDraggingSelection s; selectionStart
  := selectionStart s; buildMode := buildMode s; productionQueues := v;
  onUpdateUI := onUpdateUI s; onMessage := onMessage s; onGameOver :=
  onGameOver s; heap := heap s; rng := rng s; log := log s; hasBuildings :=
  hasBuildings s |}.

Definition set_onUpdateUI {F} v (s : GameEngine F) : GameEngine F :=
  {| credits := credits s; power := power s; wave := wave s; tick := tick s;
  buildings := buildings s; units := units s; projectiles := projectiles s;
  particles := particles s; orePatches := orePatches s; worldMouse :=
  worldMouse s; isDraggingSelection := isDraggingSelection s; selectionStart
  := selectionStart s; buildMode := buildMode s; productionQueues :=
  productionQueues s; onUpdateUI := v; onMessage := onMessage s; onGameOver :=
  onGameOver s; heap := heap s; rng := rng s; log := log s; hasBuildings :=
  hasBuildings s |}.

Definition set_onMessage {F} v (s : GameEngine F) : GameEngine F :=
  {| credits := credits s; power := power s; wave := wave s; tick := tick s;
  buildings := buildings s; units := units s; projectiles := projectiles s;
  particles := particles s; orePatches := orePatches s; worldMouse :=
  worldMouse s; isDraggingSelection := isDraggingSelection s; selectionStart
  := selectionStart s; buildMode := buildMode s; productionQueues :=
  productionQueues s; onUpdateUI := onUpdateUI s; onMessage := v; onGameOver
  := onGameOver s; heap := heap s; rng := rng s; log := log s; hasBuildings :=
  hasBuildings s |}.

Definition set_onGameOver {F} v (s : GameEngine F) : GameEngine F :=
  {| credits := credits s; power := power s; wave := wave s; tick := tick s;
  buildings := buildings s; units := units s; projectiles := projectiles s;
  particles := particles s; orePatches := orePatches s; worldMouse :=
  worldMouse s; isDraggingSelection := isDraggingSelection s; selectionStart
  := selectionStart s; buildMode := buildMode s; productionQueues :=
  productionQueues s; onUpdateUI := onUpdateUI s; onMessage := onMessage s;
  onGameOver := v; heap := heap s; rng := rng s; log := log s; hasBuildings :=
  hasBuildings s |}.

Definition set_heap {F} v (s : GameEngine F) : GameEngine F :=
  {| credits := credits s; power := power s; wave := wave s; tick := tick s;
  buildings := buildings s; units := units s; projectiles := projectiles s;
  particles := particles s; orePatches := orePatches s; worldMouse :=
  worldMouse s; isDraggingSelection := isDraggingSelection s; selectionStart
  := selectionStart s; buildMode := buildMode s; productionQueues :=
  productionQueues s; onUpdateUI := onUpdateUI s; onMessage := onMessage s;
  onGameOver := onGameOver s; heap := v; rng := rng s; log := log s;
  hasBuildings := hasBuildings s |}.

Definition set_rng {F} v (s : GameEngine F) : GameEngine F :=
  {| credits := credits s; power := power s; wave := wave s; tick := tick s;
  buildings := buildings s; units := units s; projectiles := projectiles s;
  particles := particles s; orePatches := orePatches s; worldMouse :=
  worldMouse s; isDraggingSelection := isDraggingSelection s; selectionStart
  := selectionStart s; buildMode := buildMode s; productionQueues :=
  productionQueues s; onUpdateUI := onUpdateUI s; onMessage := onMessage s;
  onGameOver := onGameOver s; heap := heap s; rng := v; log := log s;
  hasBuildings := hasBuildings s |}.

Definition set_log {F} v (s : GameEngine F) : GameEngine F :=
  {| credits := credits s; power := power s; wave := wave s; tick := tick s;
  buildings := buildings s; units := units s; projectiles := projectiles s;
  particles := particles s; orePatches := orePatches s; worldMouse :=
  worldMouse s; isDraggingSelection := isDraggingSelection s; selectionStart
  := selectionStart s; buildMode := buildMode s; productionQueues :=
  productionQueues s; onUpdateUI := onUpdateUI s; onMessage := onMessage s;
  onGameOver := onGameOver s; heap := heap s; rng := rng s; log := v;
  hasBuildings := hasBuildings s |}.

Definition set_hasBuildings {F} v (s : GameEngine F) : GameEngine F :=
  {| credits := credits s; power := power s; wave := wave s; tick := tick s;
  buildings := buildings s; units := units s; projectiles := projectiles s;
  particles := particles s; orePatches := orePatches s; worldMouse :=
  worldMouse s; isDraggingSelection := isDraggingSelection s; selectionStart
  := selectionStart s; buildMode := buildMode s; productionQueues :=
  productionQueues s; onUpdateUI := onUpdateUI s; onMessage := onMessage s;
  onGameOver := onGameOver s; heap := heap s; rng := rng s; log := log s;
  hasBuildings := v |}.

(** ** The [in] operator on an array literal

    [key in arr] asks whether [arr] has a property named [key]: an index
    below its length, its own [length], or a name inherited from
    [Array.prototype] and [Object.prototype].  It does not look at the
    elements. *)

Definition inheritedArrayProperties : list string :=
  [ "constructor"; "at"; "concat"; "copyWithin"; "fill"; "find"; "findIndex";
    "findLast"; "findLastIndex"; "lastIndexOf"; "pop"; "push"; "reverse";
    "shift"; "unshift"; "slice"; "sort"; "splice"; "includes"; "indexOf";
    "join"; "keys"; "entries"; "values"; "forEach"; "filter"; "flat";
    "flatMap"; "map"; "every"; "some"; "reduce"; "reduceRight";
    "toLocaleString"; "toString"; "toReversed"; "toSorted"; "toSpliced";
    "with"; "hasOwnProperty"; "isPrototypeOf"; "propertyIsEnumerable";
    "valueOf"; "__proto__"; "__defineGetter__"; "__defineSetter__";
    "__lookupGetter__"; "__lookupSetter__" ].

Definition inArray (key : string) (arr : list string) : bool :=
  existsb (String.eqb key)
    (map pretty (seq 0 (length arr)) ++ ["length"] ++ inheritedArrayProperties).

(** [arr.forEach (body)] on an engine that [body] mutates. *)
Definition forEach {A S : Type} (arr : list A) (body : A -> S -> S) (s : S) : S :=
  fold_left (fun s a => body a s) arr s.

Definition gt0 (c : option Z) : bool :=
  match c with Some c => 0 <? c | None => false end.

Definition le0 (c : option Z) : bool :=
  match c with Some c => c <=? 0 | None => false end.

Definition isSome {A} (o : option A) : bool :=
  match o with Some _ => true | None => false end.

(** ** The engine ([src/constants.ts], [src/services/GameEngine.ts]) *)

Section Engine.

Context {F : Type} {N : Num F}.

(** The values [Math.random()] returns, in call order. *)
Variable random : nat -> F.

Definition TILE_SIZE : F := ofZ 40.

Definition DEFINITIONS (t : EntityType) : TypeDefinition F :=
  let building name w h hp cost power :=
    TypeDefinition.mk name (ofZ w) (ofZ h) hp cost power
      None None None None None None None in
  match t with
  | CONSTRUCTION_YARD => building "Construction Yard" 3 3 5000 0 20
  | POWER_PLANT => building "Power Plant" 2 2 800 300 50
  | REFINERY => building "Refinery" 3 2 1500 1500 (-30)
  | BARRACKS => building "Barracks" 2 2 1000 600 (-10)
  | FACTORY => building "Factory" 3 3 2000 2000 (-40)
  | CANNON =>
      TypeDefinition.mk "Cannon" (ofZ 1) (ofZ 1) 800 800 (-20)
        None (Some (ofZ 250)) (Some 40) (Some 60) None None None
  | INFANTRY =>
      TypeDefinition.mk "Rifleman" (dec 5 10) (dec 5 10) 80 100 0
        (Some (dec 3 10)) (Some (ofZ 120)) (Some 5) (Some 20) (Some 2000)
        (Some (ofZ 6)) None
  | TANK =>
      TypeDefinition.mk "Tank" (ofZ 1) (ofZ 1) 400 800 0
        (Some (dec 5 10)) (Some (ofZ 180)) (Some 35) (Some 90) (Some 5000)
        (Some (ofZ 16)) None
  | HARVESTER =>
      TypeDefinition.mk "Harvester" (ofZ 1) (ofZ 1) 600 1000 0
        (Some (dec 4 10)) (Some (ofZ 0)) (Some 0) (Some 0) (Some 4000)
        (Some (ofZ 16)) (Some 500)
  | ORE => building "Tiberium" 1 1 100 0 0
  end.

(** *** Heap, random draws, callbacks *)

Definition modify (r : ref) (f : Entity F -> Entity F) (s : GameEngine F)
  : GameEngine F :=
  set_heap (alter f r (heap s)) s.

Definition alloc (e : Entity F) (s : GameEngine F) : ref * GameEngine F :=
  (length (heap s), set_heap (heap s ++ [e]) s).

Definition mathRandom (s : GameEngine F) : F * GameEngine F :=
  (random (rng s), set_rng (S (rng s)) s).

(** [arr.find (p)] and [arr.some (p)] on an array of entities. *)
Definition holds (s : GameEngine F) (p : Entity F -> bool) (r : ref) : bool :=
  match heap s !! r with
  | Some e => p e
  | None => false
  end.

Definition findEntity (s : GameEngine F) (arr : list ref) (p : Entity F -> bool)
  : option ref :=
  List.find (holds s p) arr.

Definition someEntity (s : GameEngine F) (arr : list ref) (p : Entity F -> bool)
  : bool :=
  existsb (holds s p) arr.

Definition isA (t : EntityType) (tm : Team) (e : Entity F) : bool :=
  bool_decide (Entity.type e = t) && bool_decide (Entity.team e = tm).

(** [this.onMessage?.(msg)]: [App] appends the text to its message log. *)
Definition callMessage (msg : string) (s : GameEngine F) : GameEngine F :=
  if onMessage s then set_log (log s ++ [Message msg]) s else s.

(** [this.onUpdateUI?.()]: of what [App] copies into React state, only
    [hasBuildings] is read back by a command. *)
Definition callUpdateUI (s : GameEngine F) : GameEngine F :=
  if onUpdateUI s then
    set_hasBuildings
      {| HasBuildings.barracks := someEntity s (buildings s) (isA BARRACKS player);
         HasBuildings.factory := someEntity s (buildings s) (isA FACTORY player) |}
      s
  else s.

(** *** [createEntity] *)

(** [posX] and [posY]: snapped to the grid under the guard
    [type in [...]], else as given. *)
Definition snap (x y : F) (type : EntityType) : F * F :=
  let def := DEFINITIONS type in
  if inArray (EntityType_value type)
       (map EntityType_value
          [CONSTRUCTION_YARD; POWER_PLANT; REFINERY; BARRACKS; FACTORY])
  then
    let gx := floor (x / TILE_SIZE)%js in
    let gy := floor (y / TILE_SIZE)%js in
    ((gx * TILE_SIZE + (TypeDefinition.w def * TILE_SIZE) / ofZ 2)%js,
     (gy * TILE_SIZE + (TypeDefinition.h def * TILE_SIZE) / ofZ 2)%js)
  else (x, y).

(** The object literal [createEntity] returns, given the draw behind
    its [id]. *)
Definition newEntity (x y : F) (type : EntityType) (team : Team) (id : F)
  : Entity F :=
  let def := DEFINITIONS type in
  let '(posX, posY) := snap x y type in
  {| Entity.id := id;
     Entity.pos := Vector.mk posX posY;
     Entity.type := type;
     Entity.team := team;
     Entity.hp := TypeDefinition.hp def;
     Entity.maxHp := TypeDefinition.hp def;
     Entity.dead := false;
     Entity.radius :=
       orF (TypeDefinition.radius def)
         ((fmax (TypeDefinition.w def) (TypeDefinition.h def) * TILE_SIZE)
          / ofZ 2)%js;
     Entity.selected := false;
     Entity.targetPos := None;
     Entity.targetUnit := None;
     Entity.cooldown := Some 0;
     Entity.cargo := 0;
     Entity.harvestState := idle;
     Entity.turretAngle := Angle0 |}.

(** [createEntity(x, y, type, team)]: draws the id, builds the object;
    the result is the reference to the fresh object. *)
Definition createEntity (x y : F) (type : EntityType) (team : Team)
  (s : GameEngine F) : ref * GameEngine F :=
  let '(id, s) := mathRandom s in
  alloc (newEntity x y type team id) s.

(** [Math.pow (d, 2)] is taken as [d * d]. *)
Definition dist (v1 v2 : Vector F) : F :=
  let dx := (Vector.x v1 - Vector.x v2)%js in
  let dy := (Vector.y v1 - Vector.y v2)%js in
  sqrt (dx * dx + dy * dy)%js.

Definition calculatePower (s : GameEngine F) : GameEngine F :=
  let '(produced, consumed) :=
    fold_left
      (fun '(produced, consumed) b =>
         match heap s !! b with
         | Some e =>
             let def := DEFINITIONS (Entity.type e) in
             if 0 <? TypeDefinition.power def
             then (produced + TypeDefinition.power def, consumed)
             else (produced, consumed + Z.abs (TypeDefinition.power def))
         | None => (produced, consumed)
         end)
      (List.filter (holds s (fun e => bool_decide (Entity.team e = player)))
         (buildings s))
      (0, 0) in
  callUpdateUI (set_power (produced - consumed) s).

Definition initLevel (s : GameEngine F) : GameEngine F :=
  let '(hq, s) := createEntity (ofZ 1000) (ofZ 1000) CONSTRUCTION_YARD player s in
  let s := set_buildings (buildings s ++ [hq]) s in
  let s :=
    forEach (seq 0 20)
      (fun _ s =>
         let '(rx, s) := mathRandom s in
         let '(ry, s) := mathRandom s in
         set_orePatches
           (orePatches s ++
              [ {| OrePatch.pos :=
                     Vector.mk (ofZ 1000 + (rx - dec 5 10) * ofZ 1000)%js
                               (ofZ 1000 + (ry - dec 5 10) * ofZ 1000)%js;
                   OrePatch.amount := 1000 |} ])
           s)
      s in
  calculatePower s.

(** *** Spatial query and firing *)

Definition getNearestEnemy (pos : Vector F) (range : F) (s : GameEngine F)
  : option ref :=
  let scan (acc : option ref * F) (r : ref) : option ref * F :=
    let '(nearest, minDst) := acc in
    match heap s !! r with
    | Some e =>
        if bool_decide (Entity.team e = enemy) && negb (Entity.dead e) then
          let d := dist pos (Entity.pos e) in
          if (d <? minDst)%js then (Some r, d) else (nearest, minDst)
        else (nearest, minDst)
    | None => (nearest, minDst)
    end in
  let '(nearest, minDst) := fold_left scan (units s) (None, range) in
  match nearest with
  | Some _ => nearest
  | None => fst (fold_left scan (buildings s) (nearest, minDst))
  end.

Definition fireProjectile (source target : ref) (damage : Z)
  (s : GameEngine F) : GameEngine F :=
  match heap s !! source with
  | Some e =>
      set_projectiles
        (projectiles s ++
           [ {| Projectile.pos := Entity.pos e;
                Projectile.target := target;
                Projectile.damage := damage |} ])
        s
  | None => s
  end.

(** [Math.atan2 (to.y - from.y, to.x - from.x)] *)
Definition aim (from to : Vector F) : Angle F :=
  Atan2 (Vector.y to - Vector.y from)%js (Vector.x to - Vector.x from)%js.

(** *** [updateHarvester] *)

Definition updateHarvester (u : ref) (s : GameEngine F) : GameEngine F :=
  let def := DEFINITIONS HARVESTER in
  let cap := orZ (TypeDefinition.capacity def) 500 in
  match heap s !! u with
  | None => s
  | Some e =>
      if cap <=? Entity.cargo e then
        let s := modify u (Entity.set_harvestState returning) s in
        match findEntity s (buildings s) (isA REFINERY player) with
        | Some refinery =>
            match heap s !! refinery with
            | Some rf =>
                let s := modify u (Entity.set_targetPos (Some (Entity.pos rf))) s in
                if (dist (Entity.pos e) (Entity.pos rf) <? ofZ 60)%js then
                  let s := set_credits (credits s + Entity.cargo e) s in
                  let s := callMessage ("+" +:+ pretty (Entity.cargo e) +:+ " Credits") s in
                  let s := modify u (Entity.set_cargo 0) s in
                  let s := modify u (Entity.set_harvestState idle) s in
                  callUpdateUI s
                else s
            | None => s
            end
        | None => s
        end
      else if bool_decide (Entity.harvestState e = idle)
              || bool_decide (Entity.harvestState e = moving_to_ore) then
        match orePatches s with
        | ore :: _ =>
            let s := modify u (Entity.set_targetPos (Some (OrePatch.pos ore))) s in
            let s := modify u (Entity.set_harvestState moving_to_ore) s in
            if (dist (Entity.pos e) (OrePatch.pos ore) <? ofZ 30)%js then
              let s := modify u (Entity.set_harvestState harvesting) s in
              modify u (Entity.set_targetPos None) s
            else s
        | [] => s
        end
      else if bool_decide (Entity.harvestState e = harvesting) then
        if tick s mod 10 =? 0 then
          let s := modify u (Entity.set_cargo (Entity.cargo e + 10)) s in
          let s :=
            set_particles
              (particles s ++
                 [ {| Particle.pos := Entity.pos e;
                      Particle.vel := Vector.mk (ofZ 0) (ofZ (-1));
                      Particle.life := 10;
                      Particle.color := "#0f0" |} ])
              s in
          if cap <=? Entity.cargo e + 10
          then modify u (Entity.set_harvestState returning) s
          else s
        else s
      else s
  end.

(** *** [update]: one tick *)

(** [key === 'barracks' ? EntityType.BARRACKS : EntityType.FACTORY] *)
Definition spawnerType (key : BuildingKey) : EntityType :=
  match key with barracks => BARRACKS | factory => FACTORY end.

(** 1. Production: the body of the loop over [Object.entries]. *)
Definition productionStep (key : BuildingKey) (s : GameEngine F) : GameEngine F :=
  match getQueue key (productionQueues s) with
  | None => s
  | Some queue =>
      let progress := Queue.progress queue + 16 in
      let s :=
        set_productionQueues
          (setQueue key
             (Some {| Queue.type := Queue.type queue;
                      Queue.progress := progress;
                      Queue.total := Queue.total queue |})
             (productionQueues s))
          s in
      if Queue.total queue <=? progress then
        let s :=
          match findEntity s (buildings s) (isA (spawnerType key) player) with
          | Some spawner =>
              match heap s !! spawner with
              | Some sp =>
                  let '(unit, s) :=
                    createEntity (Vector.x (Entity.pos sp))
                      (Vector.y (Entity.pos sp) + ofZ 50)%js
                      (Queue.type queue) player s in
                  let s := set_units (units s ++ [unit]) s in
                  callMessage "Unit Ready" s
              | None => s
              end
          | None => s
          end in
        let s := set_productionQueues (setQueue key None (productionQueues s)) s in
        callUpdateUI s
      else if tick s mod 10 =? 0 then callUpdateUI s
      else s
  end.

Definition production (s : GameEngine F) : GameEngine F :=
  if 0 <=? power s then forEach [barracks; factory] productionStep s else s.

(** 2. Buildings (turrets): the body of [this.buildings.forEach]. *)
Definition cannonStep (b : ref) (s : GameEngine F) : GameEngine F :=
  match heap s !! b with
  | None => s
  | Some e =>
      if isA CANNON player e then
        if power s <? 0 then s
        else if gt0 (Entity.cooldown e) then
          modify b (Entity.set_cooldown (Z.pred <$> Entity.cooldown e)) s
        else
          match getNearestEnemy (Entity.pos e)
                  (default (ofZ 0) (TypeDefinition.range (DEFINITIONS CANNON))) s with
          | Some target =>
              match heap s !! target with
              | Some te =>
                  let s := modify b (Entity.set_turretAngle (aim (Entity.pos e) (Entity.pos te))) s in
                  let s := fireProjectile b target
                             (default 0 (TypeDefinition.damage (DEFINITIONS CANNON))) s in
                  modify b (Entity.set_cooldown (TypeDefinition.fireRate (DEFINITIONS CANNON))) s
              | None => s
              end
          | None => s
          end
      else s
  end.

(** 3. Units: the statements of the body of [this.units.forEach], in
    order.  Each re-reads [u] from the heap, as the source re-reads the
    fields of the object. *)

Definition harvesterLogic (u : ref) (s : GameEngine F) : GameEngine F :=
  if holds s (isA HARVESTER player) u then updateHarvester u s else s.

Definition aiLogic (u : ref) (s : GameEngine F) : GameEngine F :=
  match heap s !! u with
  | None => s
  | Some e =>
      if bool_decide (Entity.team e = enemy)
         && negb (isSome (Entity.targetUnit e))
         && negb (isSome (Entity.targetPos e)) then
        match findEntity s (buildings s) (isA CONSTRUCTION_YARD player) with
        | Some hq => modify u (Entity.set_targetUnit (Some hq)) s
        | None => s
        end
      else s
  end.

Definition autoTarget (u : ref) (s : GameEngine F) : GameEngine F :=
  match heap s !! u with
  | None => s
  | Some e =>
      let def := DEFINITIONS (Entity.type e) in
      if negb (isSome (Entity.targetUnit e))
         && negb (isSome (Entity.targetPos e))
         && negb (bool_decide (Entity.type e = HARVESTER)) then
        match getNearestEnemy (Entity.pos e)
                (orF (TypeDefinition.range def) (ofZ 150)) s with
        | Some target => modify u (Entity.set_targetUnit (Some target)) s
        | None => s
        end
      else s
  end.

(** Movement and attack up to the choice of [moveTarget]. *)
Definition attack (u : ref) (s : GameEngine F)
  : option (Vector F) * GameEngine F :=
  match heap s !! u with
  | None => (None, s)
  | Some e =>
      let def := DEFINITIONS (Entity.type e) in
      let moveTarget := Entity.targetPos e in
      match Entity.targetUnit e with
      | None => (moveTarget, s)
      | Some t =>
          match heap s !! t with
          | None => (moveTarget, s)
          | Some te =>
              if Entity.dead te then
                (moveTarget, modify u (Entity.set_targetUnit None) s)
              else
                let d := dist (Entity.pos e) (Entity.pos te) in
                if (d <=? orF (TypeDefinition.range def) (ofZ 0))%js then
                  let s := modify u (Entity.set_turretAngle (aim (Entity.pos e) (Entity.pos te))) s in
                  if le0 (Entity.cooldown e) then
                    let s := fireProjectile u t (orZ (TypeDefinition.damage def) 0) s in
                    (None, modify u (Entity.set_cooldown (TypeDefinition.fireRate def)) s)
                  else (None, s)
                else (Some (Entity.pos te), s)
          end
      end
  end.

Definition coolDown (u : ref) (s : GameEngine F) : GameEngine F :=
  match heap s !! u with
  | None => s
  | Some e =>
      if gt0 (Entity.cooldown e)
      then modify u (Entity.set_cooldown (Z.pred <$> Entity.cooldown e)) s
      else s
  end.

(** The repulsion sum [(rx, ry)] over [this.units]. *)
Definition repulsion (u : ref) (upos : Vector F) (s : GameEngine F) : F * F :=
  fold_left
    (fun '(rx, ry) other =>
       if bool_decide (u = other) then (rx, ry)
       else
         match heap s !! other with
         | Some o =>
             let od := dist upos (Entity.pos o) in
             if (od <? ofZ 20)%js then
               ((rx + (Vector.x upos - Vector.x (Entity.pos o)))%js,
                (ry + (Vector.y upos - Vector.y (Entity.pos o)))%js)
             else (rx, ry)
         | None => (rx, ry)
         end)
    (units s) (ofZ 0, ofZ 0).

Definition move (u : ref) (moveTarget : option (Vector F)) (s : GameEngine F)
  : GameEngine F :=
  match heap s !! u, moveTarget with
  | Some e, Some mt =>
      let def := DEFINITIONS (Entity.type e) in
      let dx := (Vector.x mt - Vector.x (Entity.pos e))%js in
      let dy := (Vector.y mt - Vector.y (Entity.pos e))%js in
      let d := sqrt (dx * dx + dy * dy)%js in
      let speed := orF (TypeDefinition.speed def) (ofZ 1) in
      if (d >? speed)%js then
        let '(rx, ry) := repulsion u (Entity.pos e) s in
        modify u
          (Entity.set_pos
             (Vector.mk
                (Vector.x (Entity.pos e) + ((dx / d) * speed + rx * dec 5 100))%js
                (Vector.y (Entity.pos e) + ((dy / d) * speed + ry * dec 5 100))%js))
          s
      else if isSome (Entity.targetUnit e) then s
      else modify u (Entity.set_targetPos None) s
  | _, _ => s
  end.

Definition unitStep (u : ref) (s : GameEngine F) : GameEngine F :=
  let s := harvesterLogic u s in
  let s := aiLogic u s in
  let s := autoTarget u s in
  let '(moveTarget, s) := attack u s in
  let s := coolDown u s in
  move u moveTarget s.

(** 4. Projectiles: the body of the loop, [None] when the projectile is
    spliced out. *)
Definition projectileStep (p : Projectile F) (s : GameEngine F)
  : option (Projectile F) * GameEngine F :=
  match heap s !! Projectile.target p with
  | None => (Some p, s)
  | Some te =>
      let dx := (Vector.x (Entity.pos te) - Vector.x (Projectile.pos p))%js in
      let dy := (Vector.y (Entity.pos te) - Vector.y (Projectile.pos p))%js in
      let d := sqrt (dx * dx + dy * dy)%js in
      if (d <? ofZ 10)%js then
        let hp := Entity.hp te - Projectile.damage p in
        let s := modify (Projectile.target p) (Entity.set_hp hp) s in
        let s :=
          if hp <=? 0 then modify (Projectile.target p) (Entity.set_dead true) s
          else s in
        let s :=
          set_particles
            (particles s ++
               [ {| Particle.pos := Entity.pos te;
                    Particle.vel := Vector.mk (ofZ 0) (ofZ 0);
                    Particle.life := 10;
                    Particle.color := "orange" |} ])
            s in
        (None, s)
      else
        (Some {| Projectile.pos :=
                   Vector.mk
                     (Vector.x (Projectile.pos p) + (dx / d) * ofZ 10)%js
                     (Vector.y (Projectile.pos p) + (dy / d) * ofZ 10)%js;
                 Projectile.target := Projectile.target p;
                 Projectile.damage := Projectile.damage p |},
         s)
  end.

(** [for (i = length - 1; i >= 0; i--)]: the last projectile first. *)
Fixpoint projectileLoop (ps : list (Projectile F)) (s : GameEngine F)
  : list (Projectile F) * GameEngine F :=
  match ps with
  | [] => ([], s)
  | p :: rest =>
      let '(rest, s) := projectileLoop rest s in
      match projectileStep p s with
      | (Some p, s) => (p :: rest, s)
      | (None, s) => (rest, s)
      end
  end.

Definition resolveProjectiles (s : GameEngine F) : GameEngine F :=
  let '(ps, s) := projectileLoop (projectiles s) s in
  set_projectiles ps s.

(** 5. Cleanup. *)
Definition alive (e : Entity F) : bool := negb (Entity.dead e).

Definition cleanup (s : GameEngine F) : GameEngine F :=
  let s := set_units (List.filter (holds s alive) (units s)) s in
  let s := set_buildings (List.filter (holds s alive) (buildings s)) s in
  let s :=
    set_particles (List.filter (fun p => 0 <? Particle.life p) (particles s)) s in
  set_particles
    (map (fun p => {| Particle.pos := Particle.pos p;
                      Particle.vel := Particle.vel p;
                      Particle.life := Particle.life p - 1;
                      Particle.color := Particle.color p |})
       (particles s))
    s.

(** 6. Wave logic; [Math.floor (wave * 1.5)] is [wave * 3 / 2] on the
    integers. *)
Definition spawnWaveUnit (i : Z) (s : GameEngine F) : GameEngine F :=
  let x := ofZ 2000 in
  let '(r, s) := mathRandom s in
  let y := (ofZ 1000 + (r - dec 5 10) * ofZ 500)%js in
  let '(unit, s) :=
    createEntity x y (if i mod 3 =? 0 then TANK else INFANTRY) enemy s in
  set_units (units s ++ [unit]) s.

Definition waveLogic (s : GameEngine F) : GameEngine F :=
  if (tick s mod 5400 =? 0) && (0 <? tick s) then
    let s := callMessage ("Wave " +:+ pretty (wave s) +:+ " Incoming!") s in
    let count := wave s * 3 / 2 + 2 in
    let s := forEach (map Z.of_nat (seq 0 (Z.to_nat count))) spawnWaveUnit s in
    let s := set_wave (wave s + 1) s in
    callUpdateUI s
  else s.

(** 7. Win/loss. *)
Definition winLoss (s : GameEngine F) : GameEngine F :=
  match findEntity s (buildings s) (isA CONSTRUCTION_YARD player) with
  | None => if onGameOver s then set_log (log s ++ [GameOver]) s else s
  | Some _ => s
  end.

Definition update (s : GameEngine F) : GameEngine F :=
  let s := set_tick (tick s + 1) s in
  let s := production s in
  let s := forEach (buildings s) cannonStep s in
  let s := forEach (units s) unitStep s in
  let s := resolveProjectiles s in
  let s := cleanup s in
  let s := waveLogic s in
  winLoss s.

(** *** Commands *)

(** What the click of [issueCommand] landed on: an enemy unit within 20
    of [worldMouse], else an enemy building within 40. *)
Definition commandTarget (s : GameEngine F) : option ref :=
  let near (tm : Team) (r : Z) (e : Entity F) : bool :=
    bool_decide (Entity.team e = tm)
    && (dist (Entity.pos e) (worldMouse s) <? ofZ r)%js in
  match findEntity s (units s) (near enemy 20) with
  | Some en => Some en
  | None => findEntity s (buildings s) (near enemy 40)
  end.

(** The body of the loop of [issueCommand] over [this.units]. *)
Definition commandUnit (target : option ref) (u : ref) (s : GameEngine F)
  : GameEngine F :=
  match heap s !! u with
  | None => s
  | Some e =>
      if Entity.selected e && bool_decide (Entity.team e = player) then
        let s :=
          match target with
          | Some _ =>
              let s := modify u (Entity.set_targetUnit target) s in
              modify u (Entity.set_targetPos None) s
          | None =>
              let s := modify u (Entity.set_targetPos (Some (worldMouse s))) s in
              let s := modify u (Entity.set_targetUnit None) s in
              if bool_decide (Entity.type e = HARVESTER)
              then modify u (Entity.set_harvestState idle) s
              else s
          end in
        set_particles
          (particles s ++
             [ {| Particle.pos := worldMouse s;
                  Particle.vel := Vector.mk (ofZ 0) (ofZ 0);
                  Particle.life := 20;
                  Particle.color := "#0f0" |} ])
          s
      else s
  end.

Definition issueCommand (s : GameEngine F) : GameEngine F :=
  let s := set_buildMode None s in
  let s := callUpdateUI s in
  let target := commandTarget s in
  forEach (units s) (commandUnit target) s.

Definition selectUnits (s : GameEngine F) : GameEngine F :=
  let x1 := fmin (Vector.x (selectionStart s)) (Vector.x (worldMouse s)) in
  let y1 := fmin (Vector.y (selectionStart s)) (Vector.y (worldMouse s)) in
  let x2 := fmax (Vector.x (selectionStart s)) (Vector.x (worldMouse s)) in
  let y2 := fmax (Vector.y (selectionStart s)) (Vector.y (worldMouse s)) in
  let isClick :=
    (fabs (x2 - x1) <? ofZ 5)%js && (fabs (y2 - y1) <? ofZ 5)%js in
  let s :=
    forEach (units s)
      (fun u s =>
         match heap s !! u with
         | None => s
         | Some e =>
             if bool_decide (Entity.team e = player) then
               if isClick then
                 modify u
                   (Entity.set_selected
                      (dist (Entity.pos e) (worldMouse s) <? ofZ 20)%js)
                   s
               else
                 modify u
                   (Entity.set_selected
                      ((Vector.x (Entity.pos e) >? x1)%js
                       && (Vector.x (Entity.pos e) <? x2)%js
                       && (Vector.y (Entity.pos e) >? y1)%js
                       && (Vector.y (Entity.pos e) <? y2)%js))
                   s
             else s
         end)
      s in
  callUpdateUI s.

(** The overlap test of [tryPlaceBuilding] for one existing building. *)
Definition overlaps (cx cy cw ch : F) (b : Entity F) : bool :=
  let bDef := DEFINITIONS (Entity.type b) in
  let bw := (TypeDefinition.w bDef * TILE_SIZE)%js in
  let bh := (TypeDefinition.h bDef * TILE_SIZE)%js in
  let bx := (Vector.x (Entity.pos b) - bw / ofZ 2)%js in
  let by_ := (Vector.y (Entity.pos b) - bh / ofZ 2)%js in
  (cx <? bx + bw)%js && (cx + cw >? bx)%js
  && (cy <? by_ + bh)%js && (cy + ch >? by_)%js.

(** [checkRect]: the footprint of the building to place, aligned to the
    tile under [worldMouse], as [(x, y, w, h)]. *)
Definition checkRect (def : TypeDefinition F) (s : GameEngine F)
  : F * F * F * F :=
  let gx := floor (Vector.x (worldMouse s) / TILE_SIZE)%js in
  let gy := floor (Vector.y (worldMouse s) / TILE_SIZE)%js in
  ((gx * TILE_SIZE)%js, (gy * TILE_SIZE)%js,
   (TypeDefinition.w def * TILE_SIZE)%js, (TypeDefinition.h def * TILE_SIZE)%js).

Definition collision (def : TypeDefinition F) (s : GameEngine F) : bool :=
  let '(cx, cy, cw, ch) := checkRect def s in
  someEntity s (buildings s) (overlaps cx cy cw ch).

Definition tryPlaceBuilding (s : GameEngine F) : GameEngine F :=
  match buildMode s with
  | None => s
  | Some mode =>
      let def := DEFINITIONS mode in
      if credits s <? TypeDefinition.cost def then s
      else
        let '(cx, cy, cw, ch) := checkRect def s in
        if negb (collision def s) then
          let s := set_credits (credits s - TypeDefinition.cost def) s in
          let '(b, s) :=
            createEntity (cx + cw / ofZ 2)%js (cy + ch / ofZ 2)%js mode player s in
          let s := set_buildings (buildings s ++ [b]) s in
          let s :=
            if bool_decide (mode = REFINERY) then
              match heap s !! b with
              | Some be =>
                  let '(hv, s) :=
                    createEntity (Vector.x (Entity.pos be))
                      (Vector.y (Entity.pos be) + ofZ 60)%js HARVESTER player s in
                  set_units (units s ++ [hv]) s
              | None => s
              end
            else s in
          let s := set_buildMode None s in
          let s := calculatePower s in
          callUpdateUI s
        else callMessage "Cannot build here!" s
  end.

(** [queueUnit] of [src/App.tsx]. *)
Definition queueUnit (type : EntityType) (buildingKey : BuildingKey)
  (s : GameEngine F) : GameEngine F :=
  let def := DEFINITIONS type in
  if credits s <? TypeDefinition.cost def then callMessage "Insufficient Funds" s
  else if isSome (getQueue buildingKey (productionQueues s)) then
    callMessage "Production Busy" s
  else if negb (getHasBuilding buildingKey (hasBuildings s)) then
    callMessage "Building Required" s
  else
    let s := set_credits (credits s - TypeDefinition.cost def) s in
    set_productionQueues
      (setQueue buildingKey
         (Some {| Queue.type := type;
                  Queue.progress := 0;
                  Queue.total := orZ (TypeDefinition.buildTime def) 1000 |})
         (productionQueues s))
      s.

(** *** The engine's life: construction, then inputs and ticks *)

(** The field initialisers of the class and of [App]'s [useState]. *)
Definition blank : GameEngine F :=
  {| credits := 2500;
     power := 0;
     wave := 1;
     tick := 0;
     buildings := [];
     units := [];
     projectiles := [];
     particles := [];
     orePatches := [];
     worldMouse := Vector.mk (ofZ 0) (ofZ 0);
     isDraggingSelection := false;
     selectionStart := Vector.mk (ofZ 0) (ofZ 0);
     buildMode := None;
     productionQueues := {| Queues.barracks := None; Queues.factory := None |};
     onUpdateUI := false;
     onMessage := false;
     onGameOver := false;
     heap := [];
     rng := 0;
     log := [];
     hasBuildings :=
       {| HasBuildings.barracks := false; HasBuildings.factory := false |} |}.

(** The constructor: [initLevel ()], then [loop ()] runs a first tick
    before [App] installs its callbacks. *)
Definition construct : GameEngine F := update (initLevel blank).

Definition handleMouseDownLeft (s : GameEngine F) : GameEngine F :=
  if isSome (buildMode s) then tryPlaceBuilding s
  else set_selectionStart (worldMouse s) (set_isDraggingSelection true s).

Definition handleMouseUpLeft (s : GameEngine F) : GameEngine F :=
  if isDraggingSelection s then selectUnits (set_isDraggingSelection false s)
  else s.

(** What reaches the engine between two ticks. *)
Inductive Input :=
  | Tick
  | InstallCallbacks
  | MouseMove (world : Vector F)
  | LeftDown
  | LeftUp
  | RightClick
  | SetBuildMode (type : EntityType)
  | QueueUnit (type : EntityType) (buildingKey : BuildingKey).

Definition step (i : Input) (s : GameEngine F) : GameEngine F :=
  match i with
  | Tick => update s
  | InstallCallbacks =>
      set_onGameOver true (set_onMessage true (set_onUpdateUI true s))
  | MouseMove world => set_worldMouse world s
  | LeftDown => handleMouseDownLeft s
  | LeftUp => handleMouseUpLeft s
  | RightClick => issueCommand s
  | SetBuildMode type => set_buildMode (Some type) s
  | QueueUnit type buildingKey => queueUnit type buildingKey s
  end.

Definition run (inputs : list Input) (s : GameEngine F) : GameEngine F :=
  fold_left (fun s i => step i s) inputs s.

Inductive reachable : GameEngine F -> Prop :=
  | reachable_construct : reachable construct
  | reachable_step i s : reachable s -> reachable (step i s).

End Engine.

Arguments Input : clear implicits.
Arguments Tick {F}.
Arguments InstallCallbacks {F}.
Arguments MouseMove {F} world.
Arguments LeftDown {F}.
Arguments LeftUp {F}.
Arguments RightClick {F}.
Arguments SetBuildMode {F} type.
Arguments QueueUnit {F} type buildingKey.


(** ** The view layer of [class GameEngine]: camera, panning, mouse handlers

    The camera and panning fields of the class, kept beside the engine
    they drive.  [getBoundingClientRect ()] is the rectangle handed to
    [handleMouseMove] with the event. *)

Module MouseEvent.
Record t (F : Type) := mk { clientX : F; clientY : F; button : Z }.
Arguments mk {F}.
Arguments clientX {F} t.
Arguments clientY {F} t.
Arguments button {F} t.
End MouseEvent.
Abbreviation MouseEvent := MouseEvent.t.

Module DOMRect.
Record t (F : Type) := mk { left : F; top : F }.
Arguments mk {F}.
Arguments left {F} t.
Arguments top {F} t.
End DOMRect.
Abbreviation DOMRect := DOMRect.t.

Record View (F : Type) := mkView {
  engine : GameEngine F;
  camera : Vector F;
  isPanning : bool;
  dragStartCamera : Vector F;
  dragStartMouse : Vector F;
  mouse : Vector F
}.
Arguments mkView {F}.
Arguments engine {F} v.
Arguments camera {F} v.
Arguments isPanning {F} v.
Arguments dragStartCamera {F} v.
Arguments dragStartMouse {F} v.
Arguments mouse {F} v.

Definition set_engine {F} g (v : View F) : View F :=
  {| engine := g; camera := camera v; isPanning := isPanning v;
     dragStartCamera := dragStartCamera v; dragStartMouse := dragStartMouse v;
     mouse := mouse v |}.

Definition set_camera {F} c (v : View F) : View F :=
  {| engine := engine v; camera := c; isPanning := isPanning v;
     dragStartCamera := dragStartCamera v; dragStartMouse := dragStartMouse v;
     mouse := mouse v |}.

Definition set_isPanning {F} b (v : View F) : View F :=
  {| engine := engine v; camera := camera v; isPanning := b;
     dragStartCamera := dragStartCamera v; dragStartMouse := dragStartMouse v;
     mouse := mouse v |}.

Definition set_dragStartCamera {F} c (v : View F) : View F :=
  {| engine := engine v; camera := camera v; isPanning := isPanning v;
     dragStartCamera := c; dragStartMouse := dragStartMouse v;
     mouse := mouse v |}.

Definition set_dragStartMouse {F} m (v : View F) : View F :=
  {| engine := engine v; camera := camera v; isPanning := isPanning v;
     dragStartCamera := dragStartCamera v; dragStartMouse := m;
     mouse := mouse v |}.

Definition set_mouse {F} m (v : View F) : View F :=
  {| engine := engine v; camera := camera v; isPanning := isPanning v;
     dragStartCamera := dragStartCamera v; dragStartMouse := dragStartMouse v;
     mouse := m |}.

Section ViewLayer.

Context {F : Type} {N : Num F}.
Variable random : nat -> F.

Definition getWorldPos (screenPos : Vector F) (v : View F) : Vector F :=
  Vector.mk (Vector.x screenPos - Vector.x (camera v))%js
            (Vector.y screenPos - Vector.y (camera v))%js.

Definition handleMouseMove (rect : DOMRect F) (e : MouseEvent F) (v : View F)
  : View F :=
  let v :=
    set_mouse
      (Vector.mk (MouseEvent.clientX e - DOMRect.left rect)%js
                 (MouseEvent.clientY e - DOMRect.top rect)%js)
      v in
  let v := set_engine (set_worldMouse (getWorldPos (mouse v) v) (engine v)) v in
  if isPanning v then
    let dx := (Vector.x (mouse v) - Vector.x (dragStartMouse v))%js in
    let dy := (Vector.y (mouse v) - Vector.y (dragStartMouse v))%js in
    set_camera
      (Vector.mk (Vector.x (dragStartCamera v) + dx)%js
                 (Vector.y (dragStartCamera v) + dy)%js)
      v
  else v.

Definition handleMouseDown (e : MouseEvent F) (v : View F) : View F :=
  if MouseEvent.button e =? 2 then
    let v := set_isPanning true v in
    let v := set_dragStartMouse (mouse v) v in
    set_dragStartCamera (camera v) v
  else if MouseEvent.button e =? 0 then
    set_engine (handleMouseDownLeft random (engine v)) v
  else v.

Definition handleMouseUp (e : MouseEvent F) (v : View F) : View F :=
  if MouseEvent.button e =? 2 then
    let v := set_isPanning false v in
    let dist := dist (mouse v) (dragStartMouse v) in
    if (dist <? ofZ 5)%js then set_engine (issueCommand (engine v)) v else v
  else if MouseEvent.button e =? 0 then
    set_engine (handleMouseUpLeft (engine v)) v
  else v.

(** The view as the constructor leaves it: [initLevel] centres the
    camera. *)
Definition mount : View F :=
  {| engine := construct random;
     camera := Vector.mk (ofZ (-500)) (ofZ (-500));
     isPanning := false;
     dragStartCamera := Vector.mk (ofZ 0) (ofZ 0);
     dragStartMouse := Vector.mk (ofZ 0) (ofZ 0);
     mouse := Vector.mk (ofZ 0) (ofZ 0) |}.

(** The listeners of the canvas. *)
Inductive Dom :=
  | Mousemove (rect : DOMRect F) (e : MouseEvent F)
  | Mousedown (e : MouseEvent F)
  | Mouseup (e : MouseEvent F).

Definition dispatch (d : Dom) (v : View F) : View F :=
  match d with
  | Mousemove rect e => handleMouseMove rect e v
  | Mousedown e => handleMouseDown e v
  | Mouseup e => handleMouseUp e v
  end.

Definition play (events : list Dom) (v : View F) : View F :=
  fold_left (fun v d => dispatch d v) events v.

(** *** [consultEVA]: the building counts sent to the advisor *)

(** [{ ...acc, [key]: value }] on an object kept as its entries in
    insertion order: an existing key keeps its place. *)
Fixpoint assign (key : EntityType) (value : Z) (acc : list (EntityType * Z))
  : list (EntityType * Z) :=
  match acc with
  | [] => [(key, value)]
  | (k, v) :: rest =>
      if bool_decide (k = key) then (k, value) :: rest
      else (k, v) :: assign key value rest
  end.

(** [acc[key]] *)
Fixpoint entry (key : EntityType) (acc : list (EntityType * Z)) : option Z :=
  match acc with
  | [] => None
  | (k, v) :: rest => if bool_decide (k = key) then Some v else entry key rest
  end.

Definition buildingCounts (g : GameEngine F) : list (EntityType * Z) :=
  fold_left
    (fun acc b =>
       match heap g !! b with
       | Some e => assign (Entity.type e) (orZ (entry (Entity.type e) acc) 0 + 1) acc
       | None => acc
       end)
    (List.filter (holds g (fun e => bool_decide (Entity.team e = player)))
       (buildings g))
    [].

End ViewLayer.

Arguments Dom : clear implicits.
Arguments Mousemove {F} rect e.
Arguments Mousedown {F} e.
Arguments Mouseup {F} e.

(** ** [App]: the message panel and the raw PCM fallback of [playAudio] *)

(** [arr.slice (start)]: a negative [start] counts from the end. *)
Definition slice {A} (start : Z) (arr : list A) : list A :=
  if start <? 0 then drop (length arr - Z.to_nat (- start)) arr
  else drop (Z.to_nat start) arr.

(** The React state [messages], and the [setTimeout] callbacks that are
    pending: each is [setMessages (prev => prev.slice (1))]. *)
Record Panel := mkPanel {
  messages : list string;
  pending : nat
}.

(** [engine.onMessage] as [App] installs it. *)
Definition notify (msg : string) (p : Panel) : Panel :=
  {| messages := slice (-4) (messages p) ++ [msg];
     pending := S (pending p) |}.

(** A pending timeout fires. *)
Definition expire (p : Panel) : Panel :=
  match pending p with
  | O => p
  | S n => {| messages := slice 1 (messages p); pending := n |}
  end.

Inductive PanelEvent :=
  | Notified (msg : string)
  | TimedOut.

Definition panelStep (ev : PanelEvent) (p : Panel) : Panel :=
  match ev with
  | Notified msg => notify msg p
  | TimedOut => expire p
  end.

Definition panel (events : list PanelEvent) : Panel :=
  fold_left (fun p ev => panelStep ev p) events {| messages := []; pending := 0 |}.

(** [dataView.getInt16 (byteOffset, true)]: little-endian, two's
    complement; [None] is the [RangeError] of a read past the end. *)
Definition getInt16 (buffer : list Byte.byte) (byteOffset : nat) : option Z :=
  match buffer !! byteOffset, buffer !! S byteOffset with
  | Some lo, Some hi =>
      let u := Z.of_N (Byte.to_N lo) + 256 * Z.of_N (Byte.to_N hi) in
      Some (if u <? 32768 then u else u - 65536)
  | _, _ => None
  end.

(** The fallback loop of [playAudio]: [byteLength / 2] samples (the
    constructor of [Float32Array] truncates the length), sample [i] read
    at byte [2 i] and scaled by 32768. *)
Definition rawPCM {F} `{Num F} (arrayBuffer : list Byte.byte) : option (list F) :=
  mapM (fun i => (fun v => (ofZ v / ofZ 32768)%js) <$> getInt16 arrayBuffer (2 * i))
       (seq 0 (length arrayBuffer / 2)).

(** ** Vocabulary of the properties *)

(** How often the terminal signal was raised. *)
Definition gameOvers (l : list Event) : nat :=
  length (List.filter (fun ev => bool_decide (ev = GameOver)) l).

Section Vocabulary.

Context {F : Type} {N : Num F}.
Variable random : nat -> F.

Implicit Types (s : GameEngine F) (e : Entity F) (r u b : ref).

(** What holds of every entity object, live or swept. *)
Record entity_ok e : Prop := {
  ok_cooldown : forall c, Entity.cooldown e = Some c -> 0 <= c;
  ok_hp : Entity.hp e <= Entity.maxHp e;
  ok_cargo : 0 <= Entity.cargo e <= 500;
  ok_cargo10 : Entity.cargo e mod 10 = 0
}.

(** The well-formedness invariant of the engine. *)
Record Inv s : Prop := {
  inv_heap : Forall entity_ok (heap s);
  inv_projectiles : Forall (fun p => 0 <= Projectile.damage p) (projectiles s);
  inv_credits : 0 <= credits s;
  inv_units : Forall (fun r => (r < length (heap s))%nat) (units s);
  inv_buildings : Forall (fun r => (r < length (heap s))%nat) (buildings s)
}.

Definition cooldown_ok e : Prop :=
  match Entity.cooldown e with
  | Some c => 0 <= c
  | None => True
  end.

(** Type and team: what no field write changes. *)
Definition kind e : EntityType * Team := (Entity.type e, Entity.team e).

(** Phases 2 to 6 of [update]. *)
Definition afterProduction (s : GameEngine F) : GameEngine F :=
  let s := forEach (buildings s) cannonStep s in
  let s := forEach (units s) unitStep s in
  let s := resolveProjectiles s in
  let s := cleanup s in
  waveLogic random s.

(** [s'] comes after [s0]: the heap has grown, the objects of [s0] have
    kept type and team, and [buildings] has only lost members. *)
Definition grows (s0 s' : GameEngine F) : Prop :=
  (length (heap s0) <= length (heap s'))%nat
  /\ (forall r, (r < length (heap s0))%nat ->
                kind <$> heap s' !! r = kind <$> heap s0 !! r)
  /\ (forall b, In b (buildings s') -> In b (buildings s0)).

(** Whether a friendly construction yard is in [buildings]. *)
Definition yard s : bool :=
  isSome (findEntity s (buildings s) (isA CONSTRUCTION_YARD player)).

(** [s'] is [s] except for what was notified. *)
Definition sameGame s s' : Prop := s' = set_log (log s') s.

(** A selected harvester of the player. *)
Definition ownHarvester e : Prop :=
  Entity.selected e = true /\ Entity.team e = player /\ Entity.type e = HARVESTER.

(** ... that has just been ordered to the point [m]. *)
Definition ordered (m : Vector F) e : Prop :=
  ownHarvester e
  /\ Entity.harvestState e = idle
  /\ Entity.targetPos e = Some m
  /\ Entity.targetUnit e = None.

(** The position the specification asks of [createEntity] for a
    building-class type: the cell-aligned origin of the tile that
    contains [(x, y)] plus half the footprint of the type. *)
Definition snapped (x y : F) (type : EntityType) : Vector F :=
  let def := DEFINITIONS type in
  Vector.mk
    (floor (x / TILE_SIZE) * TILE_SIZE + (TypeDefinition.w def * TILE_SIZE) / ofZ 2)%js
    (floor (y / TILE_SIZE) * TILE_SIZE + (TypeDefinition.h def * TILE_SIZE) / ofZ 2)%js.

(** What a harvester carries and where it is in its cycle. *)
Definition load e : Z * HarvestState := (Entity.cargo e, Entity.harvestState e).

(** Whether the unit body of phase 3 finds [u] depositing: a harvester
    of the player with a full load, a refinery of the player in
    [buildings], and the first such refinery closer than 60. *)
Definition depositing (u : ref) s : bool :=
  match heap s !! u with
  | Some e =>
      isA HARVESTER player e
      && (500 <=? Entity.cargo e)
      && match findEntity s (buildings s) (isA REFINERY player) with
         | Some refinery =>
             match heap s !! refinery with
             | Some rf => (dist (Entity.pos e) (Entity.pos rf) <? ofZ 60)%js
             | None => false
             end
         | None => false
         end
  | None => false
  end.

(** How many of the units of [l] deposit when phase 3 runs over [l]
    from [s], each tested in the state its turn finds. *)
Fixpoint deposits (l : list ref) s : Z :=
  match l with
  | [] => 0
  | u :: l => (if depositing u s then 1 else 0) + deposits l (unitStep u s)
  end.

(** The state in which phase 3 of the tick from [s] starts. *)
Definition enteringUnits s : GameEngine F :=
  let s := set_tick (tick s + 1) s in
  let s := production random s in
  forEach (buildings s) cannonStep s.

End Vocabulary.

(** ** Scenarios *)

Module Scenario.

(** Every [Math.random()] returns 0.5: ore and waves sit on the map's
    horizontal axis through the construction yard. *)
Definition half (_ : nat) : float := 0.5%float.

Definition at_ (x y : float) : Input float := MouseMove (Vector.mk x y).

(** The engine as constructed, with [App]'s callbacks installed. *)
Definition start : GameEngine float :=
  run half [InstallCallbacks] (construct half).

(** Nothing is built or ordered: the waves reach the construction yard
    and bring it down in the tick that makes the tick counter 15284;
    this is the state one tick earlier. *)
Definition lastStand : GameEngine float := run half (repeat Tick (Z.to_nat 15282)) start.

(** A refinery is placed; its harvester spawns 60 below its centre.
    Power drops to -10. *)
Definition withRefinery : GameEngine float :=
  run half [SetBuildMode REFINERY; at_ 1200 800; LeftDown] start.

(** The harvester has fetched a full load and is back within 60 of the
    refinery. *)
Definition loaded : GameEngine float := run half (repeat Tick (Z.to_nat 1660)) withRefinery.

(** The harvester is selected with a click, and the mouse is moved to
    (500, 500). *)
Definition selecting : GameEngine float :=
  run half [at_ 1260 900; LeftDown; LeftUp; at_ 500 500] withRefinery.

(** The harvester as it stands selected. *)
Definition harvester : Entity float :=
  Entity.set_selected true
    (newEntity 1260%float 900%float HARVESTER player 0.5%float).

(** A right click sends it to (500, 500). *)
Definition orderedAway : GameEngine float := run half [RightClick] selecting.

(** A barracks and six power plants leave 100 credits; a rifleman is
    ordered with them, which leaves none. *)
Definition spent : GameEngine float :=
  run half
    [ SetBuildMode BARRACKS; at_ 1200 800; LeftDown;
      SetBuildMode POWER_PLANT; at_ 1200 1200; LeftDown;
      SetBuildMode POWER_PLANT; at_ 1300 1200; LeftDown;
      SetBuildMode POWER_PLANT; at_ 1400 1200; LeftDown;
      SetBuildMode POWER_PLANT; at_ 1500 1200; LeftDown;
      SetBuildMode POWER_PLANT; at_ 1600 1200; LeftDown;
      SetBuildMode POWER_PLANT; at_ 1700 1200; LeftDown;
      QueueUnit INFANTRY barracks ]
    start.

End Scenario.

(** ** Vocabulary of the further properties *)

Section Further.

Context {F : Type} {N : Num F}.

Implicit Types (s : GameEngine F) (e : Entity F) (r u b : ref).

(** The fields no phase of a tick writes. *)
Definition ambient s :=
  (power s, orePatches s, buildMode s, worldMouse s, isDraggingSelection s,
   selectionStart s, onUpdateUI s, onMessage s, onGameOver s).

Definition standing s := (ambient s, tick s).

Definition untouched s := (standing s, wave s).

(** The fields no command of the player writes, but for the queue that
    [queueUnit] fills. *)
Definition fixtures s := (tick s, wave s, orePatches s, productionQueues s).

(** What a listed building adds to the power balance: the [power] of
    its type in the catalog if it is the player's, nothing otherwise. *)
Definition supply s b : Z :=
  match heap s !! b with
  | Some e =>
      if bool_decide (Entity.team e = player)
      then TypeDefinition.power (DEFINITIONS (F := F) (Entity.type e))
      else 0
  | None => 0
  end.

Definition balance s : Z := foldr Z.add 0 (map (supply s) (buildings s)).

(** How many ticks a run holds. *)
Definition isTick (i : Input F) : bool :=
  match i with Tick => true | _ => false end.

Definition ticks (inputs : list (Input F)) : Z :=
  Z.of_nat (length (List.filter isTick inputs)).

(** No entity listed in [units] or [buildings] is dead. *)
Definition tidy s : Prop :=
  Forall (fun r => holds s alive r = true) (units s ++ buildings s).

(** A production order under way: begun, not complete, advanced by
    whole ticks, and as long as the catalog says. *)
Definition queue_ok (q : Queue) : Prop :=
  0 <= Queue.progress q < Queue.total q
  /\ Queue.progress q mod 16 = 0
  /\ Queue.total q
     = orZ (TypeDefinition.buildTime (DEFINITIONS (F := F) (Queue.type q))) 1000.

Definition slot_ok (slot : option Queue) : Prop :=
  match slot with
  | Some q => queue_ok q
  | None => True
  end.

Definition queues_ok (qs : Queues) : Prop :=
  slot_ok (Queues.barracks qs) /\ slot_ok (Queues.factory qs).

(** An order after one more tick of production: 16 further, or
    complete and gone. *)
Definition advance (q : Queue) : option Queue :=
  if Queue.total q <=? Queue.progress q + 16 then None
  else Some {| Queue.type := Queue.type q;
               Queue.progress := Queue.progress q + 16;
               Queue.total := Queue.total q |}.

(** Where [tryPlaceBuilding] puts a building of type [mode]: the centre
    of its footprint, laid from the corner of the tile under the
    cursor. *)
Definition site (mode : EntityType) s : Vector F :=
  let '(cx, cy, cw, ch) := checkRect (DEFINITIONS mode) s in
  Vector.mk (cx + cw / ofZ 2)%js (cy + ch / ofZ 2)%js.

(** Whether [selectUnits] selects [e]: within 20 of the cursor when the
    selection box is a click (under 5 by 5), strictly inside the box
    otherwise. *)
Definition picked s e : bool :=
  let x1 := fmin (Vector.x (selectionStart s)) (Vector.x (worldMouse s)) in
  let y1 := fmin (Vector.y (selectionStart s)) (Vector.y (worldMouse s)) in
  let x2 := fmax (Vector.x (selectionStart s)) (Vector.x (worldMouse s)) in
  let y2 := fmax (Vector.y (selectionStart s)) (Vector.y (worldMouse s)) in
  if (fabs (x2 - x1) <? ofZ 5)%js && (fabs (y2 - y1) <? ofZ 5)%js
  then (dist (Entity.pos e) (worldMouse s) <? ofZ 20)%js
  else (Vector.x (Entity.pos e) >? x1)%js && (Vector.x (Entity.pos e) <? x2)%js
       && (Vector.y (Entity.pos e) >? y1)%js && (Vector.y (Entity.pos e) <? y2)%js.

(** What [selectUnits] makes of an object in [units]: the [selected]
    flag of a unit of the player is set as [picked] says, and that is
    all. *)
Definition flag s e : Entity F :=
  if bool_decide (Entity.team e = player)
  then Entity.set_selected (picked s e) e else e.

(** ... and of the object [r] refers to, in [units] or not. *)
Definition marked s r e : Entity F :=
  if bool_decide (r ∈ units s) then flag s e else e.

(** The [i]-th unit of a wave, as [waveLogic] creates it.  *)
Definition raider (i : nat) e : Prop :=
  Entity.team e = enemy
  /\ Entity.type e = (if Z.of_nat i mod 3 =? 0 then TANK else INFANTRY)
  /\ Vector.x (Entity.pos e) = ofZ 2000
  /\ Entity.hp e = Entity.maxHp e
  /\ Entity.dead e = false
  /\ Entity.targetUnit e = None
  /\ Entity.targetPos e = None.

(** A live enemy, as [getNearestEnemy] tests it. *)
Definition hostile e : bool :=
  bool_decide (Entity.team e = enemy) && negb (Entity.dead e).

(** Fair game: an enemy, or a construction yard. *)
Definition fairGame e : bool :=
  bool_decide (Entity.team e = enemy)
  || bool_decide (Entity.type e = CONSTRUCTION_YARD).

Definition fair s (t : ref) : Prop := holds s fairGame t = true.

(** Nothing aims at, flies at or has hurt anything but fair game. *)
Record Safe s : Prop := {
  safe_targets : forall r e t,
    heap s !! r = Some e -> Entity.targetUnit e = Some t -> fair s t;
  safe_projectiles : Forall (fun p => fair s (Projectile.target p)) (projectiles s);
  safe_sheltered : forall r e,
    heap s !! r = Some e -> fairGame e = false ->
    Entity.hp e = Entity.maxHp e /\ Entity.dead e = false
}.

(** Whether the player has, in [buildings], the building that spawns
    the orders of the slot [key]: what [callUpdateUI] copies into
    [hasBuildings]. *)
Definition manned (key : BuildingKey) s : bool :=
  someEntity s (buildings s) (isA (spawnerType key) player).

(** Neither the snapshot of the UI nor an occupied slot is ahead of
    [buildings]. *)
Definition staffed s : Prop :=
  forall key,
    getHasBuilding key (hasBuildings s) = true
    \/ isSome (getQueue key (productionQueues s)) = true ->
    manned key s = true.

(** The inputs a mouse handler of the view hands to the engine. *)
Definition isMouse (i : Input F) : bool :=
  match i with
  | MouseMove _ | LeftDown | LeftUp | RightClick => true
  | _ => false
  end.

(** How many buildings of type [t] the player has in [buildings]. *)
Definition census s (t : EntityType) : Z :=
  Z.of_nat (length (List.filter (holds s (isA t player)) (buildings s))).

End Further.

(** A sample within the range of the Web Audio API: [-1 <= x < 1]. *)
Definition normalised (x : float) : bool :=
  PrimFloat.leb (-1)%float x && PrimFloat.ltb x 1%float.

(** The mouse moves of a gesture, each with the rectangle of the canvas
    at the time. *)
Definition moves {F} (l : list (DOMRect F * MouseEvent F)) : list (Dom F) :=
  map (fun m => Mousemove m.1 m.2) l.

(** While the right button is held since the press on [v0]: the origin
    of the drag is the cursor and the camera of [v0]. *)
Definition dragging {F} (v0 v : View F) : Prop :=
  isPanning v = true
  /\ dragStartMouse v = mouse v0
  /\ dragStartCamera v = camera v0.

(** Where a pan that began on [v0] has the camera once the cursor is at
    [m]: the camera of [v0] displaced by as much as the cursor, each
    component computed as [handleMouseMove] does. *)
Definition panned {F} `{Num F} (v0 : View F) (m : Vector F) : Vector F :=
  Vector.mk
    (Vector.x (camera v0) + (Vector.x m - Vector.x (mouse v0)))%js
    (Vector.y (camera v0) + (Vector.y m - Vector.y (mouse v0)))%js.

(** Further scenarios. *)
Module Cases.

(** A refinery is chosen and the cursor is at (1200, 800): the state
    before the click of [Scenario.withRefinery]. *)
Definition siting : GameEngine float :=
  run Scenario.half [SetBuildMode REFINERY; Scenario.at_ 1200 800] Scenario.start.

(** The inputs of [Scenario.spent], from construction, and 124 ticks:
    the rifleman stands at 1984 of 2000. *)
Definition ordering : list (Input float) :=
  [ InstallCallbacks;
    SetBuildMode BARRACKS; Scenario.at_ 1200 800; LeftDown;
    SetBuildMode POWER_PLANT; Scenario.at_ 1200 1200; LeftDown;
    SetBuildMode POWER_PLANT; Scenario.at_ 1300 1200; LeftDown;
    SetBuildMode POWER_PLANT; Scenario.at_ 1400 1200; LeftDown;
    SetBuildMode POWER_PLANT; Scenario.at_ 1500 1200; LeftDown;
    SetBuildMode POWER_PLANT; Scenario.at_ 1600 1200; LeftDown;
    SetBuildMode POWER_PLANT; Scenario.at_ 1700 1200; LeftDown;
    QueueUnit INFANTRY barracks ]
  ++ repeat Tick 124.

(** The canvas fills the page from its corner. *)
Definition origin : DOMRect float :=
  {| DOMRect.left := 0%float; DOMRect.top := 0%float |}.

Definition cursor (x y : float) (button : Z) : MouseEvent float :=
  {| MouseEvent.clientX := x; MouseEvent.clientY := y;
     MouseEvent.button := button |}.

(** The view as mounted, the cursor brought to (300, 200). *)
Definition desk : View float :=
  handleMouseMove origin (cursor 300 200 0) (mount Scenario.half).

(** The cursor is dragged to (340, 230), then to (400, 260). *)
Definition drag : list (DOMRect float * MouseEvent float) :=
  [ (origin, cursor 340 230 0); (origin, cursor 400 260 0) ].

End Cases.

(** ** Verification *)

Section Invariants.

Context {F : Type} {N : Num F}.
Variable random : nat -> F.

Implicit Types (s : GameEngine F) (e : Entity F) (r u b : ref).

(** A loop preserves what its body preserves. *)
Lemma forEach_preserves {A} (P : GameEngine F -> Prop) (arr : list A) body s :
  (forall a s, P s -> P (body a s)) -> P s -> P (forEach arr body s).
Proof.
  intros Hbody. unfold forEach. revert s.
  induction arr as [|a arr IH]; intros s Hs; simpl; auto.
Qed.

Lemma projectileLoop_preserves (P : GameEngine F -> Prop) ps s :
  (forall p s, P s -> P (projectileStep p s).2) ->
  P s -> P (projectileLoop ps s).2.
Proof.
  intros Hstep Hs. induction ps as [|p ps IH]; simpl; auto.
  destruct (projectileLoop ps s) as [rest s1]; simpl in IH.
  specialize (Hstep p s1 IH).
  destruct (projectileStep p s1) as [[p'|] s2]; simpl in *; auto.
Qed.

Lemma Inv_modify r f s :
  Inv s ->
  (forall e, heap s !! r = Some e -> entity_ok e -> entity_ok (f e)) ->
  Inv (modify r f s).
Proof.
  intros [] Hf. split; simpl; auto.
  - apply Forall_alter; auto.
  - rewrite length_alter; auto.
  - rewrite length_alter; auto.
Qed.

Lemma fireRate_nonneg t c :
  TypeDefinition.fireRate (DEFINITIONS t) = Some c -> 0 <= c.
Proof. destruct t; simpl; intros [=]; lia. Qed.

Lemma damage_nonneg t : 0 <= orZ (TypeDefinition.damage (DEFINITIONS t)) 0.
Proof. destruct t; simpl; lia. Qed.

Lemma cost_nonneg t : 0 <= TypeDefinition.cost (DEFINITIONS t).
Proof. destruct t; simpl; lia. Qed.

Lemma newEntity_ok x y t tm id : entity_ok (newEntity x y t tm id).
Proof.
  unfold newEntity. destruct (snap x y t). split; simpl; try lia.
  - intros c [= <-]. lia.
  - reflexivity.
Qed.

Lemma Inv_createEntity x y t tm s :
  Inv s ->
  Inv (createEntity random x y t tm s).2 /\
  ((createEntity random x y t tm s).1 < length (heap (createEntity random x y t tm s).2))%nat /\
  (length (heap s) <= length (heap (createEntity random x y t tm s).2))%nat.
Proof.
  intros []. unfold createEntity, mathRandom, alloc. simpl.
  rewrite length_app. simpl. split; [|lia].
  split; simpl; auto.
  - apply Forall_app; split; [auto | apply Forall_singleton, newEntity_ok].
  - rewrite length_app. eapply Forall_impl; eauto. simpl. intros; lia.
  - rewrite length_app. eapply Forall_impl; eauto. simpl. intros; lia.
Qed.

(** [Inv] reads five fields only. *)
Lemma Inv_frame s s' :
  heap s' = heap s -> projectiles s' = projectiles s ->
  credits s' = credits s -> units s' = units s -> buildings s' = buildings s ->
  Inv s -> Inv s'.
Proof.
  intros Hh Hp Hc Hu Hb []. split; rewrite ?Hh, ?Hp, ?Hc, ?Hu, ?Hb; auto.
Qed.

Ltac frame := eapply Inv_frame; [..| eassumption]; reflexivity.

Lemma Inv_callMessage msg s : Inv s -> Inv (callMessage msg s).
Proof. intros H. unfold callMessage. destruct (onMessage s); auto. frame. Qed.

Lemma Inv_callUpdateUI s : Inv s -> Inv (callUpdateUI s).
Proof. intros H. unfold callUpdateUI. destruct (onUpdateUI s); auto. frame. Qed.

Lemma Inv_set_particles v s : Inv s -> Inv (set_particles v s).
Proof. intros H. frame. Qed.

Lemma Inv_fireProjectile src tgt dmg s :
  0 <= dmg -> Inv s -> Inv (fireProjectile src tgt dmg s).
Proof.
  intros Hd H. unfold fireProjectile. destruct (heap s !! src); auto.
  destruct H. split; simpl; auto.
  apply Forall_app; split; [auto | apply Forall_singleton; auto].
Qed.

(** Setters that keep an entity well formed. *)
Lemma ok_set_pos v e : entity_ok e -> entity_ok (Entity.set_pos v e).
Proof. intros []. split; auto. Qed.
Lemma ok_set_selected v e : entity_ok e -> entity_ok (Entity.set_selected v e).
Proof. intros []. split; auto. Qed.
Lemma ok_set_targetPos v e : entity_ok e -> entity_ok (Entity.set_targetPos v e).
Proof. intros []. split; auto. Qed.
Lemma ok_set_targetUnit v e : entity_ok e -> entity_ok (Entity.set_targetUnit v e).
Proof. intros []. split; auto. Qed.
Lemma ok_set_harvestState v e : entity_ok e -> entity_ok (Entity.set_harvestState v e).
Proof. intros []. split; auto. Qed.
Lemma ok_set_turretAngle v e : entity_ok e -> entity_ok (Entity.set_turretAngle v e).
Proof. intros []. split; auto. Qed.
Lemma ok_set_dead v e : entity_ok e -> entity_ok (Entity.set_dead v e).
Proof. intros []. split; auto. Qed.
Lemma ok_set_cooldown v e :
  (forall c, v = Some c -> 0 <= c) -> entity_ok e -> entity_ok (Entity.set_cooldown v e).
Proof. intros Hv []. split; auto. Qed.
Lemma ok_set_cargo v e :
  0 <= v <= 500 -> v mod 10 = 0 -> entity_ok e -> entity_ok (Entity.set_cargo v e).
Proof. intros Hv Hm []. split; auto. Qed.
Lemma ok_set_hp v e :
  v <= Entity.maxHp e -> entity_ok e -> entity_ok (Entity.set_hp v e).
Proof. intros Hv []. split; auto. Qed.

Create HintDb engine.

Hint Resolve ok_set_pos ok_set_selected ok_set_targetPos ok_set_targetUnit
  ok_set_harvestState ok_set_turretAngle ok_set_dead : engine.
Hint Resolve Inv_callMessage Inv_callUpdateUI Inv_set_particles : engine.

(** A field write that needs nothing of the value written. *)
Lemma Inv_modify_any r f s :
  (forall e, entity_ok e -> entity_ok (f e)) -> Inv s -> Inv (modify r f s).
Proof. intros Hf H. apply Inv_modify; auto. Qed.

Ltac keep :=
  repeat first
    [ assumption
    | apply Inv_callMessage
    | apply Inv_callUpdateUI
    | apply Inv_set_particles
    | apply Inv_modify_any; [solve [auto with engine] |] ].

Lemma pred_cooldown_ok (c : option Z) c' :
  gt0 c = true -> Z.pred <$> c = Some c' -> 0 <= c'.
Proof.
  destruct c as [c|]; simpl; [|discriminate].
  intros Hc [= <-]. apply Z.ltb_lt in Hc. lia.
Qed.

Lemma Inv_updateHarvester u s : Inv s -> Inv (updateHarvester u s).
Proof.
  intros H. unfold updateHarvester.
  destruct (heap s !! u) as [e|] eqn:He; [|assumption].
  assert (Hok : entity_ok e) by (eapply Forall_lookup_1; [apply H | eassumption]).
  simpl orZ.
  destruct (500 <=? Entity.cargo e) eqn:Hcap.
  - match goal with |- context [findEntity ?a ?b ?c] => destruct (findEntity a b c) as [rf|] end;
      [|keep].
    match goal with |- context [heap ?a !! rf] => destruct (heap a !! rf) as [rfe|] end;
      [|keep].
    match goal with |- context [if ?c then _ else _] => destruct c end; [|keep].
    apply Inv_callUpdateUI. apply Inv_modify_any; [auto with engine|].
    apply Inv_modify_any.
    { intros e'. apply ok_set_cargo; [lia | reflexivity]. }
    apply Inv_callMessage.
    assert (Inv (modify u (Entity.set_targetPos (Some (Entity.pos rfe)))
                  (modify u (Entity.set_harvestState returning) s))) as [] by keep.
    destruct Hok as [Hcd Hhp Hcg Hc10]. split; simpl in *; auto. lia.
  - destruct (bool_decide (Entity.harvestState e = idle)
              || bool_decide (Entity.harvestState e = moving_to_ore)).
    + destruct (orePatches s) as [|ore ?]; [assumption|].
      match goal with |- context [if ?c then _ else _] => destruct c end; keep.
    + destruct (bool_decide (Entity.harvestState e = harvesting)); [|assumption].
      destruct (tick s mod 10 =? 0); [|assumption].
      apply Z.leb_gt in Hcap. destruct Hok as [Hcd Hhp Hcg Hc10].
      assert (Inv (modify u (Entity.set_cargo (Entity.cargo e + 10)) s)).
      { apply Inv_modify_any; [|assumption]. intros e'. apply ok_set_cargo.
        - pose proof (Z.div_mod (Entity.cargo e) 10). lia.
        - rewrite <- Zplus_mod_idemp_l. rewrite Hc10. reflexivity. }
      match goal with |- context [if ?c then _ else _] => destruct c end; keep.
Qed.

Ltac case_if :=
  match goal with
  | |- context [if ?c then _ else _] => destruct c eqn:?
  end.

Ltac case_lookup :=
  match goal with
  | |- context [heap ?s !! ?r] => destruct (heap s !! r) eqn:?
  end.

Ltac case_find :=
  match goal with
  | |- context [findEntity ?s ?l ?p] => destruct (findEntity s l p) eqn:?
  | |- context [getNearestEnemy ?p ?r ?s] => destruct (getNearestEnemy p r s) eqn:?
  end.

Lemma Inv_push_unit x y t tm s :
  Inv s ->
  Inv (set_units (units (createEntity random x y t tm s).2
                  ++ [(createEntity random x y t tm s).1])
         (createEntity random x y t tm s).2).
Proof.
  intros H. destruct (Inv_createEntity x y t tm s H) as ([] & Hlt & _).
  split; simpl; auto. apply Forall_app; split; auto.
Qed.

Lemma Inv_productionStep key s : Inv s -> Inv (productionStep random key s).
Proof.
  intros H. unfold productionStep.
  destruct (getQueue key (productionQueues s)) as [q|]; [|assumption].
  match goal with |- context [set_productionQueues ?v s] =>
    assert (H1 : Inv (set_productionQueues v s)) by frame;
    generalize dependent (set_productionQueues v s) end.
  intros s1 H1. case_if; [|case_if; keep].
  apply Inv_callUpdateUI.
  match goal with |- Inv (set_productionQueues _ ?s2) =>
    cut (Inv s2); [intros; frame|] end.
  case_find; [|assumption]. case_lookup; [|assumption].
  match goal with |- context [createEntity random ?x ?y ?t ?tm s1] =>
    pose proof (Inv_push_unit x y t tm s1 H1);
    destruct (createEntity random x y t tm s1) end.
  keep.
Qed.

Lemma Inv_production s : Inv s -> Inv (production random s).
Proof.
  intros H. unfold production. case_if; [|assumption].
  apply forEach_preserves; auto using Inv_productionStep.
Qed.

Lemma Inv_cannonStep b s : Inv s -> Inv (cannonStep b s).
Proof.
  intros H. unfold cannonStep. case_lookup; [|assumption].
  repeat (case_if; try assumption).
  - apply Inv_modify_any; [|assumption].
    intros e'. apply ok_set_cooldown. intros c. eapply pred_cooldown_ok; eauto.
  - case_find; [|assumption]. case_lookup; [|assumption].
    apply Inv_modify_any.
    { intros e'. apply ok_set_cooldown. simpl. intros c [= <-]. lia. }
    apply Inv_fireProjectile; [simpl; lia|]. keep.
Qed.

Lemma Inv_harvesterLogic u s : Inv s -> Inv (harvesterLogic u s).
Proof.
  intros H. unfold harvesterLogic. case_if; auto using Inv_updateHarvester.
Qed.

Lemma Inv_aiLogic u s : Inv s -> Inv (aiLogic u s).
Proof.
  intros H. unfold aiLogic. case_lookup; [|assumption].
  case_if; [|assumption]. case_find; keep.
Qed.

Lemma Inv_autoTarget u s : Inv s -> Inv (autoTarget u s).
Proof.
  intros H. unfold autoTarget. case_lookup; [|assumption].
  case_if; [|assumption]. case_find; keep.
Qed.

Lemma Inv_attack u s : Inv s -> Inv (attack u s).2.
Proof.
  intros H. unfold attack. case_lookup; [|assumption].
  destruct (Entity.targetUnit _) as [tgt|]; [|assumption].
  case_lookup; [|assumption].
  repeat (case_if; simpl; try assumption); keep.
  apply Inv_modify_any.
  { intros e'. apply ok_set_cooldown. apply fireRate_nonneg. }
  apply Inv_fireProjectile; [apply damage_nonneg|]. keep.
Qed.

Lemma Inv_coolDown u s : Inv s -> Inv (coolDown u s).
Proof.
  intros H. unfold coolDown. case_lookup; [|assumption].
  case_if; [|assumption]. apply Inv_modify_any; [|assumption].
  intros e'. apply ok_set_cooldown. intros c. eapply pred_cooldown_ok; eauto.
Qed.

Lemma Inv_move u mt s : Inv s -> Inv (move u mt s).
Proof.
  intros H. unfold move. case_lookup; [|assumption].
  destruct mt as [mt|]; [|assumption].
  case_if.
  - destruct (repulsion _ _ _). keep.
  - case_if; keep.
Qed.

Lemma Inv_unitStep u s : Inv s -> Inv (unitStep u s).
Proof.
  intros H. unfold unitStep.
  pose proof (Inv_attack u _ (Inv_autoTarget u _ (Inv_aiLogic u _ (Inv_harvesterLogic u s H)))) as Ha.
  destruct (attack u _) as [mt s1]. simpl in Ha.
  apply Inv_move, Inv_coolDown, Ha.
Qed.

Lemma Inv_projectileStep p s :
  0 <= Projectile.damage p -> Inv s -> Inv (projectileStep p s).2.
Proof.
  intros Hd H. unfold projectileStep.
  destruct (heap s !! Projectile.target p) as [te|] eqn:Hte; [|assumption].
  case_if; [|assumption]. simpl.
  apply Inv_set_particles.
  assert (Inv (modify (Projectile.target p)
                 (Entity.set_hp (Entity.hp te - Projectile.damage p)) s)).
  { apply Inv_modify; [assumption|]. intros e' He' Hok.
    rewrite Hte in He'. injection He' as <-.
    apply ok_set_hp; [|assumption]. destruct Hok. lia. }
  case_if; keep.
Qed.

Lemma projectileStep_damage p s p' :
  (projectileStep p s).1 = Some p' -> Projectile.damage p' = Projectile.damage p.
Proof.
  unfold projectileStep. case_lookup; [|intros [= <-]; reflexivity].
  case_if; simpl; [discriminate|]. intros [= <-]. reflexivity.
Qed.

Lemma Inv_projectileLoop ps s :
  Forall (fun p => 0 <= Projectile.damage p) ps -> Inv s ->
  Inv (projectileLoop ps s).2 /\
  Forall (fun p => 0 <= Projectile.damage p) (projectileLoop ps s).1.
Proof.
  intros Hps H. induction Hps as [|p ps Hp Hps IH]; simpl; [auto|].
  destruct (projectileLoop ps s) as [rest s1]. destruct IH as [IH1 IH2].
  pose proof (Inv_projectileStep p s1 Hp IH1) as H1.
  pose proof (projectileStep_damage p s1) as H2.
  destruct (projectileStep p s1) as [[p'|] s2]; simpl in *; split; auto.
  constructor; auto. rewrite (H2 p' eq_refl). assumption.
Qed.

Lemma Inv_resolveProjectiles s : Inv s -> Inv (resolveProjectiles s).
Proof.
  intros H. unfold resolveProjectiles.
  destruct (Inv_projectileLoop (projectiles s) s) as [H1 H2];
    [apply H | assumption |].
  destruct (projectileLoop (projectiles s) s) as [ps s1]. simpl in *.
  destruct H1. split; auto.
Qed.

Lemma Forall_filter_bool {A} (P : A -> Prop) (f : A -> bool) l :
  Forall P l -> Forall P (List.filter f l).
Proof.
  induction 1 as [|a l Ha Hl IH]; simpl; [constructor|].
  destruct (f a); auto.
Qed.

Lemma Inv_cleanup s : Inv s -> Inv (cleanup s).
Proof.
  intros []. unfold cleanup. split; simpl; auto using Forall_filter_bool.
Qed.

Lemma Inv_spawnWaveUnit i s : Inv s -> Inv (spawnWaveUnit random i s).
Proof.
  intros H. unfold spawnWaveUnit, mathRandom. cbv beta iota zeta.
  match goal with |- context [createEntity random ?x ?y ?t ?tm ?s1] =>
    assert (H1 : Inv s1) by frame;
    pose proof (Inv_push_unit x y t tm s1 H1);
    destruct (createEntity random x y t tm s1) end.
  assumption.
Qed.

Lemma Inv_waveLogic s : Inv s -> Inv (waveLogic random s).
Proof.
  intros H. unfold waveLogic. case_if; [|assumption].
  apply Inv_callUpdateUI.
  match goal with |- Inv (set_wave _ ?s2) => cut (Inv s2); [intros; frame|] end.
  apply forEach_preserves; [intros; apply Inv_spawnWaveUnit; assumption|]. keep.
Qed.

Lemma Inv_winLoss s : Inv s -> Inv (winLoss s).
Proof.
  intros H. unfold winLoss. case_find; [assumption|]. case_if; [frame|assumption].
Qed.

Lemma Inv_update s : Inv s -> Inv (update random s).
Proof.
  intros H. unfold update.
  apply Inv_winLoss, Inv_waveLogic, Inv_cleanup, Inv_resolveProjectiles.
  apply forEach_preserves; [intros; apply Inv_unitStep; assumption|].
  apply forEach_preserves; [intros; apply Inv_cannonStep; assumption|].
  apply Inv_production. frame.
Qed.

Lemma Inv_calculatePower s : Inv s -> Inv (calculatePower s).
Proof.
  intros H. unfold calculatePower. destruct (fold_left _ _ _).
  apply Inv_callUpdateUI. frame.
Qed.

Lemma Inv_commandUnit target u s : Inv s -> Inv (commandUnit target u s).
Proof.
  intros H. unfold commandUnit. case_lookup; [|assumption]. case_if; [|assumption].
  apply Inv_set_particles. destruct target; [keep|]. case_if; keep.
Qed.

Lemma Inv_issueCommand s : Inv s -> Inv (issueCommand s).
Proof.
  intros H. unfold issueCommand.
  apply forEach_preserves; [|apply Inv_callUpdateUI; frame].
  intros; apply Inv_commandUnit; assumption.
Qed.

Lemma Inv_selectUnits s : Inv s -> Inv (selectUnits s).
Proof.
  intros H. unfold selectUnits. apply Inv_callUpdateUI.
  apply forEach_preserves; [|assumption].
  clear H. intros u s' H. case_lookup; [|assumption].
  repeat (case_if; try assumption); keep.
Qed.

Lemma Inv_tryPlaceBuilding s : Inv s -> Inv (tryPlaceBuilding random s).
Proof.
  intros H. unfold tryPlaceBuilding.
  destruct (buildMode s) as [mode|]; [|assumption].
  case_if; [assumption|]. unfold checkRect. cbv beta iota zeta. case_if; [|keep].
  match goal with |- context [createEntity random ?x ?y ?t ?tm ?s1] =>
    assert (H1 : Inv s1);
    [| destruct (Inv_createEntity x y t tm s1 H1) as (H2 & Hlt & _);
       destruct (createEntity random x y t tm s1) as [b s2] ]
  end.
  { destruct H. split; simpl; auto.
    match goal with Hc : (_ <? _) = false |- _ => apply Z.ltb_ge in Hc end. lia. }
  simpl in H2, Hlt.
  assert (H3 : Inv (set_buildings (buildings s2 ++ [b]) s2)).
  { destruct H2. split; simpl; auto. apply Forall_app; split; auto. }
  apply Inv_callUpdateUI, Inv_calculatePower.
  match goal with |- Inv (set_buildMode _ ?s3) => cut (Inv s3); [intros; frame|] end.
  case_if; [|assumption]. case_lookup; [|assumption].
  match goal with |- context [createEntity random ?x ?y ?t ?tm ?s1] =>
    pose proof (Inv_push_unit x y t tm s1 H3);
    destruct (createEntity random x y t tm s1) end.
  assumption.
Qed.

Lemma Inv_queueUnit t key s : Inv s -> Inv (queueUnit t key s).
Proof.
  intros H. unfold queueUnit. repeat (case_if; [keep|]).
  match goal with Hc : (_ <? _) = false |- _ => apply Z.ltb_ge in Hc end.
  destruct H. split; simpl; auto. lia.
Qed.

Lemma Inv_step i s : Inv s -> Inv (step random i s).
Proof.
  intros H. destruct i; simpl.
  - apply Inv_update, H.
  - frame.
  - frame.
  - unfold handleMouseDownLeft. case_if; [apply Inv_tryPlaceBuilding, H | frame].
  - unfold handleMouseUpLeft. case_if; [|assumption]. apply Inv_selectUnits. frame.
  - apply Inv_issueCommand, H.
  - frame.
  - apply Inv_queueUnit, H.
Qed.

Lemma Inv_blank : Inv blank.
Proof. split; simpl; auto. lia. Qed.

Lemma Inv_initLevel s : Inv s -> Inv (initLevel random s).
Proof.
  intros H. unfold initLevel.
  match goal with |- context [createEntity random ?x ?y ?t ?tm s] =>
    destruct (Inv_createEntity x y t tm s H) as (H2 & Hlt & _);
    destruct (createEntity random x y t tm s) as [hq s2] end.
  simpl in H2, Hlt. apply Inv_calculatePower. apply forEach_preserves.
  - intros _ s' H'. unfold mathRandom. cbv beta iota zeta. frame.
  - destruct H2. split; simpl; auto. apply Forall_app; split; auto.
Qed.

Lemma Inv_construct : Inv (construct random).
Proof. apply Inv_update, Inv_initLevel, Inv_blank. Qed.

Lemma Inv_run inputs s : Inv s -> Inv (run random inputs s).
Proof.
  unfold run. revert s. induction inputs as [|i inputs IH]; intros s H; simpl; auto.
  apply IH, Inv_step, H.
Qed.

Lemma Inv_reachable s : reachable random s -> Inv s.
Proof. induction 1; auto using Inv_construct, Inv_step. Qed.

End Invariants.

(** ** Spawning ([createEntity]) *)

Section Spawn.

Context {F : Type} {N : Num F}.
Variable random : nat -> F.

(** No member of [EntityType] names a property of the five-element
    array, so the guard of the snapping branch is never true. *)
Lemma building_guard_false (type : EntityType) :
  inArray (EntityType_value type)
    (map EntityType_value
       [CONSTRUCTION_YARD; POWER_PLANT; REFINERY; BARRACKS; FACTORY]) = false.
Proof. destruct type; vm_compute; reflexivity. Qed.

Lemma snap_id (x y : F) type : snap x y type = (x, y).
Proof. unfold snap. rewrite building_guard_false. reflexivity. Qed.

(** [createEntity] returns a fresh object that sits at the coordinates
    it was given, whatever the type. *)
Lemma createEntity_position (x y : F) type team (s : GameEngine F) :
  exists e,
    heap (createEntity random x y type team s).2
      !! (createEntity random x y type team s).1 = Some e
    /\ Entity.pos e = Vector.mk x y
    /\ Entity.type e = type.
Proof.
  unfold createEntity, mathRandom, alloc, newEntity. rewrite snap_id. simpl.
  eexists. split.
  - rewrite lookup_app_r by reflexivity.
    rewrite Nat.sub_diag. reflexivity.
  - split; reflexivity.
Qed.

End Spawn.

(** ** Frame facts: what the steps of a tick leave alone *)

Section Frames.

Context {F : Type} {N : Num F}.
Variable random : nat -> F.

Implicit Types (s : GameEngine F) (e : Entity F) (r u b : ref).

Lemma lookup_modify_eq r f s : heap (modify r f s) !! r = f <$> heap s !! r.
Proof. apply list_lookup_alter_eq. Qed.

Lemma lookup_modify_some r f s e :
  heap s !! r = Some e -> heap (modify r f s) !! r = Some (f e).
Proof. intros H. rewrite lookup_modify_eq, H. reflexivity. Qed.

Lemma lookup_modify_ne r r' f s : r <> r' -> heap (modify r f s) !! r' = heap s !! r'.
Proof. intros. simpl. apply list_lookup_alter_ne. assumption. Qed.

Lemma holds_modify (p : Entity F -> bool) r r' f s :
  (forall e, p (f e) = p e) -> holds (modify r f s) p r' = holds s p r'.
Proof.
  intros Hf. unfold holds.
  destruct (decide (r = r')) as [->|Hne].
  - rewrite lookup_modify_eq. destruct (heap s !! r'); simpl; auto.
  - rewrite lookup_modify_ne by assumption. reflexivity.
Qed.

Lemma findEntity_holds s l (p : Entity F -> bool) r :
  findEntity s l p = Some r -> holds s p r = true.
Proof. unfold findEntity. intros H. apply List.find_some in H. apply H. Qed.

Lemma heap_callMessage msg s : heap (callMessage msg s) = heap s.
Proof. unfold callMessage. destruct (onMessage s); reflexivity. Qed.

Lemma heap_callUpdateUI s : heap (callUpdateUI s) = heap s.
Proof. unfold callUpdateUI. destruct (onUpdateUI s); reflexivity. Qed.

Lemma credits_callMessage msg s : credits (callMessage msg s) = credits s.
Proof. unfold callMessage. destruct (onMessage s); reflexivity. Qed.

Lemma credits_callUpdateUI s : credits (callUpdateUI s) = credits s.
Proof. unfold callUpdateUI. destruct (onUpdateUI s); reflexivity. Qed.

(** The power balance is read by production and by cannons only: setting
    it commutes with everything a unit does. *)
Lemma callMessage_power p msg s :
  callMessage msg (set_power p s) = set_power p (callMessage msg s).
Proof. unfold callMessage. simpl. destruct (onMessage s); reflexivity. Qed.

Lemma callUpdateUI_power p s :
  callUpdateUI (set_power p s) = set_power p (callUpdateUI s).
Proof. unfold callUpdateUI. simpl. destruct (onUpdateUI s); reflexivity. Qed.

Lemma modify_power p r f s :
  modify r f (set_power p s) = set_power p (modify r f s).
Proof. reflexivity. Qed.

Lemma set_credits_power p c s :
  set_credits c (set_power p s) = set_power p (set_credits c s).
Proof. reflexivity. Qed.

Lemma set_particles_power p v s :
  set_particles v (set_power p s) = set_power p (set_particles v s).
Proof. reflexivity. Qed.

Lemma fireProjectile_power p src tgt dmg s :
  fireProjectile src tgt dmg (set_power p s)
  = set_power p (fireProjectile src tgt dmg s).
Proof. unfold fireProjectile. simpl. destruct (heap s !! src); reflexivity. Qed.

Create Rewrite HintDb power.

Hint Rewrite modify_power set_credits_power set_particles_power
  callMessage_power callUpdateUI_power fireProjectile_power : power.

Ltac split_cases :=
  repeat match goal with
    | |- context [match ?x with _ => _ end] =>
        match x with
        | context [set_power] => fail 1
        | _ => destruct x eqn:?
        end
    end.

Ltac commute := split_cases; autorewrite with power; reflexivity.

Lemma updateHarvester_power p u s :
  updateHarvester u (set_power p s) = set_power p (updateHarvester u s).
Proof.
  unfold updateHarvester, findEntity, holds.
  cbn [heap set_power tick orePatches buildings credits particles modify
       set_heap set_credits set_particles].
  commute.
Qed.

Lemma harvesterLogic_power p u s :
  harvesterLogic u (set_power p s) = set_power p (harvesterLogic u s).
Proof.
  unfold harvesterLogic, holds. cbn [heap set_power].
  split_cases; auto using updateHarvester_power.
Qed.

Lemma aiLogic_power p u s :
  aiLogic u (set_power p s) = set_power p (aiLogic u s).
Proof.
  unfold aiLogic, findEntity, holds. cbn [heap set_power buildings]. commute.
Qed.

Lemma autoTarget_power p u s :
  autoTarget u (set_power p s) = set_power p (autoTarget u s).
Proof.
  unfold autoTarget.
  change (getNearestEnemy ?a ?b (set_power p s)) with (getNearestEnemy a b s).
  cbn [heap set_power]. commute.
Qed.

Lemma attack_power p u s :
  attack u (set_power p s) = ((attack u s).1, set_power p (attack u s).2).
Proof.
  unfold attack. cbn [heap set_power]. split_cases; simpl;
    autorewrite with power; reflexivity.
Qed.

Lemma coolDown_power p u s :
  coolDown u (set_power p s) = set_power p (coolDown u s).
Proof. unfold coolDown. cbn [heap set_power]. commute. Qed.

Lemma move_power p u mt s :
  move u mt (set_power p s) = set_power p (move u mt s).
Proof.
  unfold move.
  change (repulsion ?a ?b (set_power p s)) with (repulsion a b s).
  cbn [heap set_power]. commute.
Qed.

Lemma unitStep_power p u s :
  unitStep u (set_power p s) = set_power p (unitStep u s).
Proof.
  unfold unitStep.
  rewrite harvesterLogic_power, aiLogic_power, autoTarget_power, attack_power.
  destruct (attack u _) as [mt s1]. simpl.
  rewrite coolDown_power, move_power. reflexivity.
Qed.

Lemma unitLoop_power p l s :
  forEach l unitStep (set_power p s) = set_power p (forEach l unitStep s).
Proof.
  unfold forEach. revert s. induction l as [|u l IH]; intros s; simpl; [reflexivity|].
  rewrite unitStep_power. apply IH.
Qed.

End Frames.

(** ** Footprint of the phases of a tick

    A property that only reads [heap], [buildings], [log], [credits],
    [productionQueues] and [onGameOver], and that survives the ways the
    phases touch these fields (a field write on an entity that keeps its
    type and team, a text notification, a fresh object, the sweep of
    [buildings]), survives phases 2 to 6 but for the deposit of a
    harvester; if it survives a deposit, it survives the unit phase, and if
    it survives a write to [productionQueues], production. *)

Section Footprint.

Context {F : Type} {N : Num F}.
Variable random : nat -> F.

Implicit Types (s : GameEngine F) (e : Entity F) (r u b : ref).

Variable P : GameEngine F -> Prop.

Hypothesis P_frame : forall s s',
  heap s' = heap s -> buildings s' = buildings s -> log s' = log s ->
  credits s' = credits s ->
  productionQueues s' = productionQueues s -> onGameOver s' = onGameOver s ->
  P s -> P s'.
Hypothesis P_modify : forall r f s,
  (forall e, kind (f e) = kind e) -> P s -> P (modify r f s).
Hypothesis P_message : forall msg s, P s -> P (set_log (log s ++ [Message msg]) s).
Hypothesis P_alloc : forall e s, P s -> P (set_heap (heap s ++ [e]) s).
Hypothesis P_sweep : forall f s,
  P s -> P (set_buildings (List.filter f (buildings s)) s).

Ltac frame := eapply P_frame; [..| eassumption]; reflexivity.

Lemma P_callMessage msg s : P s -> P (callMessage msg s).
Proof. intros H. unfold callMessage. destruct (onMessage s); auto. Qed.

Lemma P_callUpdateUI s : P s -> P (callUpdateUI s).
Proof. intros H. unfold callUpdateUI. destruct (onUpdateUI s); auto. frame. Qed.

Lemma P_set_particles v s : P s -> P (set_particles v s).
Proof. intros H. frame. Qed.

Lemma P_fireProjectile src tgt dmg s : P s -> P (fireProjectile src tgt dmg s).
Proof. intros H. unfold fireProjectile. destruct (heap s !! src); auto. frame. Qed.

Lemma P_write r f s :
  (forall e, kind (f e) = kind e) -> P s -> P (modify r f s).
Proof. apply P_modify. Qed.

Ltac keep :=
  repeat first
    [ assumption
    | apply P_callMessage
    | apply P_callUpdateUI
    | apply P_set_particles
    | apply P_fireProjectile
    | apply P_write; [intros ?; reflexivity |] ].

Ltac cases :=
  repeat match goal with
    | |- P (match ?x with _ => _ end) => destruct x eqn:?
    | |- P (snd (match ?x with _ => _ end)) => destruct x eqn:?
    | |- P (match ?x with _ => _ end).2 => destruct x eqn:?
    end.

Lemma P_cannonStep b s : P s -> P (cannonStep b s).
Proof. intros H. unfold cannonStep. cases; keep. Qed.

Lemma P_aiLogic u s : P s -> P (aiLogic u s).
Proof. intros H. unfold aiLogic. cases; keep. Qed.

Lemma P_autoTarget u s : P s -> P (autoTarget u s).
Proof. intros H. unfold autoTarget. cases; keep. Qed.

Lemma P_attack u s : P s -> P (attack u s).2.
Proof. intros H. unfold attack. cases; simpl; keep. Qed.

Lemma P_coolDown u s : P s -> P (coolDown u s).
Proof. intros H. unfold coolDown. cases; keep. Qed.

Lemma P_move u mt s : P s -> P (move u mt s).
Proof. intros H. unfold move. cases; keep. Qed.

(** What [unitStep] does after the harvester logic. *)
Lemma P_afterHarvest u s :
  P s -> P (move u (attack u (autoTarget u (aiLogic u s))).1
              (coolDown u (attack u (autoTarget u (aiLogic u s))).2)).
Proof. intros H. apply P_move, P_coolDown, P_attack, P_autoTarget, P_aiLogic, H. Qed.

Lemma P_projectileStep p s : P s -> P (projectileStep p s).2.
Proof.
  intros H. unfold projectileStep. cases; simpl; [|assumption..].
  apply P_set_particles.
  match goal with |- context [if ?c then _ else _] => destruct c end; keep.
Qed.

Lemma P_resolveProjectiles s : P s -> P (resolveProjectiles s).
Proof.
  intros H. unfold resolveProjectiles.
  pose proof (projectileLoop_preserves P (projectiles s) s P_projectileStep H) as H1.
  destruct (projectileLoop (projectiles s) s) as [ps s1]. simpl in H1. frame.
Qed.

Lemma P_cleanup s : P s -> P (cleanup s).
Proof.
  intros H. unfold cleanup.
  apply P_set_particles, P_set_particles.
  apply (P_sweep (holds (set_units (List.filter (holds s alive) (units s)) s) alive)
           (set_units (List.filter (holds s alive) (units s)) s)).
  frame.
Qed.

Lemma P_createEntity x y t tm s : P s -> P (createEntity random x y t tm s).2.
Proof.
  intros H. unfold createEntity, mathRandom, alloc. simpl.
  apply (P_alloc _ (set_rng (S (rng s)) s)). frame.
Qed.

Lemma P_spawnWaveUnit i s : P s -> P (spawnWaveUnit random i s).
Proof.
  intros H. unfold spawnWaveUnit, mathRandom. cbv beta iota zeta.
  match goal with |- context [createEntity random ?x ?y ?t ?tm ?s1] =>
    assert (H1 : P s1) by frame;
    pose proof (P_createEntity x y t tm s1 H1);
    destruct (createEntity random x y t tm s1) end.
  simpl in *. frame.
Qed.

Lemma P_waveLogic s : P s -> P (waveLogic random s).
Proof.
  intros H. unfold waveLogic. cases; [|assumption].
  apply P_callUpdateUI.
  match goal with |- P (set_wave _ ?s2) => cut (P s2); [intros; frame|] end.
  apply forEach_preserves; [intros; apply P_spawnWaveUnit; assumption|]. keep.
Qed.

Hypothesis P_queue : forall q s, P s -> P (set_productionQueues q s).

Lemma P_productionStep key s : P s -> P (productionStep random key s).
Proof.
  intros H. unfold productionStep.
  destruct (getQueue key (productionQueues s)) as [q|]; [|assumption].
  match goal with |- context [set_productionQueues ?v s] =>
    assert (H1 : P (set_productionQueues v s)) by (apply P_queue; assumption);
    generalize dependent (set_productionQueues v s) end.
  intros s1 H1. destruct (_ <=? _).
  - apply P_callUpdateUI, P_queue.
    destruct (findEntity _ _ _); [|assumption].
    destruct (heap s1 !! _); [|assumption].
    match goal with |- context [createEntity random ?x ?y ?t ?tm s1] =>
      pose proof (P_createEntity x y t tm s1 H1) as H2;
      destruct (createEntity random x y t tm s1) end.
    simpl in H2. apply P_callMessage. frame.
  - cases; keep.
Qed.

Lemma P_production s : P s -> P (production random s).
Proof.
  intros H. unfold production. destruct (0 <=? power s); [|assumption].
  apply forEach_preserves; auto using P_productionStep.
Qed.

Hypothesis P_deposit : forall c s, P s -> P (set_credits (credits s + c) s).

Lemma P_updateHarvester u s : P s -> P (updateHarvester u s).
Proof.
  intros H. unfold updateHarvester. cases; keep.
  apply (P_deposit _ (modify u _ (modify u _ s))). keep.
Qed.

Lemma P_unitStep u s : P s -> P (unitStep u s).
Proof.
  intros H.
  assert (H1 : P (harvesterLogic u s)).
  { unfold harvesterLogic. cases; auto using P_updateHarvester. }
  apply (P_afterHarvest u) in H1. unfold unitStep.
  destruct (attack u _) as [mt s1]. exact H1.
Qed.

Lemma P_afterProduction s : P s -> P (afterProduction random s).
Proof.
  intros H. unfold afterProduction.
  apply P_waveLogic, P_cleanup, P_resolveProjectiles.
  apply forEach_preserves; [intros; apply P_unitStep; assumption|].
  apply forEach_preserves; [intros; apply P_cannonStep; assumption|].
  assumption.
Qed.

(** Phases 1 to 6. *)
Lemma P_beforeWinLoss s :
  P s -> P (afterProduction random (production random (set_tick (tick s + 1) s))).
Proof. intros H. apply P_afterProduction, P_production. frame. Qed.

End Footprint.

(** ** The properties of the specification *)

Lemma gameOvers_message l msg : gameOvers (l ++ [Message msg]) = gameOvers l.
Proof.
  unfold gameOvers. rewrite List.filter_app, length_app. simpl. lia.
Qed.

Lemma gameOvers_signal l : gameOvers (l ++ [GameOver]) = S (gameOvers l).
Proof.
  unfold gameOvers. rewrite List.filter_app, length_app. simpl. lia.
Qed.

Section Claims.

Context {F : Type} {N : Num F}.
Variable random : nat -> F.

Implicit Types (s : GameEngine F) (e : Entity F) (r u b : ref).

Lemma update_phases s :
  update random s
  = winLoss (afterProduction random (production random (set_tick (tick s + 1) s))).
Proof. unfold update, afterProduction. reflexivity. Qed.

(** *** Phases 2 to 7 leave the production queues alone *)

Lemma queues_afterProduction s :
  productionQueues (afterProduction random s) = productionQueues s.
Proof.
  apply (P_afterProduction random (fun s' => productionQueues s' = productionQueues s));
    try reflexivity.
  - intros s1 s2 _ _ _ _ Hq _ H. congruence.
  - intros r f s1 _ H. exact H.
  - intros msg s1 H. exact H.
  - intros e s1 H. exact H.
  - intros f s1 H. exact H.
  - intros c s1 H. exact H.
Qed.

Lemma queues_winLoss s : productionQueues (winLoss s) = productionQueues s.
Proof.
  unfold winLoss. destruct (findEntity _ _ _); [reflexivity|].
  destruct (onGameOver s); reflexivity.
Qed.

(** *** Phases 1 to 6 never raise the terminal signal *)

Lemma quiet_beforeWinLoss s :
  let s' := afterProduction random (production random (set_tick (tick s + 1) s)) in
  onGameOver s' = onGameOver s /\ gameOvers (log s') = gameOvers (log s).
Proof.
  apply (P_beforeWinLoss random
           (fun s' => onGameOver s' = onGameOver s
                      /\ gameOvers (log s') = gameOvers (log s))); auto.
  - intros s1 s2 _ _ Hl _ _ Hg H. rewrite Hl, Hg. exact H.
  - intros msg s1 [H1 H2]. simpl. rewrite gameOvers_message. auto.
Qed.

(** *** Entities keep their type and team; [buildings] only shrinks *)

Lemma fmap_kind (f : Entity F -> Entity F) (o : option (Entity F)) :
  (forall e, kind (f e) = kind e) -> kind <$> (f <$> o) = kind <$> o.
Proof. intros Hf. destruct o; simpl; [f_equal; apply Hf | reflexivity]. Qed.

Lemma grows_beforeWinLoss s :
  grows s (afterProduction random (production random (set_tick (tick s + 1) s))).
Proof.
  apply (P_beforeWinLoss random (grows s)).
  - intros s1 s2 Hh Hb _ _ _ _ H. unfold grows. rewrite Hh, Hb. exact H.
  - intros r f s1 Hf (Hlen & Hk & Hb). split; [|split]; simpl; auto.
    + rewrite length_alter. exact Hlen.
    + intros r' Hr'. rewrite <- (Hk r' Hr').
      destruct (decide (r = r')) as [->|Hne].
      * rewrite list_lookup_alter_eq. apply fmap_kind, Hf.
      * rewrite list_lookup_alter_ne by assumption. reflexivity.
  - intros msg s1 H. exact H.
  - intros e s1 (Hlen & Hk & Hb). split; [|split]; simpl; auto.
    + rewrite length_app. lia.
    + intros r' Hr'. rewrite <- (Hk r' Hr'). rewrite lookup_app_l by lia. reflexivity.
  - intros f s1 (Hlen & Hk & Hb). split; [|split]; simpl; auto.
    intros b Hin. apply List.filter_In in Hin. apply Hb, Hin.
  - intros c s1 H. exact H.
  - intros q s1 H. exact H.
  - split; [|split]; auto.
Qed.

Lemma yard_false s :
  yard s = false <->
  forall b, In b (buildings s) -> holds s (isA CONSTRUCTION_YARD player) b = false.
Proof.
  unfold yard, findEntity. split.
  - intros H b Hb. destruct (List.find _ _) eqn:Hf; [discriminate|].
    eapply List.find_none; eauto.
  - intros H. destruct (List.find _ _) as [b|] eqn:Hf; [|reflexivity].
    apply List.find_some in Hf. destruct Hf as [Hin Hb].
    rewrite (H b Hin) in Hb. discriminate.
Qed.

Lemma holds_kind s0 s' p r :
  (forall e e', kind e = kind e' -> p e = p e') ->
  kind <$> heap s' !! r = kind <$> heap s0 !! r ->
  holds s' p r = holds s0 p r.
Proof.
  intros Hp Hk. unfold holds.
  destruct (heap s' !! r) as [e'|], (heap s0 !! r) as [e|]; simpl in Hk;
    try discriminate; [|reflexivity].
  apply Hp. congruence.
Qed.

Lemma isA_kind t tm e e' : kind e = kind e' -> isA t tm e = isA t tm e'.
Proof. unfold kind, isA. intros [= -> ->]. reflexivity. Qed.

(** C1 (as amended).  With the handler installed, a tick raises the
    terminal signal once if no friendly construction yard is left in
    [buildings] after its sweep, and not at all if one is left: the signal
    comes first from the tick whose sweep removes the yard.  A yard that
    is absent when a tick starts is absent when it ends, so every later
    tick raises the signal again. *)
Theorem game_over_signal_each_tick s :
  Inv s -> onGameOver s = true ->
  gameOvers (log (update random s))
  = (gameOvers (log s) + (if yard (update random s) then 0 else 1))%nat
  /\ (yard s = false -> yard (update random s) = false).
Proof.
  intros HI Hon. rewrite update_phases.
  destruct (quiet_beforeWinLoss s) as [Hg Hn].
  pose proof (grows_beforeWinLoss s) as (Hlen & Hk & Hb).
  revert Hg Hn Hlen Hk Hb.
  generalize (afterProduction random (production random (set_tick (tick s + 1) s))).
  intros s6 Hg Hn Hlen Hk Hb.
  assert (Hy : yard (winLoss s6) = yard s6).
  { unfold winLoss. destruct (findEntity _ _ _); [reflexivity|].
    destruct (onGameOver s6); reflexivity. }
  rewrite Hy. split.
  - unfold winLoss, yard. destruct (findEntity _ _ _); simpl; [lia|].
    rewrite Hg, Hon. simpl. rewrite gameOvers_signal. lia.
  - intros Hno. apply yard_false. intros b Hin.
    rewrite (holds_kind s _ _ b (isA_kind _ _)).
    + apply yard_false; auto.
    + apply Hk. destruct HI as [_ _ _ _ Hbs].
      eapply Forall_forall in Hbs; [exact Hbs|]. apply list_elem_of_In. auto.
Qed.

(** *** Power gate *)

Lemma cannonStep_unpowered b s : power s < 0 -> cannonStep b s = s.
Proof.
  intros Hp. unfold cannonStep. destruct (heap s !! b); [|reflexivity].
  destruct (isA CANNON player _); [|reflexivity].
  apply Z.ltb_lt in Hp. rewrite Hp. reflexivity.
Qed.

Lemma cannonLoop_unpowered l s : power s < 0 -> forEach l cannonStep s = s.
Proof.
  intros Hp. unfold forEach. induction l as [|b l IH]; simpl; [reflexivity|].
  rewrite cannonStep_unpowered by assumption. exact IH.
Qed.

Lemma production_unpowered s : power s < 0 -> production random s = s.
Proof.
  intros Hp. unfold production. apply Z.leb_gt in Hp. rewrite Hp. reflexivity.
Qed.

(** C5.  On a tick that starts with a negative power balance production
    and the cannons do nothing at all: the tick is phases 3 to 7 applied
    to the state with the tick counter advanced, and the production
    queues come out as they went in (progress frozen, not reset).  The
    unit phase (harvesters, movement, attacks of mobile units) does not
    read the power balance: it commutes with any change of it. *)
Theorem negative_power_gates_production_and_cannons s :
  power s < 0 ->
  update random s
  = winLoss (waveLogic random (cleanup (resolveProjectiles
      (forEach (units s) unitStep (set_tick (tick s + 1) s)))))
  /\ productionQueues (update random s) = productionQueues s
  /\ (forall l, forEach l cannonStep s = s)
  /\ (forall p l, forEach l unitStep (set_power p s)
                  = set_power p (forEach l unitStep s)).
Proof.
  intros Hp. split; [|split; [|split]].
  - unfold update. rewrite production_unpowered by exact Hp.
    rewrite cannonLoop_unpowered by exact Hp. reflexivity.
  - rewrite update_phases, queues_winLoss, queues_afterProduction.
    rewrite production_unpowered by exact Hp. reflexivity.
  - intros l. apply cannonLoop_unpowered, Hp.
  - intros p l. apply unitLoop_power.
Qed.

(** *** Bounds on entities and credits *)

(** C7.  After any sequence of inputs and ticks, every entity object
    (those in [units] and [buildings], which all exist, and those swept
    but still targeted) has a cooldown that is not negative and hit
    points that do not exceed its maximum. *)
Theorem cooldown_and_hit_points_bounded (inputs : list (Input F)) :
  Forall (fun e => cooldown_ok e /\ Entity.hp e <= Entity.maxHp e)
    (heap (run random inputs (construct random)))
  /\ Forall (fun r => is_Some (heap (run random inputs (construct random)) !! r))
       (units (run random inputs (construct random))
        ++ buildings (run random inputs (construct random))).
Proof.
  pose proof (Inv_run random inputs _ (Inv_construct random)) as [Hh _ _ Hu Hb].
  split.
  - eapply Forall_impl; [exact Hh|]. intros e [Hc Hhp _ _]. split; [|exact Hhp].
    unfold cooldown_ok. destruct (Entity.cooldown e) as [c|] eqn:E; auto.
  - apply Forall_app. split; (eapply Forall_impl; [eassumption|]);
      intros r Hr; apply lookup_lt_is_Some; exact Hr.
Qed.

(** C10.  The engine starts with 2500 credits, and after any sequence of
    inputs and ticks the credits are not negative. *)
Theorem credits_never_negative :
  credits (blank (F := F)) = 2500
  /\ forall inputs : list (Input F),
       0 <= credits (run random inputs (construct random)).
Proof.
  split; [reflexivity|]. intros inputs.
  apply (Inv_run random inputs _ (Inv_construct random)).
Qed.

(** *** Credits over a tick *)

Ltac credits_frame :=
  first
    [ intros ? ? _ _ _ ?Hc _ _ ?H; congruence
    | intros; assumption ].

Lemma credits_afterHarvest u s :
  credits (move u (attack u (autoTarget u (aiLogic u s))).1
             (coolDown u (attack u (autoTarget u (aiLogic u s))).2))
  = credits s.
Proof.
  apply (P_afterHarvest (fun s' => credits s' = credits s));
    [credits_frame .. | reflexivity].
Qed.

Lemma unitStep_afterHarvest u s :
  unitStep u s
  = move u (attack u (autoTarget u (aiLogic u (harvesterLogic u s)))).1
      (coolDown u (attack u (autoTarget u (aiLogic u (harvesterLogic u s)))).2).
Proof. unfold unitStep. destruct (attack u _). reflexivity. Qed.

Lemma credits_production s : credits (production random s) = credits s.
Proof.
  apply (P_production random (fun s' => credits s' = credits s));
    [credits_frame .. | reflexivity].
Qed.

Lemma credits_cannonLoop l s : credits (forEach l cannonStep s) = credits s.
Proof.
  apply (forEach_preserves (fun s' => credits s' = credits s)); [|reflexivity].
  intros b s1 H. rewrite <- H.
  apply (P_cannonStep (fun s' => credits s' = credits s1));
    [credits_frame .. | reflexivity].
Qed.

Lemma credits_resolveProjectiles s : credits (resolveProjectiles s) = credits s.
Proof.
  apply (P_resolveProjectiles (fun s' => credits s' = credits s));
    [credits_frame .. | reflexivity].
Qed.

Lemma credits_cleanup s : credits (cleanup s) = credits s.
Proof. reflexivity. Qed.

Lemma credits_waveLogic s : credits (waveLogic random s) = credits s.
Proof.
  apply (P_waveLogic random (fun s' => credits s' = credits s));
    [credits_frame .. | reflexivity].
Qed.

Lemma credits_winLoss s : credits (winLoss s) = credits s.
Proof.
  unfold winLoss. destruct (findEntity _ _ _); [reflexivity|].
  destruct (onGameOver s); reflexivity.
Qed.

(** *** The deposit of a harvester *)

Lemma load_modify r r' f s :
  (forall e, load (f e) = load e) ->
  load <$> heap (modify r f s) !! r' = load <$> heap s !! r'.
Proof.
  intros Hf. destruct (decide (r = r')) as [->|Hne].
  - rewrite lookup_modify_eq.
    destruct (heap s !! r'); simpl; [f_equal; apply Hf | reflexivity].
  - rewrite lookup_modify_ne by assumption. reflexivity.
Qed.

Lemma heap_fireProjectile src tgt dmg s : heap (fireProjectile src tgt dmg s) = heap s.
Proof. unfold fireProjectile. destruct (heap s !! src); reflexivity. Qed.

Ltac branches :=
  repeat match goal with
    | |- context [match ?x with _ => _ end] => destruct x eqn:?
    end.

Ltac loads :=
  repeat first
    [ reflexivity
    | rewrite load_modify by (intros ?; reflexivity)
    | rewrite heap_fireProjectile ].

Lemma load_aiLogic u s r : load <$> heap (aiLogic u s) !! r = load <$> heap s !! r.
Proof. unfold aiLogic. branches; loads. Qed.

Lemma load_autoTarget u s r : load <$> heap (autoTarget u s) !! r = load <$> heap s !! r.
Proof. unfold autoTarget. branches; loads. Qed.

Lemma load_attack u s r : load <$> heap (attack u s).2 !! r = load <$> heap s !! r.
Proof. unfold attack. branches; cbn [snd]; loads. Qed.

Lemma load_coolDown u s r : load <$> heap (coolDown u s) !! r = load <$> heap s !! r.
Proof. unfold coolDown. branches; loads. Qed.

Lemma load_move u mt s r : load <$> heap (move u mt s) !! r = load <$> heap s !! r.
Proof. unfold move. branches; loads. Qed.

(** After the harvester logic, the body of phase 3 touches neither
    cargo nor harvest state. *)
Lemma load_afterHarvest u s r :
  load <$> heap (move u (attack u (autoTarget u (aiLogic u s))).1
                   (coolDown u (attack u (autoTarget u (aiLogic u s))).2)) !! r
  = load <$> heap s !! r.
Proof.
  rewrite load_move, load_coolDown, load_attack, load_autoTarget, load_aiLogic.
  reflexivity.
Qed.

Lemma findEntity_modify r f s l (p : Entity F -> bool) :
  (forall e, p (f e) = p e) ->
  findEntity (modify r f s) l p = findEntity s l p.
Proof.
  intros Hf. unfold findEntity.
  induction l as [|a l IH]; simpl; [reflexivity|].
  rewrite holds_modify by exact Hf. rewrite IH. reflexivity.
Qed.

(** The harvester logic of phase 3: a deposit when [depositing] says
    so, and otherwise neither a credit nor a way back to [idle]. *)
Lemma harvesterLogic_deposit u s :
  Inv s ->
  (depositing u s = true ->
   credits (harvesterLogic u s) = credits s + 500
   /\ load <$> heap (harvesterLogic u s) !! u = Some (0, idle))
  /\ (depositing u s = false ->
      credits (harvesterLogic u s) = credits s
      /\ forall e e1,
           heap s !! u = Some e -> heap (harvesterLogic u s) !! u = Some e1 ->
           (Entity.harvestState e1 = idle -> Entity.harvestState e = idle)
           /\ Entity.cargo e <= Entity.cargo e1).
Proof.
  intros HI. unfold depositing, harvesterLogic, holds.
  destruct (heap s !! u) as [e|] eqn:He.
  2: { split; [discriminate|]. intros _. split; [reflexivity|]. intros ? ? [=]. }
  assert (Hok : entity_ok e) by (eapply Forall_lookup_1; [apply HI | eassumption]).
  destruct (isA HARVESTER player e) eqn:Hh; cbn [andb].
  2: { split; [discriminate|]. intros _. split; [reflexivity|].
       intros e0 e1 [= <-] He1. rewrite He in He1. injection He1 as <-.
       split; [auto | lia]. }
  unfold updateHarvester. rewrite He. simpl orZ.
  destruct (500 <=? Entity.cargo e) eqn:Hcap; cbn [andb].
  - rewrite findEntity_modify by (intros ?; reflexivity).
    change (buildings (modify u (Entity.set_harvestState returning) s))
      with (buildings s).
    destruct (findEntity s (buildings s) (isA REFINERY player)) as [rf|] eqn:Hf.
    2: { split; [discriminate|]. intros _. split; [reflexivity|].
         intros e0 e1 [= <-] He1. rewrite lookup_modify_eq, He in He1.
         injection He1 as <-. split; [discriminate | simpl; lia]. }
    assert (Hne : u <> rf).
    { intros <-. apply findEntity_holds in Hf. unfold holds in Hf.
      rewrite He in Hf. unfold isA in Hh, Hf.
      apply andb_true_iff in Hh as [Hh _]. apply andb_true_iff in Hf as [Hf _].
      apply bool_decide_eq_true in Hh. apply bool_decide_eq_true in Hf.
      congruence. }
    rewrite lookup_modify_ne by exact Hne.
    destruct (heap s !! rf) as [rfe|].
    2: { split; [discriminate|]. intros _. split; [reflexivity|].
         intros e0 e1 [= <-] He1. rewrite lookup_modify_eq, He in He1.
         injection He1 as <-. split; [discriminate | simpl; lia]. }
    destruct (dist (Entity.pos e) (Entity.pos rfe) <? ofZ 60)%js.
    + split; [intros _ | discriminate].
      apply Z.leb_le in Hcap. destruct Hok as [_ _ Hcg _].
      rewrite credits_callUpdateUI. simpl credits. rewrite credits_callMessage.
      simpl credits. split; [lia|].
      rewrite heap_callUpdateUI.
      rewrite lookup_modify_eq, lookup_modify_eq, heap_callMessage.
      change (heap (set_credits ?c ?x)) with (heap x).
      rewrite lookup_modify_eq, lookup_modify_eq, He.
      reflexivity.
    + split; [discriminate|]. intros _. split; [reflexivity|].
      intros e0 e1 [= <-] He1.
      rewrite lookup_modify_eq, lookup_modify_eq, He in He1.
      injection He1 as <-. split; [discriminate | simpl; lia].
  - split; [discriminate|]. intros _.
    destruct (bool_decide (Entity.harvestState e = idle)
              || bool_decide (Entity.harvestState e = moving_to_ore)).
    + destruct (orePatches s) as [|ore ?].
      * split; [reflexivity|]. intros e0 e1 [= <-] He1.
        rewrite He in He1. injection He1 as <-. split; [auto | lia].
      * destruct (dist (Entity.pos e) (OrePatch.pos ore) <? ofZ 30)%js;
          (split; [reflexivity|]; intros e0 e1 [= <-] He1;
           rewrite !lookup_modify_eq, He in He1; injection He1 as <-;
           split; [discriminate | simpl; lia]).
    + destruct (bool_decide (Entity.harvestState e = harvesting)) eqn:Hhv.
      2: { split; [reflexivity|]. intros e0 e1 [= <-] He1.
           rewrite He in He1. injection He1 as <-. split; [auto | lia]. }
      destruct (tick s mod 10 =? 0).
      2: { split; [reflexivity|]. intros e0 e1 [= <-] He1.
           rewrite He in He1. injection He1 as <-. split; [auto | lia]. }
      apply bool_decide_eq_true in Hhv.
      destruct (500 <=? Entity.cargo e + 10);
        (split; [reflexivity|]; intros e0 e1 [= <-] He1;
         repeat first
           [ rewrite lookup_modify_eq in He1
           | progress change (heap (set_particles ?v ?x)) with (heap x) in He1 ];
         rewrite He in He1; injection He1 as <-;
         split; [simpl; congruence | simpl; lia]).
Qed.

Lemma unitStep_deposit u s :
  Inv s ->
  (depositing u s = true ->
   credits (unitStep u s) = credits s + 500
   /\ exists e', heap (unitStep u s) !! u = Some e'
                 /\ Entity.cargo e' = 0 /\ Entity.harvestState e' = idle)
  /\ (depositing u s = false ->
      credits (unitStep u s) = credits s
      /\ forall e e', heap s !! u = Some e -> heap (unitStep u s) !! u = Some e' ->
           (Entity.harvestState e' = idle -> Entity.harvestState e = idle)
           /\ Entity.cargo e <= Entity.cargo e').
Proof.
  intros HI. destruct (harvesterLogic_deposit u s HI) as [Hyes Hno].
  rewrite unitStep_afterHarvest, credits_afterHarvest.
  pose proof (load_afterHarvest u (harvesterLogic u s) u) as Hl.
  split.
  - intros Hd. destruct (Hyes Hd) as [Hc Hu]. split; [exact Hc|].
    rewrite Hu in Hl.
    destruct (heap (move _ _ _) !! u) as [e'|]; [|discriminate].
    injection Hl as Hcg Hst. exists e'. auto.
  - intros Hd. destruct (Hno Hd) as [Hc Hu]. split; [exact Hc|].
    intros e e' He He'. rewrite He' in Hl.
    destruct (heap (harvesterLogic u s) !! u) as [e1|] eqn:He1; [|discriminate].
    injection Hl as Hcg Hst.
    destruct (Hu e e1 He eq_refl) as [H1 H2].
    rewrite Hcg, Hst. auto.
Qed.

Lemma unitLoop_deposits l : forall s,
  Inv s -> credits (forEach l unitStep s) = credits s + 500 * deposits l s.
Proof.
  induction l as [|u l IH]; intros s HI.
  - simpl. lia.
  - change (forEach (u :: l) unitStep s) with (forEach l unitStep (unitStep u s)).
    cbn [deposits]. rewrite (IH _ (Inv_unitStep u s HI)).
    destruct (unitStep_deposit u s HI) as [Hyes Hno].
    destruct (depositing u s).
    + destruct (Hyes eq_refl) as [-> _]. lia.
    + destruct (Hno eq_refl) as [-> _]. lia.
Qed.

(** C9.  In a well-formed state (every state of every run is one, and
    every step of a tick keeps it so), the body of phase 3 deposits for a
    harvester of the player that carries a full load and is closer than
    60 to the player's first refinery: the credits grow by exactly 500,
    the capacity, and the harvester is left with cargo zero in state
    [idle].  In every other case the body leaves the credits alone, the
    cargo does not shrink, and the unit does not enter [idle]: the cycle
    is closed by the deposit and by nothing else in a tick.  Over the
    whole tick the credits grow by 500 for each unit that deposits on its
    turn in phase 3, and by nothing else. *)
Theorem harvester_deposit_is_capacity u s :
  Inv s ->
  TypeDefinition.capacity (DEFINITIONS (F := F) HARVESTER) = Some 500
  /\ (depositing u s = true ->
      credits (unitStep u s) = credits s + 500
      /\ exists e', heap (unitStep u s) !! u = Some e'
                    /\ Entity.cargo e' = 0 /\ Entity.harvestState e' = idle)
  /\ (depositing u s = false ->
      credits (unitStep u s) = credits s
      /\ forall e e', heap s !! u = Some e -> heap (unitStep u s) !! u = Some e' ->
           (Entity.harvestState e' = idle -> Entity.harvestState e = idle)
           /\ Entity.cargo e <= Entity.cargo e')
  /\ credits (update random s)
     = credits s
       + 500 * deposits (units (enteringUnits random s)) (enteringUnits random s).
Proof.
  intros HI. split; [reflexivity|].
  destruct (unitStep_deposit u s HI) as [Hyes Hno].
  split; [exact Hyes|]. split; [exact Hno|].
  change (update random s)
    with (winLoss (waveLogic random (cleanup (resolveProjectiles
            (forEach (units (enteringUnits random s)) unitStep
               (enteringUnits random s)))))).
  rewrite credits_winLoss, credits_waveLogic, credits_cleanup,
    credits_resolveProjectiles.
  assert (H2 : Inv (enteringUnits random s)).
  { unfold enteringUnits.
    apply forEach_preserves; [intros; apply Inv_cannonStep; assumption|].
    apply Inv_production. eapply Inv_frame; [..| exact HI]; reflexivity. }
  rewrite (unitLoop_deposits _ _ H2).
  unfold enteringUnits. rewrite credits_cannonLoop, credits_production. reflexivity.
Qed.

(** *** Rejected commands *)

Lemma sameGame_refl s : sameGame s s.
Proof. unfold sameGame. destruct s; reflexivity. Qed.

Lemma sameGame_callMessage msg s : sameGame s (callMessage msg s).
Proof.
  unfold callMessage. destruct (onMessage s); [reflexivity | apply sameGame_refl].
Qed.

(** C3 (as amended).  A rejected command changes nothing but the
    notifications.  A placement rejected for its site notifies
    "Cannot build here!"; an enqueue is rejected with the first cause
    that applies, in the order funds, slot, building, and notifies it.
    So an enqueue on an occupied slot never deducts funds nor touches
    the queues, and its cause is the occupied slot when the funds
    suffice.  (What a placement rejected for lack of funds notifies is
    left open.) *)
Theorem rejected_commands_change_nothing s :
  (forall mode,
      buildMode s = Some mode ->
      credits s < TypeDefinition.cost (DEFINITIONS (F := F) mode) ->
      sameGame s (tryPlaceBuilding random s))
  /\ (forall mode,
        buildMode s = Some mode ->
        TypeDefinition.cost (DEFINITIONS (F := F) mode) <= credits s ->
        collision (DEFINITIONS mode) s = true ->
        tryPlaceBuilding random s = callMessage "Cannot build here!" s)
  /\ (forall type key,
        credits s < TypeDefinition.cost (DEFINITIONS (F := F) type) ->
        queueUnit type key s = callMessage "Insufficient Funds" s)
  /\ (forall type key,
        TypeDefinition.cost (DEFINITIONS (F := F) type) <= credits s ->
        isSome (getQueue key (productionQueues s)) = true ->
        queueUnit type key s = callMessage "Production Busy" s)
  /\ (forall type key,
        TypeDefinition.cost (DEFINITIONS (F := F) type) <= credits s ->
        isSome (getQueue key (productionQueues s)) = false ->
        getHasBuilding key (hasBuildings s) = false ->
        queueUnit type key s = callMessage "Building Required" s)
  /\ (forall msg,
        sameGame s (callMessage msg s)
        /\ (onMessage s = true -> log (callMessage msg s) = log s ++ [Message msg])).
Proof.
  repeat split.
  - intros mode Hm Hc. unfold tryPlaceBuilding. rewrite Hm.
    apply Z.ltb_lt in Hc. rewrite Hc. apply sameGame_refl.
  - intros mode Hm Hc Hcol. unfold tryPlaceBuilding. rewrite Hm.
    apply Z.ltb_ge in Hc. rewrite Hc. destruct (checkRect _ _) as [[[cx cy] cw] ch].
    rewrite Hcol. reflexivity.
  - intros type key Hc. unfold queueUnit. apply Z.ltb_lt in Hc. rewrite Hc. reflexivity.
  - intros type key Hc Hq. unfold queueUnit. apply Z.ltb_ge in Hc. rewrite Hc, Hq.
    reflexivity.
  - intros type key Hc Hq Hb. unfold queueUnit. apply Z.ltb_ge in Hc.
    rewrite Hc, Hq, Hb. reflexivity.
  - apply sameGame_callMessage.
  - intros Hon. unfold callMessage. rewrite Hon. reflexivity.
Qed.

(** *** Orders to harvesters *)

Lemma worldMouse_commandUnit target u s :
  worldMouse (commandUnit target u s) = worldMouse s.
Proof.
  unfold commandUnit. destruct (heap s !! u); [|reflexivity].
  destruct (_ && _); [|reflexivity]. destruct target; [reflexivity|].
  destruct (bool_decide _); reflexivity.
Qed.

Lemma lookup_commandUnit_ne target u u' s :
  u <> u' -> heap (commandUnit target u s) !! u' = heap s !! u'.
Proof.
  intros Hne. unfold commandUnit. destruct (heap s !! u); [|reflexivity].
  destruct (_ && _); [|reflexivity]. simpl.
  destruct target; [|destruct (bool_decide _)]; simpl;
    rewrite !list_lookup_alter_ne by assumption; reflexivity.
Qed.

Lemma commandUnit_orders u s e :
  heap s !! u = Some e -> ownHarvester e ->
  exists e', heap (commandUnit None u s) !! u = Some e' /\ ordered (worldMouse s) e'.
Proof.
  intros He (Hsel & Htm & Hty). unfold commandUnit. rewrite He, Hsel, Htm, Hty.
  simpl. eexists. split.
  - apply (lookup_modify_some u _ (modify u _ (modify u _ s))).
    apply (lookup_modify_some u _ (modify u _ s)).
    apply lookup_modify_some, He.
  - repeat split; assumption.
Qed.

Lemma commandLoop_keeps l u s e :
  heap s !! u = Some e -> ordered (worldMouse s) e ->
  exists e', heap (forEach l (commandUnit None) s) !! u = Some e'
             /\ ordered (worldMouse s) e'.
Proof.
  unfold forEach. revert s e. induction l as [|u' l IH]; intros s e He Ho; simpl.
  - eauto.
  - destruct (decide (u' = u)) as [->|Hne].
    + destruct (commandUnit_orders u s e He (proj1 Ho)) as (e' & He' & Ho').
      rewrite <- (worldMouse_commandUnit None u s) in Ho' |- *. eauto.
    + rewrite <- (worldMouse_commandUnit None u' s) in Ho |- *.
      eapply IH; [|exact Ho]. rewrite lookup_commandUnit_ne by assumption. exact He.
Qed.

Lemma commandLoop_orders l u s e :
  In u l -> heap s !! u = Some e -> ownHarvester e ->
  exists e', heap (forEach l (commandUnit None) s) !! u = Some e'
             /\ ordered (worldMouse s) e'.
Proof.
  revert s e. induction l as [|u' l IH]; intros s e Hin He Ho; [destruct Hin|].
  change (forEach (u' :: l) (commandUnit None) s)
    with (forEach l (commandUnit None) (commandUnit None u' s)).
  destruct (decide (u' = u)) as [->|Hne].
  - destruct (commandUnit_orders u s e He Ho) as (e' & He' & Ho').
    rewrite <- (worldMouse_commandUnit None u s) in Ho' |- *.
    eapply commandLoop_keeps; eauto.
  - destruct Hin as [Heq|Hin]; [contradiction|].
    rewrite <- (worldMouse_commandUnit None u' s).
    eapply IH; eauto. rewrite lookup_commandUnit_ne by assumption. exact He.
Qed.

Lemma commandTarget_issued s :
  commandTarget (callUpdateUI (set_buildMode None s)) = commandTarget s.
Proof. unfold callUpdateUI. destruct (onUpdateUI _); reflexivity. Qed.

(** C4 (as amended).  A move order (a click that lands on no enemy)
    leaves every selected harvester of the player with harvest state
    [idle], the clicked point as destination and no target.  The next
    run of the harvest cycle takes it back: with cargo below capacity and
    an ore patch on the map, [updateHarvester] overwrites the destination
    with the first ore patch (or clears it next to the ore) and moves the
    state on to [moving_to_ore] or [harvesting]. *)
Theorem move_order_and_harvest_cycle u s e :
  heap s !! u = Some e ->
  (In u (units s) -> ownHarvester e -> commandTarget s = None ->
   exists e', heap (issueCommand s) !! u = Some e' /\ ordered (worldMouse s) e')
  /\ (forall ore rest,
        Entity.harvestState e = idle -> Entity.cargo e < 500 ->
        orePatches s = ore :: rest ->
        exists e', heap (updateHarvester u s) !! u = Some e'
          /\ ((Entity.harvestState e' = moving_to_ore
               /\ Entity.targetPos e' = Some (OrePatch.pos ore))
              \/ (Entity.harvestState e' = harvesting
                  /\ Entity.targetPos e' = None))).
Proof.
  intros He. split.
  - intros Hin Ho Ht. unfold issueCommand. rewrite commandTarget_issued, Ht.
    assert (Hu : units (callUpdateUI (set_buildMode None s)) = units s).
    { unfold callUpdateUI. destruct (onUpdateUI _); reflexivity. }
    assert (Hm : worldMouse (callUpdateUI (set_buildMode None s)) = worldMouse s).
    { unfold callUpdateUI. destruct (onUpdateUI _); reflexivity. }
    rewrite Hu, <- Hm. eapply commandLoop_orders; eauto.
    rewrite heap_callUpdateUI. exact He.
  - intros ore rest Hidle Hcargo Hore. unfold updateHarvester.
    rewrite He. simpl orZ. apply Z.leb_gt in Hcargo. rewrite Hcargo, Hidle, Hore.
    simpl. destruct (_ <? _)%js; eexists; (split; [|auto]).
    + apply (lookup_modify_some u _ (modify u _ (modify u _ (modify u _ s)))).
      apply (lookup_modify_some u _ (modify u _ (modify u _ s))).
      apply (lookup_modify_some u _ (modify u _ s)).
      apply lookup_modify_some, He.
    + right. split; reflexivity.
    + apply (lookup_modify_some u _ (modify u _ s)), lookup_modify_some, He.
    + left. split; reflexivity.
Qed.

End Claims.

(** ** The properties on runs of the engine *)

Import Scenario.

(** The run of [lastStand] is the witness of C1's theorem: its next tick
    sweeps the construction yard. *)
Lemma game_over_signal_each_tick_witness :
  gameOvers (log (update half lastStand))
  = (gameOvers (log lastStand) + (if yard (update half lastStand) then 0 else 1))%nat
  /\ (yard lastStand = false -> yard (update half lastStand) = false).
Proof.
  apply (game_over_signal_each_tick half lastStand).
  - apply Inv_run, Inv_run, Inv_construct.
  - vm_compute. reflexivity.
Defined.

(** C1 (counterexample).  No signal before the tick that sweeps the
    construction yard, one from that tick, and one more from each of the
    next two ticks: three signals, not one. *)
Lemma game_over_signal_repeats :
  yard lastStand = true
  /\ gameOvers (log lastStand) = 0%nat
  /\ yard (run half [Tick] lastStand) = false
  /\ gameOvers (log (run half [Tick] lastStand)) = 1%nat
  /\ gameOvers (log (run half [Tick; Tick; Tick] lastStand)) = 3%nat.
Proof. vm_compute. repeat split. Qed.

Lemma rejected_commands_witness :
  queueUnit INFANTRY barracks spent = callMessage "Insufficient Funds" spent.
Proof.
  destruct (rejected_commands_change_nothing half spent) as (_ & _ & H & _).
  apply H. vm_compute. reflexivity.
Defined.

(** C3 (counterexample).  With the barracks slot occupied and no credits
    left, a second order is rejected for lack of funds, not for the
    occupied slot. *)
Lemma enqueue_on_occupied_slot_reports_funds :
  isSome (getQueue barracks (productionQueues spent)) = true
  /\ credits spent = 0
  /\ log spent = []
  /\ log (queueUnit INFANTRY barracks spent) = [Message "Insufficient Funds"].
Proof. vm_compute. repeat split. Qed.

Lemma move_order_witness :
  exists e', heap (issueCommand selecting) !! 2%nat = Some e'
             /\ ordered (worldMouse selecting) e'.
Proof.
  destruct (move_order_and_harvest_cycle 2%nat selecting harvester) as [H _].
  - vm_compute. reflexivity.
  - apply H.
    + vm_compute. auto.
    + repeat split.
    + vm_compute. reflexivity.
Defined.

(** C4 (counterexample).  The order leaves the harvester idle and bound
    for (500, 500); one tick later the harvest cycle has it again, bound
    for the ore at (1000, 1000). *)
Lemma harvest_cycle_retakes_ordered_harvester :
  (fun e => (Entity.harvestState e, Entity.targetPos e)) <$> heap orderedAway !! 2%nat
  = Some (idle, Some (Vector.mk 500 500)%float)
  /\ (fun e => (Entity.harvestState e, Entity.targetPos e))
       <$> heap (update half orderedAway) !! 2%nat
     = Some (moving_to_ore, Some (Vector.mk 1000 1000)%float).
Proof. vm_compute. repeat split. Qed.

Lemma negative_power_witness :
  update half withRefinery
  = winLoss (waveLogic half (cleanup (resolveProjectiles
      (forEach (units withRefinery) unitStep
         (set_tick (tick withRefinery + 1) withRefinery)))))
  /\ productionQueues (update half withRefinery) = productionQueues withRefinery
  /\ (forall l, forEach l cannonStep withRefinery = withRefinery)
  /\ (forall p l, forEach l unitStep (set_power p withRefinery)
                  = set_power p (forEach l unitStep withRefinery)).
Proof.
  apply (negative_power_gates_production_and_cannons half withRefinery).
  vm_compute. reflexivity.
Defined.

(** C6.  The construction yard of [initLevel] is created at (1000, 1000)
    and stays there; snapped to the grid it would be at (1060, 1060). *)
Theorem spawned_yard_is_not_snapped :
  Entity.pos <$> heap (initLevel half blank) !! 0%nat
  = Some (Vector.mk 1000 1000)%float
  /\ Entity.pos (newEntity 1000 1000 CONSTRUCTION_YARD player 0.5)%float
     = (Vector.mk 1000 1000)%float
  /\ snapped 1000%float 1000%float CONSTRUCTION_YARD = (Vector.mk 1060 1060)%float.
Proof. vm_compute. repeat split. Qed.

Lemma harvester_deposit_witness :
  depositing 2%nat loaded = true
  /\ credits (unitStep 2%nat loaded) = credits loaded + 500
  /\ (exists e', heap (unitStep 2%nat loaded) !! 2%nat = Some e'
                  /\ Entity.cargo e' = 0 /\ Entity.harvestState e' = idle)
  /\ credits (update half loaded) = credits loaded + 500 * 1.
Proof.
  destruct (harvester_deposit_is_capacity half 2%nat loaded) as (_ & Hyes & _ & Htick).
  - apply Inv_run, Inv_run, Inv_run, Inv_construct.
  - assert (Hd : depositing 2%nat loaded = true) by (vm_compute; reflexivity).
    destruct (Hyes Hd) as [Hc He].
    split; [exact Hd|]. split; [exact Hc|]. split; [exact He|].
    rewrite Htick. vm_compute. reflexivity.
Defined.

(** The first round trip of the harvester of [withRefinery]: 1000 credits
    before the tick of the deposit, 1500 after it, the cargo back to 0. *)
Example first_round_trip :
  credits loaded = 1000
  /\ Entity.cargo <$> heap loaded !! 2%nat = Some 500
  /\ credits (update half loaded) = 1500
  /\ Entity.cargo <$> heap (update half loaded) !! 2%nat = Some 0
  /\ log (update half loaded) = [Message "+500 Credits"].
Proof. vm_compute. repeat split. Qed.

(** ** What a tick and the commands leave alone *)

Section Still.

Context {F : Type} {N : Num F}.
Variable random : nat -> F.

Implicit Types (s : GameEngine F) (e : Entity F) (r u b : ref).

Ltac cases :=
  repeat match goal with
    | |- context [match ?x with _ => _ end] => destruct x eqn:?
    end.

Ltac still := intros; cases; reflexivity.

Lemma untouched_updateHarvester u s : untouched (updateHarvester u s) = untouched s.
Proof. unfold updateHarvester, callMessage, callUpdateUI. still. Qed.

Lemma untouched_cannonStep b s : untouched (cannonStep b s) = untouched s.
Proof. unfold cannonStep, fireProjectile. still. Qed.

Lemma untouched_harvesterLogic u s : untouched (harvesterLogic u s) = untouched s.
Proof.
  unfold harvesterLogic. destruct (holds _ _ _); auto using untouched_updateHarvester.
Qed.

Lemma untouched_aiLogic u s : untouched (aiLogic u s) = untouched s.
Proof. unfold aiLogic. still. Qed.

Lemma untouched_autoTarget u s : untouched (autoTarget u s) = untouched s.
Proof. unfold autoTarget. still. Qed.

Lemma untouched_attack u s : untouched (attack u s).2 = untouched s.
Proof. unfold attack, fireProjectile. still. Qed.

Lemma untouched_coolDown u s : untouched (coolDown u s) = untouched s.
Proof. unfold coolDown. still. Qed.

Lemma untouched_move u mt s : untouched (move u mt s) = untouched s.
Proof. unfold move. still. Qed.

Lemma untouched_unitStep u s : untouched (unitStep u s) = untouched s.
Proof.
  unfold unitStep.
  pose proof (untouched_attack u (autoTarget u (aiLogic u (harvesterLogic u s)))) as H.
  destruct (attack u _) as [mt s1]. simpl in H.
  rewrite untouched_move, untouched_coolDown, H, untouched_autoTarget,
    untouched_aiLogic, untouched_harvesterLogic. reflexivity.
Qed.

Lemma untouched_projectileStep p s : untouched (projectileStep p s).2 = untouched s.
Proof. unfold projectileStep. still. Qed.

Lemma untouched_resolveProjectiles s : untouched (resolveProjectiles s) = untouched s.
Proof.
  unfold resolveProjectiles.
  pose proof (projectileLoop_preserves (fun s' => untouched s' = untouched s)
                (projectiles s) s) as H.
  destruct (projectileLoop _ _) as [ps s1]. simpl in *. apply H; [|reflexivity].
  intros p s2 H2. rewrite untouched_projectileStep. exact H2.
Qed.

Lemma untouched_forEach {A} (l : list A) body s :
  (forall a s, untouched (body a s) = untouched s) ->
  untouched (forEach l body s) = untouched s.
Proof.
  intros H.
  apply (forEach_preserves (fun s' => untouched s' = untouched s)); [|reflexivity].
  intros a s1 H1. rewrite H. exact H1.
Qed.

Lemma untouched_productionStep key s :
  untouched (productionStep random key s) = untouched s.
Proof.
  unfold productionStep, createEntity, mathRandom, alloc, callMessage, callUpdateUI.
  still.
Qed.

Lemma untouched_production s : untouched (production random s) = untouched s.
Proof.
  unfold production. destruct (_ <=? _); [|reflexivity].
  apply untouched_forEach, untouched_productionStep.
Qed.

Lemma untouched_spawnWaveUnit i s : untouched (spawnWaveUnit random i s) = untouched s.
Proof. reflexivity. Qed.

Lemma untouched_callMessage msg s : untouched (callMessage msg s) = untouched s.
Proof. unfold callMessage. still. Qed.

Lemma untouched_callUpdateUI s : untouched (callUpdateUI s) = untouched s.
Proof. unfold callUpdateUI. still. Qed.

(** Phases 1 to 5. *)
Lemma untouched_beforeWave s :
  untouched
    (cleanup
       (resolveProjectiles
          (forEach (units (forEach (buildings (production random s)) cannonStep
                             (production random s)))
             unitStep
             (forEach (buildings (production random s)) cannonStep
                (production random s)))))
  = untouched s.
Proof.
  change (untouched (cleanup ?x)) with (untouched x).
  rewrite untouched_resolveProjectiles.
  rewrite (untouched_forEach _ _ _ untouched_unitStep).
  rewrite (untouched_forEach _ _ _ untouched_cannonStep).
  apply untouched_production.
Qed.

Lemma untouched_parts s s' :
  untouched s' = untouched s ->
  ambient s' = ambient s /\ tick s' = tick s /\ wave s' = wave s.
Proof.
  intros H.
  pose proof (f_equal (fun x => x.1.1) H).
  pose proof (f_equal (fun x => x.1.2) H).
  pose proof (f_equal snd H).
  auto.
Qed.

Lemma ambient_parts s s' :
  ambient s' = ambient s ->
  power s' = power s /\ orePatches s' = orePatches s
  /\ buildMode s' = buildMode s /\ worldMouse s' = worldMouse s
  /\ isDraggingSelection s' = isDraggingSelection s
  /\ selectionStart s' = selectionStart s
  /\ onUpdateUI s' = onUpdateUI s /\ onMessage s' = onMessage s
  /\ onGameOver s' = onGameOver s.
Proof. unfold ambient. intros [= -> -> -> -> -> -> -> -> ->]. repeat split. Qed.

Lemma fixtures_parts s s' :
  fixtures s' = fixtures s ->
  tick s' = tick s /\ wave s' = wave s /\ orePatches s' = orePatches s
  /\ productionQueues s' = productionQueues s.
Proof. unfold fixtures. intros [= -> -> -> ->]. repeat split. Qed.

(** The wave phase: the counter moves, nothing else of these does. *)
Lemma waveLogic_wave s :
  ambient (waveLogic random s) = ambient s
  /\ tick (waveLogic random s) = tick s
  /\ wave (waveLogic random s)
     = if (tick s mod 5400 =? 0) && (0 <? tick s) then wave s + 1 else wave s.
Proof.
  unfold waveLogic. destruct (_ && _); [|repeat split; reflexivity].
  set (s1 := callMessage _ s).
  set (s2 := forEach _ _ s1).
  assert (H : untouched s2 = untouched s).
  { unfold s2. rewrite (untouched_forEach _ _ _ untouched_spawnWaveUnit).
    apply untouched_callMessage. }
  apply untouched_parts in H. destruct H as (H1 & H2 & H3).
  rewrite <- H1, <- H2, <- H3.
  unfold callUpdateUI. cases; repeat split; reflexivity.
Qed.

Lemma untouched_winLoss s : untouched (winLoss s) = untouched s.
Proof. unfold winLoss. still. Qed.

Lemma update_clock s :
  ambient (update random s) = ambient s
  /\ tick (update random s) = tick s + 1
  /\ wave (update random s)
     = if ((tick s + 1) mod 5400 =? 0) && (0 <? tick s + 1)
       then wave s + 1 else wave s.
Proof.
  unfold update. cbv zeta.
  match goal with |- context [winLoss (waveLogic random ?x)] =>
    pose proof (untouched_beforeWave (set_tick (tick s + 1) s)) as H;
    change (untouched x = untouched (set_tick (tick s + 1) s)) in H;
    destruct (waveLogic_wave x) as (H1 & H2 & H3);
    pose proof (untouched_winLoss (waveLogic random x)) as H4;
    set (s5 := x) in *
  end.
  apply untouched_parts in H, H4.
  destruct H as (Ha & Hb & Hc), H4 as (Hd & He & Hf).
  rewrite Hd, He, Hf, H1, H2, H3, Ha, Hb, Hc. repeat split; reflexivity.
Qed.

(** *** The commands *)

Lemma fixtures_forEach {A} (l : list A) body s :
  (forall a s, fixtures (body a s) = fixtures s) ->
  fixtures (forEach l body s) = fixtures s.
Proof.
  intros H.
  apply (forEach_preserves (fun s' => fixtures s' = fixtures s)); [|reflexivity].
  intros a s1 H1. rewrite H. exact H1.
Qed.

Lemma fixtures_callUpdateUI s : fixtures (callUpdateUI s) = fixtures s.
Proof. unfold callUpdateUI. still. Qed.

Lemma fixtures_calculatePower s : fixtures (calculatePower s) = fixtures s.
Proof. unfold calculatePower, callUpdateUI. still. Qed.

Lemma fixtures_tryPlaceBuilding s : fixtures (tryPlaceBuilding random s) = fixtures s.
Proof.
  unfold tryPlaceBuilding, checkRect, createEntity, mathRandom, alloc,
    callMessage.
  cases; try reflexivity.
  all: rewrite fixtures_callUpdateUI, fixtures_calculatePower; reflexivity.
Qed.

Lemma fixtures_selectUnits s : fixtures (selectUnits s) = fixtures s.
Proof.
  unfold selectUnits.
  rewrite fixtures_callUpdateUI. apply fixtures_forEach. still.
Qed.

Lemma fixtures_commandUnit target u s : fixtures (commandUnit target u s) = fixtures s.
Proof. unfold commandUnit. still. Qed.

Lemma fixtures_issueCommand s : fixtures (issueCommand s) = fixtures s.
Proof.
  unfold issueCommand. cbv zeta.
  rewrite (fixtures_forEach _ _ _ (fixtures_commandUnit _)).
  apply (fixtures_callUpdateUI (set_buildMode None s)).
Qed.

(** Every input but a tick and an accepted order. *)
Lemma fixtures_step i s :
  i <> Tick -> (forall t key, i <> QueueUnit t key) ->
  fixtures (step random i s) = fixtures s.
Proof.
  intros Ht Hq. destruct i; simpl; try reflexivity.
  - contradiction.
  - unfold handleMouseDownLeft. destruct (isSome _); [|reflexivity].
    apply fixtures_tryPlaceBuilding.
  - unfold handleMouseUpLeft. destruct (isDraggingSelection s); [|reflexivity].
    apply (fixtures_selectUnits (set_isDraggingSelection false s)).
  - apply fixtures_issueCommand.
  - exfalso. eapply Hq. reflexivity.
Qed.

Lemma queueUnit_clock t key s :
  tick (queueUnit t key s) = tick s
  /\ wave (queueUnit t key s) = wave s
  /\ orePatches (queueUnit t key s) = orePatches s.
Proof. unfold queueUnit, callMessage. cases; repeat split; reflexivity. Qed.

End Still.

(** ** Over the life of the engine *)

Section Lifetime.

Context {F : Type} {N : Num F}.
Variable random : nat -> F.

Implicit Types (s : GameEngine F) (e : Entity F) (r u b : ref).

Lemma run_cons i inputs s :
  run random (i :: inputs) s = run random inputs (step random i s).
Proof. reflexivity. Qed.

Lemma run_snoc inputs i s :
  run random (inputs ++ [i]) s = step random i (run random inputs s).
Proof. unfold run. rewrite fold_left_app. reflexivity. Qed.

Lemma update_ore s : orePatches (update random s) = orePatches s.
Proof.
  destruct (update_clock random s) as (Ha & _).
  apply ambient_parts in Ha. apply Ha.
Qed.

Lemma step_clock i s :
  tick (step random i s) = tick s + (if isTick i then 1 else 0)
  /\ wave (step random i s)
     = (if isTick i && ((tick s + 1) mod 5400 =? 0) && (0 <? tick s + 1)
        then wave s + 1 else wave s)
  /\ orePatches (step random i s) = orePatches s.
Proof.
  destruct i.
  1: { change (step random Tick s) with (update random s).
       destruct (update_clock random s) as (_ & Ht & Hw).
       rewrite Ht, Hw, update_ore. cbn [isTick andb]. repeat split. }
  7: { change (step random (QueueUnit type buildingKey) s)
         with (queueUnit type buildingKey s).
       destruct (queueUnit_clock type buildingKey s) as (Ht & Hw & Ho).
       rewrite Ht, Hw, Ho. cbn [isTick andb]. repeat split; lia. }
  all: match goal with |- context [step random ?i ?s] =>
         assert (H : fixtures (step random i s) = fixtures s)
           by (apply fixtures_step; [discriminate | intros; discriminate]);
         apply fixtures_parts in H; destruct H as (Ht & Hw & Ho & _);
         rewrite Ht, Hw, Ho
       end.
  all: cbn [isTick andb]; repeat split; lia.
Qed.

Lemma tick_initLevel : tick (initLevel random blank) = 0.
Proof. vm_compute. reflexivity. Qed.

Lemma wave_initLevel : wave (initLevel random blank) = 1.
Proof. vm_compute. reflexivity. Qed.

Lemma construct_clock :
  tick (construct random) = 1 /\ wave (construct random) = 1
  /\ orePatches (construct random) = orePatches (initLevel random blank).
Proof.
  unfold construct.
  destruct (update_clock random (initLevel random blank)) as (Ha & Ht & Hw).
  rewrite Ht, Hw, tick_initLevel, wave_initLevel.
  split; [reflexivity | split; [reflexivity | apply update_ore]].
Qed.

Lemma next_wave t :
  0 <= t ->
  (if ((t + 1) mod 5400 =? 0) && (0 <? t + 1) then 1 + t / 5400 + 1 else 1 + t / 5400)
  = 1 + (t + 1) / 5400.
Proof.
  intros Ht. destruct (Z.eqb_spec ((t + 1) mod 5400) 0) as [H|H]; simpl.
  - replace (0 <? t + 1) with true by (symmetry; apply Z.ltb_lt; lia).
    Z.to_euclidean_division_equations. lia.
  - Z.to_euclidean_division_equations. lia.
Qed.

Lemma ticks_snoc (inputs : list (Input F)) (i : Input F) :
  ticks (inputs ++ [i]) = ticks inputs + (if isTick i then 1 else 0).
Proof.
  unfold ticks. rewrite List.filter_app, length_app. simpl.
  destruct (isTick i); simpl; lia.
Qed.

(** X1.  The wave counter is a function of the tick counter: after any
    run of inputs from construction, [tick] is one (the tick the
    constructor runs) plus the number of ticks of the run, and [wave]
    is [1 + tick / 5400], a new wave every 5400 ticks. *)
Theorem wave_follows_the_clock (inputs : list (Input F)) :
  tick (run random inputs (construct random)) = 1 + ticks inputs
  /\ wave (run random inputs (construct random))
     = 1 + tick (run random inputs (construct random)) / 5400.
Proof.
  induction inputs as [|i inputs IH] using rev_ind.
  - destruct construct_clock as (Ht & Hw & _).
    change (run random [] (construct random)) with (construct random).
    rewrite Ht, Hw. split; reflexivity.
  - rewrite run_snoc, ticks_snoc. destruct IH as [IHt IHw].
    destruct (step_clock i (run random inputs (construct random))) as (Ht & Hw & _).
    rewrite Ht, Hw, IHw. split; [lia|].
    assert (0 <= tick (run random inputs (construct random))).
    { rewrite IHt. unfold ticks. lia. }
    destruct (isTick i); cbn [andb].
    + rewrite <- next_wave by assumption. reflexivity.
    + rewrite Z.add_0_r. reflexivity.
Qed.

(** X2.  Ore is never depleted: in every state the engine reaches, the
    ore patches are the 20 that [initLevel] laid out, each still holding
    its 1000. *)
Theorem ore_is_never_depleted (inputs : list (Input F)) :
  orePatches (run random inputs (construct random))
  = orePatches (initLevel random blank)
  /\ length (orePatches (initLevel random blank)) = 20%nat
  /\ Forall (fun o => OrePatch.amount o = 1000)
       (orePatches (initLevel random blank)).
Proof.
  split; [|split].
  - induction inputs as [|i inputs IH] using rev_ind.
    + apply construct_clock.
    + rewrite run_snoc. rewrite <- IH. apply step_clock.
  - vm_compute. reflexivity.
  - vm_compute. repeat constructor.
Qed.

(** X3.  A tick writes neither the power balance (it is recomputed on
    placement only, not when the sweep removes a building), nor the ore
    patches, nor the build mode, nor the mouse and selection state, nor
    the callbacks; and it advances the tick counter by one. *)
Theorem tick_leaves_the_settings s :
  power (update random s) = power s
  /\ orePatches (update random s) = orePatches s
  /\ buildMode (update random s) = buildMode s
  /\ worldMouse (update random s) = worldMouse s
  /\ isDraggingSelection (update random s) = isDraggingSelection s
  /\ selectionStart (update random s) = selectionStart s
  /\ (onUpdateUI (update random s), onMessage (update random s),
      onGameOver (update random s))
     = (onUpdateUI s, onMessage s, onGameOver s)
  /\ tick (update random s) = tick s + 1.
Proof.
  destruct (update_clock random s) as (Ha & Ht & _).
  apply ambient_parts in Ha.
  destruct Ha as (? & ? & ? & ? & ? & ? & ? & ? & ?).
  repeat split; try assumption. congruence.
Qed.

End Lifetime.

(** ** No dead entity outlives the tick that killed it *)

Section Tidy.

Context {F : Type} {N : Num F}.
Variable random : nat -> F.

Implicit Types (s : GameEngine F) (e : Entity F) (r u b : ref).

Lemma tidy_frame s s' :
  heap s' = heap s -> units s' = units s -> buildings s' = buildings s ->
  tidy s -> tidy s'.
Proof.
  unfold tidy, holds. intros -> -> -> H. exact H.
Qed.

Ltac frame := eapply tidy_frame; [..| eassumption]; reflexivity.

Lemma tidy_modify r f s :
  (forall e, Entity.dead (f e) = Entity.dead e) -> tidy s -> tidy (modify r f s).
Proof.
  intros Hf H. unfold tidy in *. cbn [units buildings modify set_heap].
  eapply Forall_impl; [exact H|]. intros r' Hr'. cbn beta in *.
  rewrite <- Hr'. apply holds_modify. intros e. unfold alive.
  f_equal. apply Hf.
Qed.

Lemma tidy_callMessage msg s : tidy s -> tidy (callMessage msg s).
Proof. intros H. unfold callMessage. destruct (onMessage s); exact H. Qed.

Lemma tidy_callUpdateUI s : tidy s -> tidy (callUpdateUI s).
Proof. intros H. unfold callUpdateUI. destruct (onUpdateUI s); exact H. Qed.

Lemma tidy_calculatePower s : tidy s -> tidy (calculatePower s).
Proof.
  intros H. unfold calculatePower. destruct (fold_left _ _ _).
  apply tidy_callUpdateUI. frame.
Qed.

Ltac keep :=
  repeat first
    [ assumption
    | apply tidy_callMessage
    | apply tidy_callUpdateUI
    | apply tidy_calculatePower
    | apply tidy_modify; [intros ?; reflexivity |] ].

Lemma holds_alloc (p : Entity F -> bool) e s r :
  holds s p r = true -> holds (alloc e s).2 p r = true.
Proof.
  unfold holds.
  destruct (heap s !! r) as [e'|] eqn:He; [|discriminate].
  intros Hp.
  assert (H : heap (alloc e s).2 !! r = Some e')
    by (apply lookup_app_l_Some; exact He).
  rewrite H. exact Hp.
Qed.

Lemma holds_fresh (p : Entity F -> bool) e s :
  holds (alloc e s).2 p (alloc e s).1 = p e.
Proof.
  unfold holds.
  assert (H : heap (alloc e s).2 !! (alloc e s).1 = Some e).
  { unfold alloc. cbn [fst snd heap set_heap].
    rewrite lookup_app_r by reflexivity. rewrite Nat.sub_diag. reflexivity. }
  rewrite H. reflexivity.
Qed.

Lemma newEntity_fields x y t tm id :
  Entity.pos (newEntity x y t tm id) = Vector.mk x y
  /\ Entity.type (newEntity x y t tm id) = t
  /\ Entity.team (newEntity x y t tm id) = tm
  /\ Entity.hp (newEntity x y t tm id) = TypeDefinition.hp (DEFINITIONS (F := F) t)
  /\ Entity.maxHp (newEntity x y t tm id) = TypeDefinition.hp (DEFINITIONS (F := F) t)
  /\ Entity.dead (newEntity x y t tm id) = false
  /\ Entity.targetUnit (newEntity x y t tm id) = None
  /\ Entity.targetPos (newEntity x y t tm id) = None
  /\ Entity.selected (newEntity x y t tm id) = false.
Proof. unfold newEntity. rewrite snap_id. repeat split. Qed.

Lemma newEntity_alive x y t tm id : alive (newEntity x y t tm id) = true.
Proof. unfold newEntity. destruct (snap x y t). reflexivity. Qed.

(** A created entity joins [units] or [buildings] alive. *)
Lemma tidy_createEntity x y t tm s (toUnits : bool) :
  tidy s ->
  let '(r, s') := createEntity random x y t tm s in
  tidy (if toUnits then set_units (units s' ++ [r]) s'
        else set_buildings (buildings s' ++ [r]) s').
Proof.
  intros H. unfold createEntity, mathRandom. cbv beta iota zeta.
  set (e := newEntity x y t tm _). set (s1 := set_rng _ s).
  assert (H1 : tidy s1) by (unfold s1; frame).
  pose proof (holds_fresh alive e s1) as Hnew.
  assert (Hold : forall r, holds s1 alive r = true -> holds (alloc e s1).2 alive r = true)
    by (intros; apply holds_alloc; assumption).
  destruct (alloc e s1) as [r s2] eqn:Ha.
  assert (Hu : units s2 = units s1) by (injection Ha as _ <-; reflexivity).
  assert (Hb : buildings s2 = buildings s1) by (injection Ha as _ <-; reflexivity).
  cbn [fst snd] in *. unfold tidy in *.
  assert (He : holds s2 alive r = true) by (rewrite Hnew; apply newEntity_alive).
  apply Forall_app in H1 as [H1u H1b].
  destruct toUnits; cbn [units buildings set_units set_buildings];
    rewrite ?Hu, ?Hb; repeat (apply Forall_app; split);
    try (apply Forall_singleton; exact He);
    (eapply Forall_impl; [eassumption|]); intros r' Hr'; apply Hold, Hr'.
Qed.

Lemma tidy_cleanup s : tidy (cleanup s).
Proof.
  unfold tidy, cleanup, holds. cbn [units buildings heap set_units set_buildings
                                    set_particles].
  apply Forall_app; split; apply List.Forall_forall; intros r Hr;
    apply List.filter_In in Hr; apply Hr.
Qed.

Lemma tidy_spawnWaveUnit i s : tidy s -> tidy (spawnWaveUnit random i s).
Proof.
  intros H. unfold spawnWaveUnit, mathRandom. cbv beta iota zeta.
  match goal with |- context [createEntity random ?x ?y ?t ?tm ?s1] =>
    assert (H1 : tidy s1) by frame;
    pose proof (tidy_createEntity x y t tm s1 true H1);
    destruct (createEntity random x y t tm s1) end.
  assumption.
Qed.

Lemma tidy_waveLogic s : tidy s -> tidy (waveLogic random s).
Proof.
  intros H. unfold waveLogic. destruct (_ && _); [|assumption].
  apply tidy_callUpdateUI.
  match goal with |- tidy (set_wave _ ?s2) => cut (tidy s2); [intros; frame|] end.
  apply forEach_preserves; [intros; apply tidy_spawnWaveUnit; assumption|]. keep.
Qed.

Lemma tidy_winLoss s : tidy s -> tidy (winLoss s).
Proof.
  intros H. unfold winLoss. destruct (findEntity _ _ _); [assumption|].
  destruct (onGameOver s); [frame | assumption].
Qed.

(** Whatever the state before it, a tick ends tidy. *)
Lemma tidy_update s : tidy (update random s).
Proof. unfold update. apply tidy_winLoss, tidy_waveLogic, tidy_cleanup. Qed.

Lemma tidy_selectUnits s : tidy s -> tidy (selectUnits s).
Proof.
  intros H. unfold selectUnits. apply tidy_callUpdateUI.
  apply forEach_preserves; [|assumption].
  clear H. intros u s' H. destruct (heap s' !! u); [|assumption].
  destruct (bool_decide _); [|assumption].
  destruct (_ && _); keep.
Qed.

Lemma tidy_commandUnit target u s : tidy s -> tidy (commandUnit target u s).
Proof.
  intros H. unfold commandUnit. destruct (heap s !! u); [|assumption].
  destruct (_ && _); [|assumption].
  match goal with |- tidy (set_particles _ ?s2) => cut (tidy s2); [intros; frame|] end.
  destruct target; [keep|]. destruct (bool_decide _); keep.
Qed.

Lemma tidy_issueCommand s : tidy s -> tidy (issueCommand s).
Proof.
  intros H. unfold issueCommand.
  apply forEach_preserves; [|apply tidy_callUpdateUI; frame].
  intros; apply tidy_commandUnit; assumption.
Qed.

Lemma tidy_tryPlaceBuilding s : tidy s -> tidy (tryPlaceBuilding random s).
Proof.
  intros H. unfold tryPlaceBuilding.
  destruct (buildMode s) as [mode|]; [|assumption].
  destruct (_ <? _); [assumption|]. unfold checkRect. cbv beta iota zeta.
  destruct (negb _); [|keep].
  match goal with |- context [createEntity random ?x ?y ?t ?tm ?s1] =>
    assert (H1 : tidy s1) by frame;
    pose proof (tidy_createEntity x y t tm s1 false H1) as H2;
    destruct (createEntity random x y t tm s1) as [b s2] end.
  apply tidy_callUpdateUI, tidy_calculatePower.
  match goal with |- tidy (set_buildMode _ ?s3) => cut (tidy s3); [intros; frame|] end.
  destruct (bool_decide _); [|assumption].
  match goal with |- context [heap ?s3 !! b] => destruct (heap s3 !! b) end;
    [|assumption].
  match goal with |- context [createEntity random ?x ?y ?t ?tm ?s1] =>
    pose proof (tidy_createEntity x y t tm s1 true H2);
    destruct (createEntity random x y t tm s1) end.
  assumption.
Qed.

Lemma tidy_queueUnit t key s : tidy s -> tidy (queueUnit t key s).
Proof.
  intros H. unfold queueUnit. repeat (destruct (_ : bool); [keep|]). frame.
Qed.

Lemma tidy_step i s : tidy s -> tidy (step random i s).
Proof.
  intros H. destruct i; cbn [step].
  - apply tidy_update.
  - frame.
  - frame.
  - unfold handleMouseDownLeft. destruct (isSome _); [apply tidy_tryPlaceBuilding, H | frame].
  - unfold handleMouseUpLeft. destruct (isDraggingSelection s); [|assumption].
    apply tidy_selectUnits. frame.
  - apply tidy_issueCommand, H.
  - frame.
  - apply tidy_queueUnit, H.
Qed.

(** X4.  Between ticks the collections hold no dead entity: in every
    state the engine reaches, each member of [units] and of [buildings]
    is an object with [dead] false (phase 5 sweeps what phase 4 killed,
    and nothing else sets [dead]). *)
Theorem no_dead_entity_is_listed (inputs : list (Input F)) :
  tidy (run random inputs (construct random)).
Proof.
  induction inputs as [|i inputs IH] using rev_ind.
  - apply tidy_update.
  - rewrite run_snoc. apply tidy_step, IH.
Qed.

End Tidy.

(** ** Who is ever aimed at *)

Section Shelter.

Context {F : Type} {N : Num F}.
Variable random : nat -> F.

Implicit Types (s : GameEngine F) (e : Entity F) (r u b t : ref).

Lemma holds_impl (p q : Entity F -> bool) s r :
  (forall e, p e = true -> q e = true) ->
  holds s p r = true -> holds s q r = true.
Proof. unfold holds. intros H. destruct (heap s !! r); auto. Qed.

Lemma hostile_fairGame e : hostile e = true -> fairGame e = true.
Proof.
  unfold hostile, fairGame. intros H. apply andb_true_iff in H as [H _].
  rewrite H. reflexivity.
Qed.

(** Whatever the scan of [getNearestEnemy] returns is a live enemy. *)
Lemma getNearestEnemy_hostile pos range s t :
  getNearestEnemy pos range s = Some t -> holds s hostile t = true.
Proof.
  unfold getNearestEnemy. cbv zeta.
  match goal with |- context [fold_left ?f (units s) _] => set (scan := f) end.
  assert (Hscan : forall l acc,
             (forall t, acc.1 = Some t -> holds s hostile t = true) ->
             forall t, (fold_left scan l acc).1 = Some t -> holds s hostile t = true).
  { induction l as [|a l IH]; intros acc Hacc; [exact Hacc|].
    cbn [fold_left]. apply IH. destruct acc as [n m]. unfold scan at 1.
    destruct (heap s !! a) as [ea|] eqn:Ha; [|exact Hacc].
    fold (hostile ea). destruct (hostile ea) eqn:He; [|exact Hacc].
    cbv zeta. destruct (_ <? _)%js; [|exact Hacc].
    intros t' [= <-]. unfold holds. rewrite Ha. exact He. }
  pose proof (Hscan (units s) (None, range)) as Hu.
  destruct (fold_left scan (units s) (None, range)) as [n1 m1].
  destruct n1 as [r|].
  - intros [= <-]. apply Hu; [intros ? [=] | reflexivity].
  - intros H. apply (Hscan (buildings s) (None, m1)); [intros ? [=] | exact H].
Qed.

Lemma fair_modify r f s t :
  (forall e, fairGame (f e) = fairGame e) -> fair (modify r f s) t <-> fair s t.
Proof. intros Hf. unfold fair. rewrite (holds_modify fairGame) by exact Hf. reflexivity. Qed.

Lemma Safe_frame s s' :
  heap s' = heap s -> projectiles s' = projectiles s -> Safe s -> Safe s'.
Proof.
  intros Hh Hp [H1 H2 H3]. split.
  - intros r e t. unfold fair, holds. rewrite Hh. apply H1.
  - rewrite Hp. unfold fair, holds. rewrite Hh. exact H2.
  - intros r e. rewrite Hh. apply H3.
Qed.

Ltac frame := eapply Safe_frame; [..| eassumption]; reflexivity.

Lemma Safe_modify r f s :
  Safe s ->
  (forall e, fairGame (f e) = fairGame e) ->
  (forall e t, heap s !! r = Some e -> Entity.targetUnit (f e) = Some t -> fair s t) ->
  (forall e, heap s !! r = Some e -> fairGame e = false ->
             Entity.hp (f e) = Entity.maxHp (f e) /\ Entity.dead (f e) = false) ->
  Safe (modify r f s).
Proof.
  intros [H1 H2 H3] Hf Ht Hs. split.
  - intros r' e' t He' Htu. apply fair_modify; [exact Hf|].
    destruct (decide (r = r')) as [<-|Hne].
    + rewrite lookup_modify_eq in He'.
      destruct (heap s !! r) as [e|] eqn:He; [|discriminate].
      injection He' as <-. eapply Ht; [reflexivity | exact Htu].
    + rewrite lookup_modify_ne in He' by assumption. eapply H1; eassumption.
  - cbn [projectiles modify set_heap].
    eapply Forall_impl; [exact H2|]. intros p Hp. apply fair_modify; assumption.
  - intros r' e' He' Hfair.
    destruct (decide (r = r')) as [<-|Hne].
    + rewrite lookup_modify_eq in He'.
      destruct (heap s !! r) as [e|] eqn:He; [|discriminate].
      injection He' as <-. rewrite Hf in Hfair. apply Hs; [reflexivity | exact Hfair].
    + rewrite lookup_modify_ne in He' by assumption. eapply H3; eassumption.
Qed.

(** A write that touches neither team, type, target, hit points nor
    [dead]. *)
Lemma Safe_gentle r f s :
  (forall e, fairGame (f e) = fairGame e
             /\ Entity.targetUnit (f e) = Entity.targetUnit e
             /\ Entity.hp (f e) = Entity.hp e
             /\ Entity.maxHp (f e) = Entity.maxHp e
             /\ Entity.dead (f e) = Entity.dead e) ->
  Safe s -> Safe (modify r f s).
Proof.
  intros Hf H. apply Safe_modify; [exact H | apply Hf | |].
  - intros e t He Htu. destruct (Hf e) as (_ & Ht & _). rewrite Ht in Htu.
    eapply safe_targets; eassumption.
  - intros e He Hfair. destruct (Hf e) as (_ & _ & -> & -> & ->).
    eapply safe_sheltered; eassumption.
Qed.

Lemma Safe_aim r (v : option ref) s :
  (forall t, v = Some t -> fair s t) ->
  Safe s -> Safe (modify r (Entity.set_targetUnit v) s).
Proof.
  intros Hv H. apply Safe_modify; [exact H | intros ?; reflexivity | |].
  - intros e t _ Htu. apply Hv. exact Htu.
  - intros e He Hfair. exact (safe_sheltered _ H _ _ He Hfair).
Qed.

Lemma Safe_hit r f s :
  fair s r ->
  (forall e, fairGame (f e) = fairGame e
             /\ Entity.targetUnit (f e) = Entity.targetUnit e) ->
  Safe s -> Safe (modify r f s).
Proof.
  intros Hr Hf H. apply Safe_modify; [exact H | apply Hf | |].
  - intros e t He Htu. destruct (Hf e) as (_ & Ht). rewrite Ht in Htu.
    eapply safe_targets; eassumption.
  - intros e He Hfair. unfold fair, holds in Hr. rewrite He in Hr. congruence.
Qed.

Lemma Safe_callMessage msg s : Safe s -> Safe (callMessage msg s).
Proof. intros H. unfold callMessage. destruct (onMessage s); [frame | exact H]. Qed.

Lemma Safe_callUpdateUI s : Safe s -> Safe (callUpdateUI s).
Proof. intros H. unfold callUpdateUI. destruct (onUpdateUI s); [frame | exact H]. Qed.

Lemma Safe_calculatePower s : Safe s -> Safe (calculatePower s).
Proof.
  intros H. unfold calculatePower. destruct (fold_left _ _ _).
  apply Safe_callUpdateUI. frame.
Qed.

Lemma Safe_fireProjectile src tgt dmg s :
  fair s tgt -> Safe s -> Safe (fireProjectile src tgt dmg s).
Proof.
  intros Ht H. unfold fireProjectile. destruct (heap s !! src); [|exact H].
  destruct H as [H1 H2 H3]. split; [exact H1 | | exact H3].
  cbn [projectiles set_projectiles]. apply Forall_app. split; [exact H2|].
  apply Forall_singleton. exact Ht.
Qed.

Lemma Safe_alloc e s :
  Entity.targetUnit e = None -> Entity.hp e = Entity.maxHp e ->
  Entity.dead e = false ->
  Safe s -> Safe (alloc e s).2.
Proof.
  intros Htu Hhp Hd [H1 H2 H3].
  assert (Hold : forall r e', heap (alloc e s).2 !! r = Some e' ->
                              heap s !! r = Some e' \/ e' = e).
  { intros r e' He'. unfold alloc in He'. cbn [snd heap set_heap] in He'.
    apply lookup_app_Some in He' as [He'|[_ He']]; [left; exact He'|].
    right. apply list_lookup_singleton_Some in He' as [_ <-]. reflexivity. }
  split.
  - intros r e' t He' Ht. apply Hold in He' as [He'| ->]; [|congruence].
    apply holds_alloc. eapply H1; eassumption.
  - eapply Forall_impl; [exact H2|]. intros p Hp. apply holds_alloc. exact Hp.
  - intros r e' He' Hfair. apply Hold in He' as [He'| ->]; [|auto].
    eapply H3; eassumption.
Qed.

Lemma Safe_createEntity x y type team s :
  Safe s -> Safe (createEntity random x y type team s).2.
Proof.
  intros H. unfold createEntity, mathRandom. cbv beta iota zeta.
  destruct (newEntity_fields x y type team (random (rng s)))
    as (_ & _ & _ & Hhp & Hmax & Hd & Htu & _).
  apply Safe_alloc; [exact Htu | congruence | exact Hd | frame].
Qed.

Ltac unframe :=
  match goal with
  | |- Safe (set_particles _ ?x) => cut (Safe x); [intros; frame|]
  | |- Safe (set_units _ ?x) => cut (Safe x); [intros; frame|]
  | |- Safe (set_buildings _ ?x) => cut (Safe x); [intros; frame|]
  | |- Safe (set_productionQueues _ ?x) => cut (Safe x); [intros; frame|]
  | |- Safe (set_credits _ ?x) => cut (Safe x); [intros; frame|]
  | |- Safe (set_buildMode _ ?x) => cut (Safe x); [intros; frame|]
  | |- Safe (set_wave _ ?x) => cut (Safe x); [intros; frame|]
  | |- Safe (set_tick _ ?x) => cut (Safe x); [intros; frame|]
  | |- Safe (set_rng _ ?x) => cut (Safe x); [intros; frame|]
  | |- Safe (set_orePatches _ ?x) => cut (Safe x); [intros; frame|]
  | |- Safe (set_log _ ?x) => cut (Safe x); [intros; frame|]
  | |- Safe (set_isDraggingSelection _ ?x) => cut (Safe x); [intros; frame|]
  | |- Safe (set_selectionStart _ ?x) => cut (Safe x); [intros; frame|]
  end.

Ltac keep :=
  repeat first
    [ assumption
    | apply Safe_callMessage
    | apply Safe_callUpdateUI
    | apply Safe_calculatePower
    | unframe
    | apply Safe_gentle; [intros ?; repeat split; reflexivity |] ].

Ltac case_if :=
  match goal with
  | |- context [if ?c then _ else _] => destruct c eqn:?
  end.

Ltac case_lookup :=
  match goal with
  | |- context [heap ?s !! ?r] => destruct (heap s !! r) eqn:?
  end.

Ltac case_find :=
  match goal with
  | |- context [findEntity ?s ?l ?p] => destruct (findEntity s l p) eqn:?
  | |- context [getNearestEnemy ?p ?r ?s] => destruct (getNearestEnemy p r s) eqn:?
  end.

Lemma Safe_updateHarvester u s : Safe s -> Safe (updateHarvester u s).
Proof.
  intros H. unfold updateHarvester.
  destruct (heap s !! u) as [e|] eqn:He; [|assumption].
  simpl orZ. destruct (500 <=? Entity.cargo e).
  - case_find; [|keep]. case_lookup; [|keep]. case_if; keep.
  - destruct (bool_decide (Entity.harvestState e = idle)
              || bool_decide (Entity.harvestState e = moving_to_ore)).
    + destruct (orePatches s) as [|ore ?]; [assumption|]. case_if; keep.
    + destruct (bool_decide (Entity.harvestState e = harvesting)); [|assumption].
      destruct (tick s mod 10 =? 0); [|assumption]. case_if; keep.
Qed.

Lemma Safe_push_unit x y type team s :
  Safe s ->
  Safe (set_units (units (createEntity random x y type team s).2
                   ++ [(createEntity random x y type team s).1])
          (createEntity random x y type team s).2).
Proof. intros H. unframe. apply Safe_createEntity, H. Qed.

Lemma Safe_productionStep key s : Safe s -> Safe (productionStep random key s).
Proof.
  intros H. unfold productionStep.
  destruct (getQueue key (productionQueues s)) as [q|]; [|assumption].
  match goal with |- context [set_productionQueues ?v s] =>
    assert (H1 : Safe (set_productionQueues v s)) by frame;
    generalize dependent (set_productionQueues v s) end.
  intros s1 H1. case_if; [|case_if; keep].
  apply Safe_callUpdateUI. unframe.
  case_find; [|assumption]. case_lookup; [|assumption].
  match goal with |- context [createEntity random ?x ?y ?t ?tm s1] =>
    pose proof (Safe_push_unit x y t tm s1 H1);
    destruct (createEntity random x y t tm s1) end.
  keep.
Qed.

Lemma Safe_production s : Safe s -> Safe (production random s).
Proof.
  intros H. unfold production. case_if; [|assumption].
  apply forEach_preserves; auto using Safe_productionStep.
Qed.

Lemma fair_nearest pos range s t :
  getNearestEnemy pos range s = Some t -> fair s t.
Proof.
  intros H. apply getNearestEnemy_hostile in H.
  eapply holds_impl; [|exact H]. apply hostile_fairGame.
Qed.

Lemma fair_gentle r f s t :
  (forall e, fairGame (f e) = fairGame e) -> fair s t -> fair (modify r f s) t.
Proof. intros Hf H. apply fair_modify; assumption. Qed.

Lemma Safe_cannonStep b s : Safe s -> Safe (cannonStep b s).
Proof.
  intros H. unfold cannonStep. case_lookup; [|assumption].
  repeat (case_if; try assumption); [keep|].
  case_find; [|assumption]. case_lookup; [|assumption].
  apply Safe_gentle; [intros ?; repeat split; reflexivity|].
  apply Safe_fireProjectile; [|keep].
  apply fair_gentle; [intros ?; reflexivity|]. eapply fair_nearest. eassumption.
Qed.

Lemma Safe_harvesterLogic u s : Safe s -> Safe (harvesterLogic u s).
Proof.
  intros H. unfold harvesterLogic. case_if; auto using Safe_updateHarvester.
Qed.

Lemma Safe_aiLogic u s : Safe s -> Safe (aiLogic u s).
Proof.
  intros H. unfold aiLogic. case_lookup; [|assumption].
  case_if; [|assumption]. case_find; [|assumption].
  apply Safe_aim; [|assumption]. intros hq [= <-].
  match goal with Hf : findEntity _ _ _ = Some _ |- _ =>
    apply findEntity_holds in Hf; eapply holds_impl; [|exact Hf] end.
  intros e' He'. unfold isA in He'. apply andb_true_iff in He' as [He' _].
  unfold fairGame. rewrite He'. apply orb_true_r.
Qed.

Lemma Safe_autoTarget u s : Safe s -> Safe (autoTarget u s).
Proof.
  intros H. unfold autoTarget. case_lookup; [|assumption].
  case_if; [|assumption]. case_find; [|assumption].
  apply Safe_aim; [|assumption]. intros tgt [= <-].
  eapply fair_nearest. eassumption.
Qed.

Lemma Safe_attack u s : Safe s -> Safe (attack u s).2.
Proof.
  intros H. unfold attack.
  destruct (heap s !! u) as [e|] eqn:He; [|assumption].
  destruct (Entity.targetUnit e) as [tgt|] eqn:Htgt; [|assumption].
  assert (Hfair : fair s tgt) by (eapply safe_targets; eassumption).
  destruct (heap s !! tgt) as [te|]; [|assumption].
  destruct (Entity.dead te).
  { cbn [snd]. apply Safe_aim; [intros ? [=] | assumption]. }
  repeat (case_if; cbn [snd]; try assumption); keep.
  apply Safe_fireProjectile; [|keep].
  apply fair_gentle; [intros ?; reflexivity | exact Hfair].
Qed.

Lemma Safe_coolDown u s : Safe s -> Safe (coolDown u s).
Proof.
  intros H. unfold coolDown. case_lookup; [|assumption]. case_if; keep.
Qed.

Lemma Safe_move u mt s : Safe s -> Safe (move u mt s).
Proof.
  intros H. unfold move. case_lookup; [|assumption].
  destruct mt as [mt|]; [|assumption].
  case_if.
  - destruct (repulsion _ _ _). keep.
  - case_if; keep.
Qed.

Lemma Safe_unitStep u s : Safe s -> Safe (unitStep u s).
Proof.
  intros H. unfold unitStep.
  pose proof (Safe_attack u _ (Safe_autoTarget u _ (Safe_aiLogic u _
                (Safe_harvesterLogic u s H)))) as Ha.
  destruct (attack u _) as [mt s1]. cbn [snd] in Ha.
  apply Safe_move, Safe_coolDown, Ha.
Qed.

Lemma Safe_projectileStep p s :
  fair s (Projectile.target p) -> Safe s ->
  Safe (projectileStep p s).2
  /\ forall p', (projectileStep p s).1 = Some p' ->
                Projectile.target p' = Projectile.target p.
Proof.
  intros Hp H. unfold projectileStep.
  destruct (heap s !! Projectile.target p) as [te|] eqn:Hte.
  2: { split; [assumption|]. intros p' [= <-]. reflexivity. }
  case_if; cbn [fst snd].
  2: { split; [assumption|]. intros p' [= <-]. reflexivity. }
  split; [|intros ? [=]]. unframe.
  assert (H1 : Safe (modify (Projectile.target p)
                       (Entity.set_hp (Entity.hp te - Projectile.damage p)) s)).
  { apply Safe_hit; [exact Hp | intros ?; split; reflexivity | exact H]. }
  case_if; [|exact H1].
  apply Safe_hit; [|intros ?; split; reflexivity | exact H1].
  apply fair_gentle; [intros ?; reflexivity | exact Hp].
Qed.

Lemma fair_projectileStep p s t :
  fair (projectileStep p s).2 t <-> fair s t.
Proof.
  unfold projectileStep.
  destruct (heap s !! Projectile.target p) as [te|]; [|reflexivity].
  case_if; cbn [snd]; [|reflexivity].
  match goal with |- fair (set_particles _ ?x) _ <-> _ =>
    change (fair x t <-> fair s t) end.
  case_if.
  - rewrite fair_modify by (intros ?; reflexivity).
    apply fair_modify. intros ?; reflexivity.
  - apply fair_modify. intros ?; reflexivity.
Qed.

(** What the projectile loop keeps: [Safe], and fair targets for the
    projectiles still in flight. *)
Lemma Safe_projectileLoop ps s :
  Forall (fun p => fair s (Projectile.target p)) ps -> Safe s ->
  Safe (projectileLoop ps s).2
  /\ Forall (fun p => fair (projectileLoop ps s).2 (Projectile.target p))
       (projectileLoop ps s).1
  /\ forall t, fair s t <-> fair (projectileLoop ps s).2 t.
Proof.
  intros Hps H. induction Hps as [|p ps Hp Hps IH]; cbn [projectileLoop].
  - split; [exact H|]. split; [constructor | reflexivity].
  - destruct (projectileLoop ps s) as [rest s1]. cbn [fst snd] in IH.
    destruct IH as (IH1 & IH2 & IH3).
    assert (Hp1 : fair s1 (Projectile.target p)) by (apply IH3, Hp).
    destruct (Safe_projectileStep p s1 Hp1 IH1) as [H1 H2].
    pose proof (fair_projectileStep p s1) as Hm.
    destruct (projectileStep p s1) as [[p'|] s2]; cbn [fst snd] in *.
    + split; [exact H1|]. split.
      * constructor.
        -- rewrite (H2 p' eq_refl). apply Hm, Hp1.
        -- eapply Forall_impl; [exact IH2|]. intros q Hq. apply Hm, Hq.
      * intros t. rewrite IH3. symmetry. apply Hm.
    + split; [exact H1|]. split.
      * eapply Forall_impl; [exact IH2|]. intros q Hq. apply Hm, Hq.
      * intros t. rewrite IH3. symmetry. apply Hm.
Qed.

Lemma Safe_resolveProjectiles s : Safe s -> Safe (resolveProjectiles s).
Proof.
  intros H. unfold resolveProjectiles.
  destruct (Safe_projectileLoop (projectiles s) s) as (H1 & H2 & _);
    [apply H | assumption |].
  destruct (projectileLoop (projectiles s) s) as [ps s1]. cbn [fst snd] in *.
  destruct H1 as [A B C]. split; [exact A | exact H2 | exact C].
Qed.

Lemma Safe_cleanup s : Safe s -> Safe (cleanup s).
Proof. intros H. unfold cleanup. frame. Qed.

Lemma Safe_spawnWaveUnit i s : Safe s -> Safe (spawnWaveUnit random i s).
Proof.
  intros H. unfold spawnWaveUnit, mathRandom. cbv beta iota zeta.
  match goal with |- context [createEntity random ?x ?y ?t ?tm ?s1] =>
    assert (H1 : Safe s1) by frame;
    pose proof (Safe_push_unit x y t tm s1 H1);
    destruct (createEntity random x y t tm s1) end.
  assumption.
Qed.

Lemma Safe_waveLogic s : Safe s -> Safe (waveLogic random s).
Proof.
  intros H. unfold waveLogic. case_if; [|assumption].
  apply Safe_callUpdateUI. unframe.
  apply forEach_preserves; [intros; apply Safe_spawnWaveUnit; assumption|]. keep.
Qed.

Lemma Safe_winLoss s : Safe s -> Safe (winLoss s).
Proof.
  intros H. unfold winLoss. case_find; [assumption|]. case_if; keep.
Qed.

Lemma Safe_update s : Safe s -> Safe (update random s).
Proof.
  intros H. unfold update.
  apply Safe_winLoss, Safe_waveLogic, Safe_cleanup, Safe_resolveProjectiles.
  apply forEach_preserves; [intros; apply Safe_unitStep; assumption|].
  apply forEach_preserves; [intros; apply Safe_cannonStep; assumption|].
  apply Safe_production. frame.
Qed.

Lemma fair_commandTarget s t : commandTarget s = Some t -> fair s t.
Proof.
  unfold commandTarget. cbv zeta.
  assert (Hnear : forall l (d : Z) r,
             findEntity s l
               (fun e => bool_decide (Entity.team e = enemy)
                         && (dist (Entity.pos e) (worldMouse s) <? ofZ d)%js) = Some r ->
             fair s r).
  { intros l d r Hf. apply findEntity_holds in Hf.
    eapply holds_impl; [|exact Hf]. intros e He.
    apply andb_true_iff in He as [He _]. unfold fairGame. rewrite He. reflexivity. }
  destruct (findEntity s (units s) _) as [en|] eqn:Hu.
  - intros [= <-]. eapply Hnear. exact Hu.
  - intros Hb. eapply Hnear. exact Hb.
Qed.

Lemma Safe_commandUnit target u s :
  (forall t, target = Some t -> fair s t) ->
  Safe s -> Safe (commandUnit target u s).
Proof.
  intros Ht H. unfold commandUnit. case_lookup; [|assumption]. case_if; [|assumption].
  unframe. destruct target as [tgt|].
  - apply Safe_gentle; [intros ?; repeat split; reflexivity|].
    apply Safe_aim; assumption.
  - assert (Safe (modify u (Entity.set_targetUnit None)
                    (modify u (Entity.set_targetPos (Some (worldMouse s))) s))).
    { apply Safe_aim; [intros ? [=]|]. keep. }
    case_if; keep.
Qed.

Lemma fair_commandUnit target u s t :
  fair s t -> fair (commandUnit target u s) t.
Proof.
  intros H. unfold commandUnit. case_lookup; [|assumption]. case_if; [|assumption].
  match goal with |- fair (set_particles _ ?x) _ => change (fair x t) end.
  destruct target; [|case_if];
    repeat (apply fair_gentle; [intros ?; reflexivity|]); exact H.
Qed.

Lemma Safe_issueCommand s : Safe s -> Safe (issueCommand s).
Proof.
  intros H. unfold issueCommand. cbv zeta.
  set (s1 := callUpdateUI (set_buildMode None s)).
  assert (H1 : Safe s1) by (unfold s1; keep).
  pose proof (fair_commandTarget s1) as Ht.
  generalize dependent (commandTarget s1). intros target Ht.
  apply (forEach_preserves
           (fun s2 => Safe s2 /\ forall t, target = Some t -> fair s2 t)).
  - intros u s3 [Hs Hm]. split.
    + apply Safe_commandUnit; assumption.
    + intros t Ht'. apply fair_commandUnit, Hm, Ht'.
  - split; assumption.
Qed.

Lemma Safe_selectUnits s : Safe s -> Safe (selectUnits s).
Proof.
  intros H. unfold selectUnits. apply Safe_callUpdateUI.
  apply forEach_preserves; [|assumption].
  clear H. intros u s' H. case_lookup; [|assumption].
  repeat (case_if; try assumption); keep.
Qed.

Lemma Safe_tryPlaceBuilding s : Safe s -> Safe (tryPlaceBuilding random s).
Proof.
  intros H. unfold tryPlaceBuilding.
  destruct (buildMode s) as [mode|]; [|assumption].
  case_if; [assumption|]. unfold checkRect. cbv beta iota zeta. case_if; [|keep].
  match goal with |- context [createEntity random ?x ?y ?t ?tm ?s1] =>
    assert (H1 : Safe s1) by frame;
    pose proof (Safe_createEntity x y t tm s1 H1) as H2;
    destruct (createEntity random x y t tm s1) as [b s2] end.
  cbn [snd] in H2.
  apply Safe_callUpdateUI, Safe_calculatePower. unframe.
  case_if; [|keep]. case_lookup; [|keep].
  match goal with |- context [createEntity random ?x ?y ?t ?tm ?s1] =>
    assert (H3 : Safe s1) by frame;
    pose proof (Safe_push_unit x y t tm s1 H3);
    destruct (createEntity random x y t tm s1) end.
  assumption.
Qed.

Lemma Safe_queueUnit type key s : Safe s -> Safe (queueUnit type key s).
Proof. intros H. unfold queueUnit. repeat (case_if; [keep|]). keep. Qed.

Lemma Safe_step i s : Safe s -> Safe (step random i s).
Proof.
  intros H. destruct i; cbn [step].
  - apply Safe_update, H.
  - frame.
  - frame.
  - unfold handleMouseDownLeft. case_if; [apply Safe_tryPlaceBuilding, H | frame].
  - unfold handleMouseUpLeft. case_if; [|assumption]. apply Safe_selectUnits. frame.
  - apply Safe_issueCommand, H.
  - frame.
  - apply Safe_queueUnit, H.
Qed.

Lemma Safe_blank : Safe (blank (F := F)).
Proof.
  split.
  - intros r e t He. discriminate.
  - constructor.
  - intros r e He. discriminate.
Qed.

Lemma Safe_initLevel s : Safe s -> Safe (initLevel random s).
Proof.
  intros H. unfold initLevel.
  match goal with |- context [createEntity random ?x ?y ?t ?tm s] =>
    pose proof (Safe_createEntity x y t tm s H) as H2;
    destruct (createEntity random x y t tm s) as [hq s2] end.
  cbn [snd] in H2. apply Safe_calculatePower. apply forEach_preserves.
  - intros _ s' H'. unfold mathRandom. cbv beta iota zeta. frame.
  - frame.
Qed.

(** X5.  Only an enemy or a construction yard is ever aimed at.  In
    every state the engine reaches, whatever a unit targets and whatever
    a projectile flies at is an enemy or a construction yard; so the
    player's units and the player's other buildings are never hit: each
    of them is alive and at its full hit points. *)
Theorem only_enemies_and_the_yard_are_hit (inputs : list (Input F)) :
  Safe (run random inputs (construct random)).
Proof.
  induction inputs as [|i inputs IH] using rev_ind.
  - apply Safe_update, Safe_initLevel, Safe_blank.
  - rewrite run_snoc. apply Safe_step, IH.
Qed.

End Shelter.

(** ** Production orders *)

Section Orders.

Context {F : Type} {N : Num F}.
Variable random : nat -> F.

Implicit Types (s : GameEngine F) (q : Queue) (qs : Queues) (key : BuildingKey).

Ltac cases :=
  repeat match goal with
    | |- context [match ?x with _ => _ end] => destruct x eqn:?
    end.

Lemma getQueue_setQueue key key' v qs :
  getQueue key (setQueue key' v qs)
  = if bool_decide (key = key') then v else getQueue key qs.
Proof. destruct key, key'; reflexivity. Qed.

Lemma queues_callMessage msg s :
  productionQueues (callMessage msg s) = productionQueues s.
Proof. unfold callMessage. destruct (onMessage s); reflexivity. Qed.

Lemma productionStep_queues key s :
  productionQueues (productionStep random key s)
  = match getQueue key (productionQueues s) with
    | Some q => setQueue key (advance q) (productionQueues s)
    | None => productionQueues s
    end.
Proof.
  unfold productionStep, advance.
  destruct (getQueue key (productionQueues s)) as [q|]; [|reflexivity].
  unfold createEntity, mathRandom, alloc, callMessage, callUpdateUI.
  cases; destruct key; reflexivity.
Qed.

Lemma productionStep_power key s : power (productionStep random key s) = power s.
Proof.
  pose proof (untouched_productionStep random key s) as H.
  apply untouched_parts in H. destruct H as (H & _).
  apply ambient_parts in H. apply H.
Qed.

(** One tick of the production phase, seen from one queue. *)
Lemma production_queue key s :
  0 <= power s ->
  getQueue key (productionQueues (production random s))
  = getQueue key (productionQueues s) ≫= advance.
Proof.
  intros Hp. unfold production.
  replace (0 <=? power s) with true by (symmetry; apply Z.leb_le; exact Hp).
  unfold forEach. cbn [fold_left].
  rewrite !productionStep_queues.
  destruct key;
    destruct (Queues.barracks (productionQueues s)) as [qb|] eqn:Hb;
    destruct (Queues.factory (productionQueues s)) as [qf|] eqn:Hf;
    cbn [getQueue setQueue Queues.barracks Queues.factory];
    rewrite ?Hb, ?Hf; cbn [getQueue setQueue Queues.barracks Queues.factory mbind option_bind];
    rewrite ?Hb, ?Hf; reflexivity.
Qed.

Lemma update_queue key s :
  0 <= power s ->
  getQueue key (productionQueues (update random s))
  = getQueue key (productionQueues s) ≫= advance.
Proof.
  intros Hp. rewrite update_phases, queues_winLoss, queues_afterProduction.
  apply (production_queue key (set_tick (tick s + 1) s)). exact Hp.
Qed.

Lemma update_power s : power (update random s) = power s.
Proof.
  destruct (update_clock random s) as (Ha & _). apply ambient_parts in Ha. apply Ha.
Qed.

Lemma run_ticks n s :
  run random (repeat Tick (S n)) s = run random (repeat Tick n) (update random s).
Proof.
  change (repeat Tick (S n)) with (Tick :: repeat (Tick (F := F)) n).
  rewrite run_cons. change (step random Tick s) with (update random s).
  reflexivity.
Qed.

(** X6.  Production runs on schedule.  With a non-negative power
    balance, an order that stands at [progress] has advanced by 16 per
    tick as long as it stays below its [total], and it leaves its slot
    on the first tick that brings it to the total or beyond: a rifleman
    (2000) on the 125th tick, a harvester (4000) on the 250th, a tank
    (5000) on the 313th. *)
Theorem production_runs_on_schedule key q s (n : nat) :
  0 <= power s ->
  getQueue key (productionQueues s) = Some q ->
  (Queue.progress q + 16 * Z.of_nat n < Queue.total q ->
   getQueue key (productionQueues (run random (repeat Tick n) s))
   = Some {| Queue.type := Queue.type q;
             Queue.progress := Queue.progress q + 16 * Z.of_nat n;
             Queue.total := Queue.total q |})
  /\ (Queue.progress q + 16 * Z.of_nat n < Queue.total q
        <= Queue.progress q + 16 * Z.of_nat (S n) ->
      getQueue key (productionQueues (run random (repeat Tick (S n)) s)) = None).
Proof.
  revert q s. induction n as [|n IH]; intros q s Hp Hq.
  - split.
    + intros _. cbn [repeat run fold_left]. rewrite Hq.
      destruct q. cbn [Queue.type Queue.progress Queue.total]. do 2 f_equal. lia.
    + intros [H1 H2]. change (run random (repeat Tick 1) s) with (update random s).
      rewrite update_queue, Hq by assumption. cbn [mbind option_bind]. unfold advance.
      replace (Queue.total q <=? Queue.progress q + 16) with true
        by (symmetry; apply Z.leb_le; lia).
      reflexivity.
  - assert (Hstep : Queue.progress q + 16 < Queue.total q ->
                    getQueue key (productionQueues (update random s))
                    = Some {| Queue.type := Queue.type q;
                              Queue.progress := Queue.progress q + 16;
                              Queue.total := Queue.total q |}).
    { intros H. rewrite update_queue, Hq by assumption. cbn [mbind option_bind].
      unfold advance.
      replace (Queue.total q <=? Queue.progress q + 16) with false
        by (symmetry; apply Z.leb_gt; lia).
      reflexivity. }
    assert (Hp' : 0 <= power (update random s)) by (rewrite update_power; exact Hp).
    split.
    + intros H. rewrite run_ticks.
      destruct (IH _ _ Hp' (Hstep ltac:(lia))) as [IH1 _].
      cbn [Queue.type Queue.progress Queue.total] in IH1.
      rewrite IH1 by lia. do 2 f_equal. lia.
    + intros [H1 H2]. rewrite run_ticks.
      destruct (IH _ _ Hp' (Hstep ltac:(lia))) as [_ IH2].
      cbn [Queue.type Queue.progress Queue.total] in IH2.
      apply IH2. lia.
Qed.

Lemma update_queues s :
  productionQueues (update random s)
  = productionQueues (production random (set_tick (tick s + 1) s)).
Proof. rewrite update_phases, queues_winLoss, queues_afterProduction. reflexivity. Qed.

Lemma queue_ok_advance q q' : queue_ok (F := F) q -> advance q = Some q' -> queue_ok (F := F) q'.
Proof.
  unfold advance. intros (Hp & Hm & Ht).
  destruct (Z.leb_spec (Queue.total q) (Queue.progress q + 16)); [discriminate|].
  intros [= <-]. unfold queue_ok. cbn [Queue.type Queue.progress Queue.total].
  split; [lia|]. split; [|exact Ht].
  rewrite <- Zplus_mod_idemp_l, Hm. reflexivity.
Qed.

Lemma queues_ok_all qs :
  queues_ok (F := F) qs
  <-> forall key q, getQueue key qs = Some q -> queue_ok (F := F) q.
Proof.
  unfold queues_ok, slot_ok. split.
  - intros [Hb Hf] [] q Hq; cbn [getQueue] in Hq; rewrite Hq in *; assumption.
  - intros H. split.
    + destruct (Queues.barracks qs) as [q|] eqn:Hq; [|exact I].
      apply (H barracks). exact Hq.
    + destruct (Queues.factory qs) as [q|] eqn:Hq; [|exact I].
      apply (H factory). exact Hq.
Qed.

Lemma queues_ok_update s :
  queues_ok (F := F) (productionQueues s) ->
  queues_ok (F := F) (productionQueues (update random s)).
Proof.
  rewrite !queues_ok_all.
  intros H key q'. rewrite update_queues.
  destruct (Z.leb_spec 0 (power s)) as [Hp|Hp].
  - rewrite (production_queue key (set_tick (tick s + 1) s)) by exact Hp.
    cbn [productionQueues set_tick].
    destruct (getQueue key (productionQueues s)) as [q|] eqn:Hq; [|discriminate].
    cbn [mbind option_bind]. apply queue_ok_advance, (H key), Hq.
  - unfold production. cbn [power set_tick].
    replace (0 <=? power s) with false by (symmetry; apply Z.leb_gt; exact Hp).
    apply H.
Qed.

Lemma buildTime_positive (t : EntityType) :
  0 < orZ (TypeDefinition.buildTime (DEFINITIONS (F := F) t)) 1000.
Proof. destruct t; cbn; lia. Qed.

Lemma queues_ok_queueUnit t key s :
  queues_ok (F := F) (productionQueues s) ->
  queues_ok (F := F) (productionQueues (queueUnit t key s)).
Proof.
  intros H. unfold queueUnit.
  destruct (credits s <? _); [rewrite queues_callMessage; exact H|].
  destruct (isSome _); [rewrite queues_callMessage; exact H|].
  destruct (negb _); [rewrite queues_callMessage; exact H|].
  rewrite queues_ok_all in *.
  cbn [productionQueues set_productionQueues set_credits].
  intros key' q'. rewrite getQueue_setQueue.
  destruct (bool_decide (key' = key)); [|apply H].
  intros [= <-]. unfold queue_ok. cbn [Queue.type Queue.progress Queue.total].
  pose proof (buildTime_positive t). repeat split; lia.
Qed.

(** X7.  An order in a production slot is always an order under way: in
    every state the engine reaches, the [progress] of a queued order is
    a multiple of 16 from 0 up to, but never reaching, its [total], and
    the [total] is the build time of its type in the catalog (1000 for a
    type that has none). *)
Theorem queued_orders_are_under_way (inputs : list (Input F)) :
  queues_ok (F := F) (productionQueues (run random inputs (construct random))).
Proof.
  induction inputs as [|i inputs IH] using rev_ind.
  - change (run random [] (construct random)) with (update random (initLevel random blank)).
    apply queues_ok_update.
    assert (H : productionQueues (initLevel random blank)
                = {| Queues.barracks := None; Queues.factory := None |})
      by (vm_compute; reflexivity).
    rewrite H. split; exact I.
  - rewrite run_snoc. set (s := run random inputs (construct random)) in *.
    destruct i.
    1: { change (step random Tick s) with (update random s).
         apply queues_ok_update, IH. }
    7: { change (step random (QueueUnit type buildingKey) s)
           with (queueUnit type buildingKey s).
         apply queues_ok_queueUnit, IH. }
    all: match goal with |- context [step random ?i ?s] =>
           assert (H : fixtures (step random i s) = fixtures s)
             by (apply fixtures_step; [discriminate | intros; discriminate]);
           apply fixtures_parts in H; destruct H as (_ & _ & _ & Hq);
           rewrite Hq; exact IH
         end.
Qed.

End Orders.
(** ** Orders and the buildings that complete them *)

Section Staff.

Context {F : Type} {N : Num F}.
Variable random : nat -> F.

Implicit Types (s : GameEngine F) (e : Entity F) (r u b : ref) (key : BuildingKey).

Lemma manned_frame key s s' :
  heap s' = heap s -> buildings s' = buildings s -> manned key s' = manned key s.
Proof. unfold manned, someEntity, holds. intros -> ->. reflexivity. Qed.

Lemma staffed_frame s s' :
  heap s' = heap s -> buildings s' = buildings s ->
  hasBuildings s' = hasBuildings s -> productionQueues s' = productionQueues s ->
  staffed s -> staffed s'.
Proof.
  intros Hh Hb Hs Hq H key. rewrite Hs, Hq, (manned_frame key s s' Hh Hb). apply H.
Qed.

Ltac frame := eapply staffed_frame; [..| eassumption]; reflexivity.

Lemma manned_modify key r f s :
  (forall e, kind (f e) = kind e) -> manned key (modify r f s) = manned key s.
Proof.
  intros Hf. unfold manned, someEntity. cbn [buildings modify set_heap].
  induction (buildings s) as [|b l IH]; [reflexivity|]. cbn [existsb].
  rewrite IH. f_equal. apply holds_modify. intros e. apply isA_kind, Hf.
Qed.

Lemma staffed_modify r f s :
  (forall e, kind (f e) = kind e) -> staffed s -> staffed (modify r f s).
Proof. intros Hf H key. rewrite (manned_modify key r f s Hf). apply H. Qed.

Lemma staffed_callMessage msg s : staffed s -> staffed (callMessage msg s).
Proof. intros H. unfold callMessage. destruct (onMessage s); [frame | exact H]. Qed.

(** [callUpdateUI] brings the snapshot up to date. *)
Lemma staffed_callUpdateUI s : staffed s -> staffed (callUpdateUI s).
Proof.
  intros H. unfold callUpdateUI. destruct (onUpdateUI s); [|exact H].
  intros key [Hs|Hq].
  - destruct key; exact Hs.
  - apply (H key). right. exact Hq.
Qed.

Lemma staffed_calculatePower s : staffed s -> staffed (calculatePower s).
Proof.
  intros H. unfold calculatePower. destruct (fold_left _ _ _).
  apply staffed_callUpdateUI. frame.
Qed.

Lemma staffed_fireProjectile src tgt dmg s :
  staffed s -> staffed (fireProjectile src tgt dmg s).
Proof. intros H. unfold fireProjectile. destruct (heap s !! src); [frame | exact H]. Qed.

Lemma manned_alloc key e s : manned key s = true -> manned key (alloc e s).2 = true.
Proof.
  unfold manned, someEntity. cbn [buildings alloc snd set_heap].
  rewrite !existsb_exists. intros (b & Hin & Hb).
  exists b. split; [exact Hin|]. apply (holds_alloc _ e s b Hb).
Qed.

Lemma staffed_alloc e s : staffed s -> staffed (alloc e s).2.
Proof. intros H key Hk. apply manned_alloc, H, Hk. Qed.

Lemma staffed_createEntity x y t tm s :
  staffed s -> staffed (createEntity random x y t tm s).2.
Proof.
  intros H. unfold createEntity, mathRandom. cbv beta iota zeta.
  apply staffed_alloc. frame.
Qed.

(** One more building. *)
Lemma staffed_build b s : staffed s -> staffed (set_buildings (buildings s ++ [b]) s).
Proof.
  intros H key Hk. specialize (H key Hk). revert H.
  unfold manned, someEntity. cbn [buildings set_buildings].
  rewrite existsb_app. intros H.
  change (existsb (holds (set_buildings (buildings s ++ [b]) s)
                     (isA (spawnerType key) player)) (buildings s))
    with (existsb (holds s (isA (spawnerType key) player)) (buildings s)).
  rewrite H. reflexivity.
Qed.

(** A slot that was occupied is written. *)
Lemma staffed_requeue key v q s :
  getQueue key (productionQueues s) = Some q ->
  staffed s ->
  staffed (set_productionQueues (setQueue key v (productionQueues s)) s).
Proof.
  intros Hq H key' [Hs|Hq'].
  - apply (H key'). left. exact Hs.
  - apply (H key'). right.
    destruct key, key'; cbn in Hq'; try exact Hq'; cbn in Hq |- *; rewrite Hq;
      reflexivity.
Qed.

(** A slot is cleared. *)
Lemma staffed_clear key s :
  staffed s ->
  staffed (set_productionQueues (setQueue key None (productionQueues s)) s).
Proof.
  intros H key' [Hs|Hq'].
  - apply (H key'). left. exact Hs.
  - apply (H key'). right.
    destruct key, key'; cbn in Hq'; try exact Hq'; discriminate.
Qed.

Ltac unframe :=
  match goal with
  | |- staffed (set_particles _ ?x) => cut (staffed x); [intros; frame|]
  | |- staffed (set_projectiles _ ?x) => cut (staffed x); [intros; frame|]
  | |- staffed (set_units _ ?x) => cut (staffed x); [intros; frame|]
  | |- staffed (set_credits _ ?x) => cut (staffed x); [intros; frame|]
  | |- staffed (set_buildMode _ ?x) => cut (staffed x); [intros; frame|]
  | |- staffed (set_wave _ ?x) => cut (staffed x); [intros; frame|]
  | |- staffed (set_tick _ ?x) => cut (staffed x); [intros; frame|]
  | |- staffed (set_rng _ ?x) => cut (staffed x); [intros; frame|]
  | |- staffed (set_orePatches _ ?x) => cut (staffed x); [intros; frame|]
  | |- staffed (set_log _ ?x) => cut (staffed x); [intros; frame|]
  | |- staffed (set_isDraggingSelection _ ?x) => cut (staffed x); [intros; frame|]
  | |- staffed (set_selectionStart _ ?x) => cut (staffed x); [intros; frame|]
  end.

Ltac keep :=
  repeat first
    [ assumption
    | apply staffed_callMessage
    | apply staffed_callUpdateUI
    | apply staffed_calculatePower
    | apply staffed_fireProjectile
    | unframe
    | apply staffed_modify; [intros ?; reflexivity |] ].

Ltac cases :=
  repeat match goal with
    | |- staffed (match ?x with _ => _ end) => destruct x eqn:?
    | |- staffed (snd (match ?x with _ => _ end)) => destruct x eqn:?
    | |- staffed (match ?x with _ => _ end).2 => destruct x eqn:?
    end.

Lemma staffed_updateHarvester u s : staffed s -> staffed (updateHarvester u s).
Proof. intros H. unfold updateHarvester. cases; keep. Qed.

Lemma staffed_cannonStep b s : staffed s -> staffed (cannonStep b s).
Proof. intros H. unfold cannonStep. cases; keep. Qed.

Lemma staffed_unitStep u s : staffed s -> staffed (unitStep u s).
Proof.
  intros H. rewrite unitStep_afterHarvest.
  assert (H1 : staffed (harvesterLogic u s)).
  { unfold harvesterLogic. cases; auto using staffed_updateHarvester. }
  revert H1. generalize (harvesterLogic u s). clear H. intros s1 H1.
  assert (H2 : staffed (aiLogic u s1)) by (unfold aiLogic; cases; keep).
  revert H2. generalize (aiLogic u s1). clear H1. intros s2 H2.
  assert (H3 : staffed (autoTarget u s2)) by (unfold autoTarget; cases; keep).
  revert H3. generalize (autoTarget u s2). clear H2. intros s3 H3.
  assert (H4 : staffed (attack u s3).2) by (unfold attack; cases; simpl; keep).
  revert H4. generalize (attack u s3). clear H3. intros [mt s4] H4. cbn [fst snd] in *.
  assert (H5 : staffed (coolDown u s4)) by (unfold coolDown; cases; keep).
  revert H5. generalize (coolDown u s4). clear H4. intros s5 H5.
  unfold move. cases; keep.
Qed.

Lemma staffed_projectileStep p s : staffed s -> staffed (projectileStep p s).2.
Proof.
  intros H. unfold projectileStep. cases; simpl; [|assumption..].
  unframe.
  match goal with |- context [if ?c then _ else _] => destruct c end; keep.
Qed.

Lemma staffed_resolveProjectiles s : staffed s -> staffed (resolveProjectiles s).
Proof.
  intros H. unfold resolveProjectiles.
  pose proof (projectileLoop_preserves staffed (projectiles s) s
                staffed_projectileStep H) as H1.
  destruct (projectileLoop (projectiles s) s) as [ps s1]. simpl in H1. frame.
Qed.

Lemma sheltered_staff key e :
  isA (spawnerType key) player e = true -> fairGame e = false.
Proof.
  unfold isA, fairGame. intros H. apply andb_true_iff in H as [Ht Htm].
  apply bool_decide_eq_true in Ht. apply bool_decide_eq_true in Htm.
  rewrite Ht, Htm. destruct key; reflexivity.
Qed.

(** The sweep takes none of the player's barracks and factories: they
    are never hit. *)
Lemma staffed_cleanup s : Safe s -> staffed s -> staffed (cleanup s).
Proof.
  intros HS H key Hk. specialize (H key Hk). revert H.
  unfold manned, someEntity. rewrite !existsb_exists.
  intros (b & Hin & Hb). exists b. split; [|exact Hb].
  unfold cleanup. cbn [buildings set_buildings set_particles set_units].
  apply List.filter_In. split; [exact Hin|].
  unfold holds in *. cbn [heap set_units].
  destruct (heap s !! b) as [e|] eqn:He; [|discriminate].
  destruct (safe_sheltered _ HS b e He (sheltered_staff key e Hb)) as [_ Hd].
  unfold alive. rewrite Hd. reflexivity.
Qed.

Lemma staffed_spawnWaveUnit i s : staffed s -> staffed (spawnWaveUnit random i s).
Proof.
  intros H. unfold spawnWaveUnit, mathRandom. cbv beta iota zeta.
  match goal with |- context [createEntity random ?x ?y ?t ?tm ?s1] =>
    assert (H1 : staffed s1) by frame;
    pose proof (staffed_createEntity x y t tm s1 H1);
    destruct (createEntity random x y t tm s1) end.
  simpl in *. frame.
Qed.

Lemma staffed_waveLogic s : staffed s -> staffed (waveLogic random s).
Proof.
  intros H. unfold waveLogic. cases; [|assumption].
  apply staffed_callUpdateUI. unframe.
  apply forEach_preserves; [intros; apply staffed_spawnWaveUnit; assumption|]. keep.
Qed.

Lemma staffed_winLoss s : staffed s -> staffed (winLoss s).
Proof. intros H. unfold winLoss. cases; keep. Qed.

Lemma staffed_productionStep key s : staffed s -> staffed (productionStep random key s).
Proof.
  intros H. unfold productionStep.
  destruct (getQueue key (productionQueues s)) as [q|] eqn:Hq; [|assumption].
  match goal with |- context [set_productionQueues ?v s] =>
    assert (H1 : staffed (set_productionQueues v s))
      by (eapply staffed_requeue; eassumption);
    generalize dependent (set_productionQueues v s) end.
  intros s1 H1. destruct (_ <=? _).
  - apply staffed_callUpdateUI, staffed_clear.
    destruct (findEntity _ _ _); [|assumption].
    destruct (heap s1 !! _); [|assumption].
    match goal with |- context [createEntity random ?x ?y ?t ?tm s1] =>
      pose proof (staffed_createEntity x y t tm s1 H1) as H2;
      destruct (createEntity random x y t tm s1) end.
    simpl in H2. apply staffed_callMessage. frame.
  - cases; keep.
Qed.

Lemma staffed_production s : staffed s -> staffed (production random s).
Proof.
  intros H. unfold production. destruct (0 <=? power s); [|assumption].
  apply forEach_preserves; auto using staffed_productionStep.
Qed.

Lemma staffed_update s : Safe s -> staffed s -> staffed (update random s).
Proof.
  intros HS H. unfold update.
  apply staffed_winLoss, staffed_waveLogic, staffed_cleanup.
  - apply Safe_resolveProjectiles.
    apply forEach_preserves; [intros; apply Safe_unitStep; assumption|].
    apply forEach_preserves; [intros; apply Safe_cannonStep; assumption|].
    apply Safe_production. eapply Safe_frame; [..| exact HS]; reflexivity.
  - apply staffed_resolveProjectiles.
    apply forEach_preserves; [intros; apply staffed_unitStep; assumption|].
    apply forEach_preserves; [intros; apply staffed_cannonStep; assumption|].
    apply staffed_production. frame.
Qed.

Lemma staffed_selectUnits s : staffed s -> staffed (selectUnits s).
Proof.
  intros H. unfold selectUnits. apply staffed_callUpdateUI.
  apply forEach_preserves; [|assumption].
  clear H. intros u s' H. cases; keep.
Qed.

Lemma staffed_commandUnit target u s : staffed s -> staffed (commandUnit target u s).
Proof. intros H. unfold commandUnit. cases; keep; cases; keep. Qed.

Lemma staffed_issueCommand s : staffed s -> staffed (issueCommand s).
Proof.
  intros H. unfold issueCommand.
  apply forEach_preserves; [|apply staffed_callUpdateUI; frame].
  intros; apply staffed_commandUnit; assumption.
Qed.

Lemma staffed_tryPlaceBuilding s : staffed s -> staffed (tryPlaceBuilding random s).
Proof.
  intros H. unfold tryPlaceBuilding.
  destruct (buildMode s) as [mode|]; [|assumption].
  destruct (_ <? _); [assumption|]. unfold checkRect. cbv beta iota zeta.
  destruct (negb _); [|keep].
  match goal with |- context [createEntity random ?x ?y ?t ?tm ?s1] =>
    assert (H1 : staffed s1) by frame;
    pose proof (staffed_createEntity x y t tm s1 H1) as H2;
    destruct (createEntity random x y t tm s1) as [b s2] end.
  cbn [snd] in H2. apply (staffed_build b) in H2.
  apply staffed_callUpdateUI, staffed_calculatePower. unframe.
  destruct (bool_decide _); [|assumption].
  match goal with |- context [heap ?s3 !! b] => destruct (heap s3 !! b) end;
    [|assumption].
  match goal with |- context [createEntity random ?x ?y ?t ?tm ?s1] =>
    pose proof (staffed_createEntity x y t tm s1 H2) as H3;
    destruct (createEntity random x y t tm s1) end.
  cbn [snd] in H3. frame.
Qed.

(** An order is taken only with the snapshot's consent. *)
Lemma staffed_queueUnit t key s : staffed s -> staffed (queueUnit t key s).
Proof.
  intros H. unfold queueUnit.
  destruct (_ <? _); [keep|]. destruct (isSome _); [keep|].
  destruct (getHasBuilding key (hasBuildings s)) eqn:Hs; cbn [negb]; [|keep].
  intros key' [Hs'|Hq'].
  - apply (H key'). left. exact Hs'.
  - destruct key, key'; cbn in Hq';
      first [ apply (H barracks); left; exact Hs
            | apply (H factory); left; exact Hs
            | apply (H barracks); right; exact Hq'
            | apply (H factory); right; exact Hq' ].
Qed.

Lemma staffed_step i s : Safe s -> staffed s -> staffed (step random i s).
Proof.
  intros HS H. destruct i; cbn [step].
  - apply staffed_update; assumption.
  - frame.
  - frame.
  - unfold handleMouseDownLeft.
    destruct (isSome _); [apply staffed_tryPlaceBuilding, H | frame].
  - unfold handleMouseUpLeft. destruct (isDraggingSelection s); [|assumption].
    apply staffed_selectUnits. frame.
  - apply staffed_issueCommand, H.
  - frame.
  - apply staffed_queueUnit, H.
Qed.

Lemma staffed_blank : staffed (blank (F := F)).
Proof. intros key [H|H]; destruct key; discriminate. Qed.

Lemma staffed_initLevel s : staffed s -> staffed (initLevel random s).
Proof.
  intros H. unfold initLevel.
  match goal with |- context [createEntity random ?x ?y ?t ?tm s] =>
    pose proof (staffed_createEntity x y t tm s H) as H2;
    destruct (createEntity random x y t tm s) as [hq s1] end.
  cbn [snd] in H2. apply (staffed_build hq) in H2.
  apply staffed_calculatePower.
  apply forEach_preserves; [|exact H2].
  intros _ s2 H3. unfold mathRandom. cbv beta iota zeta. keep.
Qed.

(** Every state the engine reaches is [Safe] and [staffed]. *)
Lemma staffed_run (inputs : list (Input F)) :
  Safe (run random inputs (construct random))
  /\ staffed (run random inputs (construct random)).
Proof.
  induction inputs as [|i inputs [IH1 IH2]] using rev_ind.
  - assert (HS : Safe (initLevel random (blank (F := F))))
      by apply Safe_initLevel, Safe_blank.
    split; [apply Safe_update, HS|].
    apply staffed_update; [exact HS | apply staffed_initLevel, staffed_blank].
  - rewrite run_snoc. split; [apply Safe_step, IH1 | apply staffed_step; assumption].
Qed.

(** *** What a completed order leaves behind *)

Lemma manned_find key s :
  manned key s = true ->
  exists b sp,
    findEntity s (buildings s) (isA (spawnerType key) player) = Some b
    /\ heap s !! b = Some sp.
Proof.
  unfold manned, someEntity, findEntity. intros H.
  destruct (List.find _ _) as [b|] eqn:Hf.
  - apply List.find_some in Hf as [_ Hb]. unfold holds in Hb.
    destruct (heap s !! b) as [sp|] eqn:He; [|discriminate]. exists b, sp. auto.
  - apply existsb_exists in H as (b & Hin & Hb).
    rewrite (List.find_none _ _ Hf b Hin) in Hb. discriminate.
Qed.

Lemma holds_extends (p : Entity F -> bool) s s' h r :
  heap s' = heap s ++ h -> (r < length (heap s))%nat -> holds s' p r = holds s p r.
Proof.
  intros Hh Hr. unfold holds.
  destruct (heap s !! r) as [e|] eqn:He.
  - assert (H : heap s' !! r = Some e)
      by (rewrite Hh; apply lookup_app_l_Some; exact He).
    rewrite H. reflexivity.
  - apply lookup_ge_None in He. lia.
Qed.

Lemma findEntity_extends (p : Entity F -> bool) s s' h l :
  heap s' = heap s ++ h -> Forall (fun r => (r < length (heap s))%nat) l ->
  findEntity s' l p = findEntity s l p.
Proof.
  intros Hh Hl. unfold findEntity.
  induction Hl as [|r l Hr Hl IH]; [reflexivity|]. cbn [List.find].
  rewrite (holds_extends p s s' h r Hh Hr), IH. reflexivity.
Qed.

(** The step of a slot whose order completes, its building in place. *)
Lemma productionStep_delivers key q b sp s :
  getQueue key (productionQueues s) = Some q ->
  Queue.total q <= Queue.progress q + 16 ->
  findEntity s (buildings s) (isA (spawnerType key) player) = Some b ->
  heap s !! b = Some sp ->
  heap (productionStep random key s)
  = heap s
    ++ [newEntity (Vector.x (Entity.pos sp)) (Vector.y (Entity.pos sp) + ofZ 50)%js
          (Queue.type q) player (random (rng s))]
  /\ units (productionStep random key s) = units s ++ [length (heap s)].
Proof.
  intros Hq Hdone Hf Hb. unfold productionStep. rewrite Hq.
  apply Z.leb_le in Hdone. rewrite Hdone.
  change (findEntity (set_productionQueues ?v s)
            (buildings (set_productionQueues ?v s)) ?p)
    with (findEntity s (buildings s) p).
  rewrite Hf.
  change (heap (set_productionQueues ?v s) !! b) with (heap s !! b). rewrite Hb.
  unfold createEntity, mathRandom, alloc, callMessage, callUpdateUI.
  cbv beta iota zeta.
  repeat match goal with
    | |- context [if ?c then _ else _] => destruct c
    end; split; reflexivity.
Qed.

(** Any step of a slot only adds to the heap and to [units]. *)
Lemma productionStep_extends key s :
  exists h us,
    heap (productionStep random key s) = heap s ++ h
    /\ units (productionStep random key s) = units s ++ us
    /\ buildings (productionStep random key s) = buildings s.
Proof.
  unfold productionStep.
  destruct (getQueue key (productionQueues s)) as [q|].
  2: { exists [], []. rewrite !app_nil_r. auto. }
  destruct (_ <=? _).
  2: { exists [], []. rewrite !app_nil_r. unfold callUpdateUI.
       repeat match goal with
         | |- context [if ?c then _ else _] => destruct c
         end; auto. }
  destruct (findEntity _ _ _) as [b|].
  2: { exists [], []. rewrite !app_nil_r. unfold callUpdateUI.
       destruct (onUpdateUI _); auto. }
  match goal with |- context [heap ?x !! b] => destruct (heap x !! b) as [sp|] end.
  2: { exists [], []. rewrite !app_nil_r. unfold callUpdateUI.
       destruct (onUpdateUI _); auto. }
  unfold createEntity, mathRandom, alloc, callMessage, callUpdateUI.
  cbv beta iota zeta.
  eexists [_], [_].
  repeat match goal with
    | |- context [if ?c then _ else _] => destruct c
    end; repeat split; reflexivity.
Qed.

(** X24.  An order always finds its building.  In every state the
    engine reaches, an occupied production slot has its building: the
    player's first barracks (or factory) in [buildings] exists; the
    snapshot [queueUnit] consults is never ahead of [buildings], and the
    player's barracks and factories are never swept.  So the order that
    completes in the production phase of the next tick (power not
    negative) is delivered: the slot is emptied and a new unit of the
    ordered type, the player's, is in [units], created 50 below that
    building. *)
Theorem completed_orders_are_delivered (inputs : list (Input F)) key q :
  let s := run random inputs (construct random) in
  getQueue key (productionQueues s) = Some q ->
  exists b sp,
    findEntity s (buildings s) (isA (spawnerType key) player) = Some b
    /\ heap s !! b = Some sp
    /\ (0 <= power s -> Queue.total q <= Queue.progress q + 16 ->
        let s1 := production random (set_tick (tick s + 1) s) in
        getQueue key (productionQueues s1) = None
        /\ exists u e,
             In u (units s1)
             /\ (length (heap s) <= u)%nat
             /\ heap s1 !! u = Some e
             /\ Entity.type e = Queue.type q
             /\ Entity.team e = player
             /\ Entity.pos e
                = Vector.mk (Vector.x (Entity.pos sp))
                            (Vector.y (Entity.pos sp) + ofZ 50)%js).
Proof.
  intros s Hq. destruct (staffed_run inputs) as [_ HK]. fold s in HK.
  assert (HI : Inv s) by apply Inv_run, Inv_construct.
  assert (Hm : manned key s = true) by (apply HK; right; rewrite Hq; reflexivity).
  destruct (manned_find key s Hm) as (b & sp & Hf & Hb).
  exists b, sp. split; [exact Hf|]. split; [exact Hb|].
  intros Hp Hdone. cbv zeta. split.
  - rewrite (production_queue random key (set_tick (tick s + 1) s) Hp).
    change (productionQueues (set_tick (tick s + 1) s)) with (productionQueues s).
    rewrite Hq. cbn [mbind option_bind]. unfold advance.
    apply Z.leb_le in Hdone. rewrite Hdone. reflexivity.
  - unfold production.
    change (power (set_tick (tick s + 1) s)) with (power s).
    replace (0 <=? power s) with true by (symmetry; apply Z.leb_le; exact Hp).
    unfold forEach. cbn [fold_left].
    set (s0 := set_tick (tick s + 1) s).
    destruct key.
    + destruct (productionStep_delivers barracks q b sp s0 Hq Hdone Hf Hb) as [Hh Hu].
      destruct (productionStep_extends factory (productionStep random barracks s0))
        as (h & us & Hh2 & Hu2 & _).
      destruct (newEntity_fields (Vector.x (Entity.pos sp))
                  (Vector.y (Entity.pos sp) + ofZ 50)%js (Queue.type q) player
                  (random (rng s0))) as (Hpos & Hty & Htm & _).
      eexists (length (heap s)), _. split; [|split; [|split; [|split; [|split]]]].
      * rewrite Hu2, Hu. apply in_or_app. left. apply in_or_app. right. left.
        reflexivity.
      * lia.
      * rewrite Hh2, Hh. apply lookup_app_l_Some.
        apply list_lookup_middle. reflexivity.
      * exact Hty.
      * exact Htm.
      * exact Hpos.
    + destruct (productionStep_extends barracks s0) as (h & us & Hh1 & Hu1 & Hb1).
      set (sb := productionStep random barracks s0) in *.
      assert (Hq1 : getQueue factory (productionQueues sb) = Some q).
      { unfold sb. rewrite productionStep_queues.
        destruct (getQueue barracks (productionQueues s0)); exact Hq. }
      assert (Hf1 : findEntity sb (buildings sb) (isA (spawnerType factory) player)
                    = Some b).
      { rewrite Hb1. rewrite (findEntity_extends _ s0 sb h _ Hh1); [exact Hf|].
        apply HI. }
      assert (Hb2 : heap sb !! b = Some sp).
      { rewrite Hh1. apply lookup_app_l_Some. exact Hb. }
      destruct (productionStep_delivers factory q b sp sb Hq1 Hdone Hf1 Hb2) as [Hh Hu].
      destruct (newEntity_fields (Vector.x (Entity.pos sp))
                  (Vector.y (Entity.pos sp) + ofZ 50)%js (Queue.type q) player
                  (random (rng sb))) as (Hpos & Hty & Htm & _).
      eexists (length (heap sb)), _. split; [|split; [|split; [|split; [|split]]]].
      * rewrite Hu. apply in_or_app. right. left. reflexivity.
      * rewrite Hh1, length_app. change (heap s0) with (heap s). lia.
      * rewrite Hh. apply list_lookup_middle. reflexivity.
      * exact Hty.
      * exact Htm.
      * exact Hpos.
Qed.

End Staff.

(** ** The power balance ([calculatePower]) *)

Section Power.

Context {F : Type} {N : Num F}.

Implicit Types (s : GameEngine F) (e : Entity F) (r u b : ref).

(** The two accumulators of the loop, against the plain sum. *)
Lemma calculatePower_loop s (l : list ref) (produced consumed : Z) :
  let '(produced', consumed') :=
    fold_left
      (fun '(produced, consumed) b =>
         match heap s !! b with
         | Some e =>
             let def := DEFINITIONS (F := F) (Entity.type e) in
             if 0 <? TypeDefinition.power def
             then (produced + TypeDefinition.power def, consumed)
             else (produced, consumed + Z.abs (TypeDefinition.power def))
         | None => (produced, consumed)
         end)
      (List.filter (holds s (fun e => bool_decide (Entity.team e = player))) l)
      (produced, consumed) in
  produced' - consumed' = produced - consumed + foldr Z.add 0 (map (supply s) l).
Proof.
  revert produced consumed. induction l as [|b l IH]; intros produced consumed.
  - cbn. lia.
  - cbn [List.filter map foldr]. unfold holds at 1, supply at 1.
    destruct (heap s !! b) as [e|] eqn:He.
    + destruct (bool_decide (Entity.team e = player)).
      * cbn [fold_left]. rewrite He. cbv zeta.
        destruct (Z.ltb_spec 0 (TypeDefinition.power (DEFINITIONS (Entity.type e)))).
        -- specialize (IH (produced + TypeDefinition.power (DEFINITIONS (Entity.type e)))
                         consumed).
           destruct (fold_left _ _ _). lia.
        -- specialize (IH produced
                         (consumed + Z.abs (TypeDefinition.power (DEFINITIONS (Entity.type e))))).
           destruct (fold_left _ _ _). lia.
      * specialize (IH produced consumed). destruct (fold_left _ _ _). lia.
    + specialize (IH produced consumed). destruct (fold_left _ _ _). lia.
Qed.

Lemma power_calculatePower s : power (calculatePower s) = balance s.
Proof.
  unfold calculatePower, balance.
  pose proof (calculatePower_loop s (buildings s) 0 0) as H.
  destruct (fold_left _ _ _) as [produced consumed].
  unfold callUpdateUI. destruct (onUpdateUI _); cbn [power set_hasBuildings set_power]; lia.
Qed.

Lemma balance_frame s s' :
  heap s' = heap s -> buildings s' = buildings s -> balance s' = balance s.
Proof. unfold balance, supply. intros -> ->. reflexivity. Qed.

(** X8.  [calculatePower] sets [power] to the sum, over the player's
    buildings in [buildings], of the [power] of their type in the
    catalog (what the two accumulators [produced] and [consumed] amount
    to; the enemy's buildings do not count), reports to the UI, and
    changes nothing else. *)
Theorem power_is_the_sum_of_the_catalog s :
  calculatePower s = callUpdateUI (set_power (balance s) s).
Proof.
  unfold calculatePower, balance.
  pose proof (calculatePower_loop s (buildings s) 0 0) as H.
  destruct (fold_left _ _ _) as [produced consumed].
  replace (produced - consumed) with (foldr Z.add 0 (map (supply s) (buildings s))) by lia.
  reflexivity.
Qed.

End Power.

(** ** Waves ([waveLogic]) *)

Section Waves.

Context {F : Type} {N : Num F}.
Variable random : nat -> F.

Implicit Types (s : GameEngine F) (e : Entity F) (r u b : ref).

Lemma spawnWaveUnit_spec i s :
  exists e,
    spawnWaveUnit random (Z.of_nat i) s
    = set_units (units s ++ [length (heap s)])
        (set_heap (heap s ++ [e]) (set_rng (S (S (rng s))) s))
    /\ raider i e.
Proof.
  unfold spawnWaveUnit, createEntity, mathRandom, alloc. cbv beta iota zeta.
  cbn [rng set_rng heap units set_heap].
  eexists. split; [reflexivity|].
  match goal with |- raider i (newEntity ?x ?y ?t ?tm ?id) =>
    destruct (newEntity_fields x y t tm id)
      as (Hp & Ht & Htm & Hhp & Hmax & Hd & Htu & Htp & _) end.
  unfold raider. rewrite Hp, Ht, Htm, Hhp, Hmax, Hd, Htu, Htp. repeat split.
Qed.

Lemma forEach_cons {A S} (a : A) (l : list A) (body : A -> S -> S) (x : S) :
  forEach (a :: l) body x = forEach l body (body a x).
Proof. reflexivity. Qed.

(** The loop of [waveLogic] from index [k]. *)
Lemma spawn_loop (n k : nat) s :
  exists fresh,
    length fresh = n
    /\ forEach (map Z.of_nat (seq k n)) (spawnWaveUnit random) s
       = set_units (units s ++ seq (length (heap s)) n)
           (set_heap (heap s ++ fresh) (set_rng (rng s + 2 * n)%nat s))
    /\ forall i e, fresh !! i = Some e -> raider (k + i) e.
Proof.
  revert k s. induction n as [|n IH]; intros k s.
  - exists []. split; [reflexivity|]. split.
    + cbn [seq map forEach fold_left]. unfold forEach. cbn [fold_left].
      rewrite !app_nil_r, Nat.add_0_r. destruct s; reflexivity.
    + intros i e H. discriminate.
  - cbn [seq map]. rewrite forEach_cons.
    destruct (spawnWaveUnit_spec k s) as (e & -> & He).
    destruct (IH (S k) (set_units (units s ++ [length (heap s)])
                          (set_heap (heap s ++ [e]) (set_rng (S (S (rng s))) s))))
      as (fresh & Hlen & -> & Hfresh).
    exists (e :: fresh). split; [cbn; lia|]. split.
    + cbn [units heap rng set_units set_heap set_rng].
      rewrite length_app. cbn [length].
      rewrite <- !app_assoc. cbn [app].
      replace (length (heap s) + 1)%nat with (S (length (heap s))) by lia.
      replace (S (S (rng s)) + 2 * n)%nat with (rng s + 2 * S n)%nat by lia.
      reflexivity.
    + intros [|i] e' H.
      * injection H as <-. rewrite Nat.add_0_r. exact He.
      * replace (k + S i)%nat with (S k + i)%nat by lia. apply Hfresh, H.
Qed.

(** X9.  A wave is due on every tick counter that is a positive
    multiple of 5400, and only then.  It creates [wave * 3 / 2 + 2] new
    enemy units (2000 to the east, alive, at full hit points, with no
    target yet, every third one a tank and the others riflemen),
    appends them to [units], draws two random numbers for each, and
    moves the wave counter on by one; on any other tick [waveLogic]
    changes nothing. *)
Theorem wave_spawns_its_raiders s :
  (tick s mod 5400 = 0 -> 0 < tick s ->
   exists fresh,
     length fresh = Z.to_nat (wave s * 3 / 2 + 2)
     /\ heap (waveLogic random s) = heap s ++ fresh
     /\ units (waveLogic random s)
        = units s ++ seq (length (heap s)) (length fresh)
     /\ (forall i e, fresh !! i = Some e -> raider i e)
     /\ wave (waveLogic random s) = wave s + 1
     /\ rng (waveLogic random s) = (rng s + 2 * length fresh)%nat
     /\ buildings (waveLogic random s) = buildings s)
  /\ (tick s mod 5400 <> 0 \/ tick s <= 0 -> waveLogic random s = s).
Proof.
  split.
  - intros Hm Hp. unfold waveLogic.
    replace (tick s mod 5400 =? 0) with true by (symmetry; apply Z.eqb_eq; exact Hm).
    replace (0 <? tick s) with true by (symmetry; apply Z.ltb_lt; exact Hp).
    cbn [andb]. cbv zeta.
    set (s1 := callMessage _ s).
    assert (H1 : heap s1 = heap s /\ units s1 = units s /\ wave s1 = wave s
                 /\ rng s1 = rng s /\ buildings s1 = buildings s).
    { unfold s1, callMessage. destruct (onMessage s); repeat split. }
    destruct H1 as (Hh & Hu & Hw & Hr & Hb).
    destruct (spawn_loop (Z.to_nat (wave s1 * 3 / 2 + 2)) 0 s1)
      as (fresh & Hlen & -> & Hfresh).
    exists fresh. rewrite Hw in Hlen.
    unfold callUpdateUI.
    destruct (onUpdateUI _);
      cbn [heap units wave rng buildings set_hasBuildings set_wave set_units
           set_heap set_rng];
      rewrite Hh, Hu, Hw, Hr, Hb, Hlen;
      (split; [reflexivity|]); (split; [reflexivity|]); (split; [reflexivity|]);
      (split; [exact Hfresh|]); repeat split.
  - intros H. unfold waveLogic.
    destruct (Z.eqb_spec (tick s mod 5400) 0) as [H0|H0]; [|reflexivity].
    destruct (Z.ltb_spec 0 (tick s)); [|reflexivity].
    exfalso. destruct H; lia.
Qed.

End Waves.

(** ** Placement ([tryPlaceBuilding]) *)

Section Placement.

Context {F : Type} {N : Num F}.
Variable random : nat -> F.

Implicit Types (s : GameEngine F) (e : Entity F) (r u b : ref).

Lemma lookup_fresh (h : list (Entity F)) e rest :
  (h ++ e :: rest) !! length h = Some e.
Proof. rewrite lookup_app_r by reflexivity. rewrite Nat.sub_diag. reflexivity. Qed.

(** X10.  An accepted placement.  With the funds for it and no
    collision, [tryPlaceBuilding] deducts exactly the cost, leaves build
    mode, and appends one new building of the player to [buildings]: of
    the chosen type, at full hit points, centred on its footprint laid
    from the corner of the tile under the cursor.  A refinery also
    brings one harvester, 60 below its centre, appended to [units]; no
    other type adds a unit.  The power balance is recomputed over the
    new list of buildings. *)
Theorem placement_builds_at_the_site mode s :
  buildMode s = Some mode ->
  TypeDefinition.cost (DEFINITIONS (F := F) mode) <= credits s ->
  collision (DEFINITIONS mode) s = false ->
  let s' := tryPlaceBuilding random s in
  let placed :=
    newEntity (Vector.x (site mode s)) (Vector.y (site mode s)) mode player
      (random (rng s)) in
  credits s' = credits s - TypeDefinition.cost (DEFINITIONS (F := F) mode)
  /\ buildMode s' = None
  /\ buildings s' = buildings s ++ [length (heap s)]
  /\ Entity.pos placed = site mode s
  /\ Entity.hp placed = TypeDefinition.hp (DEFINITIONS (F := F) mode)
  /\ (mode <> REFINERY -> heap s' = heap s ++ [placed] /\ units s' = units s)
  /\ (mode = REFINERY ->
      heap s'
      = heap s
        ++ [placed;
            newEntity (Vector.x (site mode s))
              (Vector.y (site mode s) + ofZ 60)%js HARVESTER player
              (random (S (rng s)))]
      /\ units s' = units s ++ [S (length (heap s))])
  /\ power s' = balance s'.
Proof.
  intros Hmode Hfunds Hfree. cbv zeta.
  set (placed := newEntity (Vector.x (site mode s)) (Vector.y (site mode s)) mode
                   player (random (rng s))).
  destruct (newEntity_fields (Vector.x (site mode s)) (Vector.y (site mode s))
              mode player (random (rng s))) as (Hpos & _ & _ & Hhp & _).
  fold placed in Hpos, Hhp.
  assert (Hsite : Entity.pos placed = site mode s)
    by (rewrite Hpos; destruct (site mode s); reflexivity).
  assert (Hs : exists x,
             tryPlaceBuilding random s = callUpdateUI (calculatePower x)
             /\ credits x = credits s - TypeDefinition.cost (DEFINITIONS (F := F) mode)
             /\ buildMode x = None
             /\ buildings x = buildings s ++ [length (heap s)]
             /\ heap x
                = heap s
                  ++ placed
                     :: (if bool_decide (mode = REFINERY)
                         then [newEntity (Vector.x (site mode s))
                                 (Vector.y (site mode s) + ofZ 60)%js HARVESTER
                                 player (random (S (rng s)))]
                         else [])
             /\ units x
                = units s
                  ++ (if bool_decide (mode = REFINERY)
                      then [S (length (heap s))] else [])).
  { unfold tryPlaceBuilding. rewrite Hmode.
    replace (credits s <? TypeDefinition.cost (DEFINITIONS mode)) with false
      by (symmetry; apply Z.ltb_ge; exact Hfunds).
    unfold placed in *. unfold site in *.
    destruct (checkRect (DEFINITIONS mode) s) as [[[cx cy] cw] ch].
    rewrite Hfree. cbn [negb Vector.x Vector.y] in *.
    unfold createEntity, mathRandom, alloc. cbv beta iota zeta.
    cbn [rng set_rng heap set_heap set_credits buildings set_buildings credits].
    destruct (bool_decide (mode = REFINERY)).
    - rewrite lookup_fresh. rewrite Hsite. cbn [Vector.x Vector.y].
      eexists. split; [reflexivity|].
      cbn [credits buildMode buildings heap units set_buildMode set_units
           set_heap set_rng set_buildings set_credits].
      rewrite <- app_assoc, length_app. cbn [app length].
      replace (length (heap s) + 1)%nat with (S (length (heap s))) by lia.
      repeat split.
    - eexists. split; [reflexivity|].
      cbn [credits buildMode buildings heap units set_buildMode set_units
           set_heap set_rng set_buildings set_credits].
      rewrite app_nil_r. repeat split. }
  destruct Hs as (x & -> & Hc & Hm & Hb & Hh & Hu).
  assert (Hf : credits (callUpdateUI (calculatePower x)) = credits x
               /\ buildMode (callUpdateUI (calculatePower x)) = buildMode x
               /\ buildings (callUpdateUI (calculatePower x)) = buildings x
               /\ heap (callUpdateUI (calculatePower x)) = heap x
               /\ units (callUpdateUI (calculatePower x)) = units x).
  { unfold callUpdateUI, calculatePower. destruct (fold_left _ _ _).
    unfold callUpdateUI. repeat destruct (onUpdateUI _); repeat split. }
  destruct Hf as (Hfc & Hfm & Hfb & Hfh & Hfu).
  rewrite Hfc, Hfm, Hfb, Hfh, Hfu, Hc, Hm, Hb, Hh, Hu.
  split; [reflexivity|]. split; [reflexivity|]. split; [reflexivity|].
  split; [exact Hsite|]. split; [exact Hhp|]. split; [|split].
  - intros Hne. rewrite bool_decide_eq_false_2 by exact Hne.
    rewrite app_nil_r. split; reflexivity.
  - intros He. rewrite bool_decide_eq_true_2 by exact He. split; reflexivity.
  - transitivity (power (calculatePower x)).
    { unfold callUpdateUI. destruct (onUpdateUI _); reflexivity. }
    rewrite power_calculatePower. symmetry. apply balance_frame; assumption.
Qed.

End Placement.

(** ** The view layer *)

Section ViewDrivesEngine.

Context {F : Type} {N : Num F}.
Variable random : nat -> F.

Implicit Types (v : View F) (s : GameEngine F).

Lemma run_app inputs1 inputs2 s :
  run random (inputs1 ++ inputs2) s = run random inputs2 (run random inputs1 s).
Proof. unfold run. apply fold_left_app. Qed.

Lemma dispatch_inputs d v :
  exists inputs,
    forallb isMouse inputs = true
    /\ engine (dispatch random d v) = run random inputs (engine v).
Proof.
  destruct d as [rect e | e | e]; cbn [dispatch].
  - exists [MouseMove
              (getWorldPos
                 (Vector.mk (MouseEvent.clientX e - DOMRect.left rect)%js
                            (MouseEvent.clientY e - DOMRect.top rect)%js) v)].
    split; [reflexivity|]. unfold handleMouseMove. cbv zeta.
    cbn [isPanning set_engine set_mouse].
    destruct (isPanning v); reflexivity.
  - unfold handleMouseDown. destruct (MouseEvent.button e =? 2).
    + exists []. split; reflexivity.
    + destruct (MouseEvent.button e =? 0).
      * exists [LeftDown]. split; reflexivity.
      * exists []. split; reflexivity.
  - unfold handleMouseUp. destruct (MouseEvent.button e =? 2).
    + cbv zeta. destruct (_ <? _)%js.
      * exists [RightClick]. split; reflexivity.
      * exists []. split; reflexivity.
    + destruct (MouseEvent.button e =? 0).
      * exists [LeftUp]. split; reflexivity.
      * exists []. split; reflexivity.
Qed.

(** X12.  The mouse handlers act on the engine only through its
    inputs: whatever DOM mouse events the canvas receives (moves,
    presses and releases of any button, panning included), their effect
    on the engine is that of a sequence of the inputs [MouseMove],
    [LeftDown], [LeftUp] and [RightClick]. *)
Theorem mouse_handlers_act_through_inputs (events : list (Dom F)) v :
  exists inputs,
    forallb isMouse inputs = true
    /\ engine (play random events v) = run random inputs (engine v).
Proof.
  induction events as [|d events IH] using rev_ind.
  - exists []. split; reflexivity.
  - destruct IH as (inputs & Hm & IH).
    destruct (dispatch_inputs d (play random events v)) as (inputs' & Hm' & H).
    exists (inputs ++ inputs'). split.
    + rewrite forallb_app, Hm, Hm'. reflexivity.
    + unfold play. rewrite fold_left_app. cbn [fold_left].
      fold (play random events v). rewrite H, IH, run_app. reflexivity.
Qed.

End ViewDrivesEngine.

Section Panning.

Context {F : Type} {N : Num F}.
Variable random : nat -> F.

Implicit Types (v : View F).

Lemma dragging_move v0 rect e v :
  dragging v0 v ->
  dragging v0 (handleMouseMove rect e v)
  /\ camera (handleMouseMove rect e v)
     = panned v0 (mouse (handleMouseMove rect e v)).
Proof.
  intros (Hp & Hm & Hc). unfold dragging, panned, handleMouseMove. cbv zeta.
  cbn [isPanning set_engine set_mouse]. rewrite Hp.
  cbn [mouse camera isPanning set_camera set_engine set_mouse dragStartMouse
       dragStartCamera Vector.x Vector.y].
  rewrite Hm, Hc. auto.
Qed.

Lemma dragging_moves v0 l v :
  dragging v0 v ->
  dragging v0 (play random (moves l) v)
  /\ match l with
     | [] => play random (moves l) v = v
     | _ :: _ =>
         camera (play random (moves l) v)
         = panned v0 (mouse (play random (moves l) v))
     end.
Proof.
  induction l as [|[rect e] l IH] using rev_ind; intros H.
  - split; [exact H | reflexivity].
  - destruct IH as [IH _]; [exact H|].
    destruct (dragging_move v0 rect e _ IH) as [Hd Hc].
    assert (Hplay : play random (moves (l ++ [(rect, e)])) v
                    = handleMouseMove rect e (play random (moves l) v)).
    { unfold play, moves. rewrite map_app, fold_left_app. reflexivity. }
    rewrite Hplay. split; [exact Hd|].
    destruct l; exact Hc.
Qed.

(** X15.  A right-button gesture is a command or a pan, by how far the
    cursor ends from where it went down.  For every number type,
    binary64 included: after a press, mouse moves and a release of the
    right button, the camera is the camera at the press displaced by the
    cursor's offset from the press, computed from the press in one step
    (the moves in between leave no trace, so no rounding builds up), or
    the camera at the press itself if the cursor never moved; panning
    is over; and the release issues the command exactly when the
    distance it computes from the press to the cursor is below 5, and
    otherwise leaves the engine as the moves left it. *)
Theorem right_gesture_commands_or_pans e e' l v :
  MouseEvent.button e = 2 ->
  MouseEvent.button e' = 2 ->
  let v1 := play random (moves l) (handleMouseDown random e v) in
  let v2 := handleMouseUp e' v1 in
  camera v2 = match l with
              | [] => camera v
              | _ :: _ => panned v (mouse v1)
              end
  /\ isPanning v2 = false
  /\ engine v2
     = if (dist (mouse v1) (mouse v) <? ofZ 5)%js
       then issueCommand (engine v1) else engine v1.
Proof.
  intros He He'. cbv zeta.
  assert (H0 : dragging v (handleMouseDown random e v)).
  { unfold handleMouseDown. rewrite He. change (2 =? 2) with true.
    cbv iota zeta. unfold dragging.
    cbn [mouse camera isPanning set_isPanning set_dragStartMouse
         set_dragStartCamera dragStartMouse dragStartCamera].
    auto. }
  assert (Hcam : camera (handleMouseDown random e v) = camera v).
  { unfold handleMouseDown. rewrite He. reflexivity. }
  destruct (dragging_moves v l _ H0) as [(_ & Hm & _) Hc].
  set (v1 := play random (moves l) (handleMouseDown random e v)) in *.
  unfold handleMouseUp. rewrite He'. change (2 =? 2) with true. cbv iota zeta.
  cbn [mouse dragStartMouse set_isPanning]. rewrite Hm.
  assert (Hc' : camera v1 = match l with
                            | [] => camera v
                            | _ :: _ => panned v (mouse v1)
                            end).
  { destruct l; [rewrite Hc; exact Hcam | exact Hc]. }
  destruct (dist (mouse v1) (mouse v) <? ofZ 5)%js;
    cbn [camera isPanning engine set_engine set_isPanning];
    (split; [exact Hc'|]); split; reflexivity.
Qed.

End Panning.

(** ** [App]: the message panel *)

Lemma length_slice_last {A} (l : list A) :
  length (slice (-4) l) = Nat.min (length l) 4.
Proof.
  unfold slice. change (-4 <? 0) with true. change (Z.to_nat (- -4)) with 4%nat.
  cbv iota. rewrite length_drop. lia.
Qed.

Lemma panel_snoc events ev : panel (events ++ [ev]) = panelStep ev (panel events).
Proof. unfold panel. rewrite fold_left_app. reflexivity. Qed.

(** X16.  The message panel shows at most five messages, and never more
    than there are timeouts pending: once every timeout has fired, the
    panel is empty. *)
Theorem message_panel_is_bounded_and_drains (events : list PanelEvent) :
  (length (messages (panel events)) <= 5)%nat
  /\ (length (messages (panel events)) <= pending (panel events))%nat.
Proof.
  induction events as [|ev events [IH1 IH2]] using rev_ind.
  - split; cbn; lia.
  - rewrite panel_snoc. destruct ev as [msg|]; cbn [panelStep].
    + unfold notify. cbn [messages pending].
      rewrite length_app, length_slice_last. cbn [length]. lia.
    + unfold expire. destruct (pending (panel events)) as [|n] eqn:Hn.
      * rewrite Hn. lia.
      * cbn [messages pending]. unfold slice. change (1 <? 0) with false.
        cbv iota. rewrite length_drop. lia.
Qed.

(** ** [App]: the building counts of [consultEVA] *)

Section Census.

Context {F : Type} {N : Num F}.

Implicit Types (g : GameEngine F) (t k : EntityType) (acc : list (EntityType * Z)).

Lemma entry_assign t k v acc :
  entry t (assign k v acc) = if bool_decide (k = t) then Some v else entry t acc.
Proof.
  induction acc as [|[k' v'] acc IH]; cbn [assign entry].
  - reflexivity.
  - destruct (bool_decide_reflect (k' = k)) as [->|Hk]; cbn [entry].
    + destruct (bool_decide (k = t)); reflexivity.
    + rewrite IH. destruct (bool_decide_reflect (k' = t)) as [->|Ht]; [|reflexivity].
      rewrite bool_decide_eq_false_2 by congruence. reflexivity.
Qed.

(** The count of [t] among the first buildings of the player's. *)
Lemma buildingCounts_loop g t (l : list ref) acc :
  (forall k v, entry k acc = Some v -> 0 < v) ->
  let acc' :=
    fold_left
      (fun acc b =>
         match heap g !! b with
         | Some e => assign (Entity.type e) (orZ (entry (Entity.type e) acc) 0 + 1) acc
         | None => acc
         end)
      (List.filter (holds g (fun e => bool_decide (Entity.team e = player))) l)
      acc in
  orZ (entry t acc') 0
  = orZ (entry t acc) 0
    + Z.of_nat (length (List.filter (holds g (isA t player)) l))
  /\ (forall k v, entry k acc' = Some v -> 0 < v).
Proof.
  revert acc. induction l as [|b l IH]; intros acc Hpos.
  - cbn. split; [lia | exact Hpos].
  - cbn [List.filter].
    assert (Hh : forall p, holds g p b
                           = match heap g !! b with Some e => p e | None => false end)
      by reflexivity.
    rewrite !Hh. clear Hh.
    destruct (heap g !! b) as [e|] eqn:He; [|apply IH, Hpos].
    change (isA t player e)
      with (bool_decide (Entity.type e = t) && bool_decide (Entity.team e = player)).
    destruct (bool_decide_reflect (Entity.team e = player)) as [Htm|Htm].
    2: { rewrite andb_false_r. apply IH, Hpos. }
    rewrite andb_true_r. cbn [fold_left]. rewrite He.
    set (acc1 := assign _ _ acc).
    assert (Hpos1 : forall k v, entry k acc1 = Some v -> 0 < v).
    { intros k v. unfold acc1. rewrite entry_assign.
      destruct (bool_decide (Entity.type e = k)); [|apply Hpos].
      intros [= <-]. destruct (entry (Entity.type e) acc) as [n|] eqn:Hn; cbn [orZ].
      - specialize (Hpos _ _ Hn). destruct (n =? 0); lia.
      - lia. }
    destruct (IH acc1 Hpos1) as [IH1 IH2]. split; [|exact IH2].
    cbv zeta in IH1. rewrite IH1. unfold acc1. rewrite entry_assign.
    destruct (bool_decide_reflect (Entity.type e = t)) as [->|Ht].
    + cbn [length].
      destruct (entry t acc) as [n|] eqn:Hn; cbn [orZ].
      * specialize (Hpos _ _ Hn).
        replace (n =? 0) with false by (symmetry; apply Z.eqb_neq; lia).
        replace (n + 1 =? 0) with false by (symmetry; apply Z.eqb_neq; lia). lia.
      * change (0 + 1 =? 0) with false. lia.
    + lia.
Qed.

(** X17.  The building counts sent to the advisor are right: the entry
    of a type is the number of the player's buildings of that type in
    [buildings], and a type the player has no building of has no entry
    (the enemy's buildings are not counted). *)
Theorem advisor_is_told_the_building_counts g t :
  entry t (buildingCounts g)
  = if census g t =? 0 then None else Some (census g t).
Proof.
  unfold buildingCounts, census.
  destruct (buildingCounts_loop g t (buildings g) []) as [H1 H2].
  { intros k v [=]. }
  cbv zeta in H1, H2. cbn [entry orZ] in H1.
  set (acc := fold_left _ _ _) in *.
  set (n := Z.of_nat _) in *.
  destruct (entry t acc) as [v|] eqn:Hv; cbn [orZ] in H1.
  - specialize (H2 _ _ Hv).
    replace (v =? 0) with false in H1 by (symmetry; apply Z.eqb_neq; lia).
    replace (n =? 0) with false by (symmetry; apply Z.eqb_neq; lia).
    f_equal. lia.
  - replace (n =? 0) with true by (symmetry; apply Z.eqb_eq; lia). reflexivity.
Qed.

End Census.

(** ** [App]: the raw PCM fallback of [playAudio] *)

(** Every 16-bit word, signed and scaled by 32768 in binary64. *)
Lemma every_word_is_normalised :
  forallb
    (fun lo =>
       forallb
         (fun hi =>
            let u := lo + 256 * hi in
            normalised
              (ofZ (if (u <? 32768)%Z then u else (u - 65536)%Z) / ofZ 32768)%js)
         (map Z.of_nat (seq 0 256)))
    (map Z.of_nat (seq 0 256)) = true.
Proof. vm_compute. reflexivity. Qed.

Lemma byte_in_range (b : Byte.byte) :
  In (Z.of_N (Byte.to_N b)) (map Z.of_nat (seq 0 256)).
Proof.
  pose proof (Byte.to_N_bounded b).
  replace (Z.of_N (Byte.to_N b)) with (Z.of_nat (N.to_nat (Byte.to_N b))) by lia.
  apply in_map, in_seq. lia.
Qed.

Lemma getInt16_normalised (buffer : list Byte.byte) (i : nat) :
  (2 * i + 1 < length buffer)%nat ->
  exists v, getInt16 buffer (2 * i) = Some v
            /\ normalised (ofZ v / ofZ 32768)%js = true.
Proof.
  intros Hi. unfold getInt16.
  destruct (lookup_lt_is_Some_2 buffer (2 * i)) as [lo Hlo]; [lia|].
  destruct (lookup_lt_is_Some_2 buffer (S (2 * i))) as [hi Hhi]; [lia|].
  rewrite Hlo, Hhi. eexists. split; [reflexivity|].
  pose proof every_word_is_normalised as H1.
  rewrite forallb_forall in H1. specialize (H1 _ (byte_in_range lo)).
  rewrite forallb_forall in H1. exact (H1 _ (byte_in_range hi)).
Qed.

Lemma mapM_all {A B} (f : A -> option B) (P : B -> Prop) (l : list A) :
  (forall x, In x l -> exists y, f x = Some y /\ P y) ->
  exists k, mapM f l = Some k /\ length k = length l /\ Forall P k.
Proof.
  induction l as [|x l IH]; intros H.
  - exists []. repeat split. constructor.
  - destruct (H x) as (y & Hy & Py); [left; reflexivity|].
    destruct IH as (k & Hk & Hlen & HP); [intros; apply H; right; assumption|].
    exists (y :: k). cbn. rewrite Hy. cbn. rewrite Hk. cbn.
    repeat split; [congruence | constructor; assumption].
Qed.

(** X18.  The raw PCM fallback never reads past the end of the buffer,
    yields one sample for every two bytes (a trailing odd byte is
    dropped), and every sample it yields is in [-1, 1), computed in
    binary64. *)
Theorem raw_pcm_is_in_bounds_and_normalised (arrayBuffer : list Byte.byte) :
  exists samples : list float,
    rawPCM arrayBuffer = Some samples
    /\ length samples = (length arrayBuffer / 2)%nat
    /\ Forall (fun x => normalised x = true) samples.
Proof.
  unfold rawPCM.
  destruct (mapM_all
              (fun i => (fun v => (ofZ v / ofZ 32768)%js) <$> getInt16 arrayBuffer (2 * i))
              (fun x => normalised x = true)
              (seq 0 (length arrayBuffer / 2))) as (k & Hk & Hlen & HP).
  - intros i Hi. apply in_seq in Hi.
    destruct (getInt16_normalised arrayBuffer i) as (v & Hv & Hn).
    + pose proof (Nat.Div0.mul_div_le (length arrayBuffer) 2). lia.
    + rewrite Hv. eexists. split; [reflexivity | exact Hn].
  - exists k. rewrite length_seq in Hlen. auto.
Qed.
(** ** The spatial query ([getNearestEnemy]) *)

(** [<] on binary64 is a strict order, NaN included (no comparison with
    NaN holds). *)
Lemma SFltb_irrefl (a : spec_float) : SFltb a a = false.
Proof.
  unfold SFltb, SFcompare. destruct a as [[]|[]| |[] m e]; try reflexivity.
  - rewrite Z.compare_refl, Pos.compare_cont_refl. reflexivity.
  - rewrite Z.compare_refl, Pos.compare_cont_refl. reflexivity.
Qed.

Lemma SFltb_trans (a b c : spec_float) :
  SFltb a b = true -> SFltb b c = true -> SFltb a c = true.
Proof.
  unfold SFltb, SFcompare.
  destruct a as [[]|[]| |[] ma ea], b as [[]|[]| |[] mb eb], c as [[]|[]| |[] mc ec];
    try discriminate; try reflexivity;
    change (Pos.compare_cont Eq ?x ?y) with (Pos.compare x y);
    destruct (Z.compare_spec ea eb), (Z.compare_spec eb ec), (Z.compare_spec ea ec);
    try discriminate; try reflexivity; try lia; subst;
    destruct (Pos.compare_spec ma mb), (Pos.compare_spec mb mc),
      (Pos.compare_spec ma mc);
    cbn [CompOpp]; try discriminate; try reflexivity; lia.
Qed.

Lemma float_ltb_irrefl (a : float) : PrimFloat.ltb a a = false.
Proof. rewrite ltb_spec. apply SFltb_irrefl. Qed.

Lemma float_ltb_trans (a b c : float) :
  PrimFloat.ltb a b = true -> PrimFloat.ltb b c = true -> PrimFloat.ltb a c = true.
Proof. rewrite !ltb_spec. apply SFltb_trans. Qed.

Section Nearest.

Context {F : Type} {N : Num F}.

Hypothesis ltb_irrefl : forall a : F, (a <? a)%js = false.
Hypothesis ltb_trans : forall a b c : F,
  (a <? b)%js = true -> (b <? c)%js = true -> (a <? c)%js = true.

Implicit Types (s : GameEngine F) (e : Entity F) (r u b : ref) (pos : Vector F).

(** A bound that has come down from [m] to [m'] lets through nothing
    that [m] stopped. *)
Lemma below_bound (d m m' : F) :
  (d <? m)%js = false -> m' = m \/ (m' <? m)%js = true -> (d <? m')%js = false.
Proof.
  intros Hd [->|Hm]; [exact Hd|].
  destruct (d <? m')%js eqn:Hdm; [|reflexivity].
  rewrite (ltb_trans _ _ _ Hdm Hm) in Hd. discriminate.
Qed.

(** One pass of the scan over [l], from the candidate and bound
    [(nearest, minDst)]. *)
Lemma scan_spec s pos (l : list ref) (nearest : option ref) (minDst : F) :
  let '(nearest', minDst') :=
    fold_left
      (fun (acc : option ref * F) r =>
         let '(nearest, minDst) := acc in
         match heap s !! r with
         | Some e =>
             if bool_decide (Entity.team e = enemy) && negb (Entity.dead e) then
               let d := dist pos (Entity.pos e) in
               if (d <? minDst)%js then (Some r, d) else (nearest, minDst)
             else (nearest, minDst)
         | None => (nearest, minDst)
         end)
      l (nearest, minDst) in
  (forall r e, In r l -> heap s !! r = Some e -> hostile e = true ->
               (dist pos (Entity.pos e) <? minDst')%js = false)
  /\ ((nearest' = nearest /\ minDst' = minDst)
      \/ exists r e, nearest' = Some r /\ In r l /\ heap s !! r = Some e
                     /\ hostile e = true
                     /\ minDst' = dist pos (Entity.pos e)
                     /\ (minDst' <? minDst)%js = true).
Proof.
  revert nearest minDst. induction l as [|a l IH]; intros nearest minDst.
  - cbn. split; [intros ? ? []|]. left. split; reflexivity.
  - cbn [fold_left].
    destruct (heap s !! a) as [ea|] eqn:Ha.
    2: { specialize (IH nearest minDst). destruct (fold_left _ _ _) as [n m].
         destruct IH as [IH1 IH2]. split.
         - intros r e [<-|Hr] He Hh; [congruence | eauto].
         - destruct IH2 as [?|(r & e & ? & ? & ?)]; [left; assumption|].
           right. exists r, e. split; [assumption|]. split; [right|]; assumption. }
    fold (hostile ea). destruct (hostile ea) eqn:Hea.
    2: { specialize (IH nearest minDst). destruct (fold_left _ _ _) as [n m].
         destruct IH as [IH1 IH2]. split.
         - intros r e [<-|Hr] He Hh; [congruence | eauto].
         - destruct IH2 as [?|(r & e & ? & ? & ?)]; [left; assumption|].
           right. exists r, e. split; [assumption|]. split; [right|]; assumption. }
    cbv zeta.
    destruct (dist pos (Entity.pos ea) <? minDst)%js eqn:Hlt.
    + specialize (IH (Some a) (dist pos (Entity.pos ea))).
      destruct (fold_left _ _ _) as [n m]. destruct IH as [IH1 IH2].
      assert (Hm : m = dist pos (Entity.pos ea)
                   \/ (m <? dist pos (Entity.pos ea))%js = true).
      { destruct IH2 as [[_ ->]|(r & e & _ & _ & _ & _ & _ & ?)]; auto. }
      split.
      * intros r e [<-|Hr] He Hh; [|eauto].
        rewrite Ha in He. injection He as <-.
        eapply below_bound; [apply ltb_irrefl | exact Hm].
      * right. destruct IH2 as [[-> ->]|(r & e & ? & ? & ? & ? & ? & ?)].
        -- exists a, ea. repeat split; auto. left; reflexivity.
        -- exists r, e. repeat split; auto; [right; assumption|].
           eapply ltb_trans; eassumption.
    + specialize (IH nearest minDst). destruct (fold_left _ _ _) as [n m].
      destruct IH as [IH1 IH2].
      assert (Hm : m = minDst \/ (m <? minDst)%js = true).
      { destruct IH2 as [[_ ->]|(r & e & _ & _ & _ & _ & _ & ?)]; auto. }
      split.
      * intros r e [<-|Hr] He Hh; [|eauto].
        rewrite Ha in He. injection He as <-.
        eapply below_bound; [exact Hlt | exact Hm].
      * destruct IH2 as [?|(r & e & ? & ? & ?)]; [left; assumption|].
        right. exists r, e. split; [assumption|]. split; [right|]; assumption.
Qed.

Lemma getNearestEnemy_spec pos (range : F) s :
  match getNearestEnemy pos range s with
  | Some r =>
      exists e,
        heap s !! r = Some e /\ hostile e = true
        /\ (dist pos (Entity.pos e) <? range)%js = true
        /\ ((In r (units s)
             /\ forall u e', In u (units s) -> heap s !! u = Some e' ->
                             hostile e' = true ->
                             (dist pos (Entity.pos e') <? dist pos (Entity.pos e))%js
                             = false)
            \/ (In r (buildings s)
                /\ (forall u e', In u (units s) -> heap s !! u = Some e' ->
                                 hostile e' = true ->
                                 (dist pos (Entity.pos e') <? range)%js = false)
                /\ forall b e', In b (buildings s) -> heap s !! b = Some e' ->
                                hostile e' = true ->
                                (dist pos (Entity.pos e') <? dist pos (Entity.pos e))%js
                                = false))
  | None =>
      forall r e, In r (units s ++ buildings s) -> heap s !! r = Some e ->
                  hostile e = true -> (dist pos (Entity.pos e) <? range)%js = false
  end.
Proof.
  unfold getNearestEnemy. cbv zeta.
  pose proof (scan_spec s pos (units s) None range) as Hu.
  destruct (fold_left _ (units s) _) as [n1 m1]. destruct Hu as [Hu1 Hu2].
  destruct n1 as [r|].
  - destruct Hu2 as [[[=] _]|(r' & e & [= <-] & Hin & He & Hh & Hm & Hlt)].
    exists e. rewrite <- Hm.
    split; [assumption|]. split; [assumption|]. split; [assumption|].
    left. split; [assumption|]. exact Hu1.
  - destruct Hu2 as [[_ ->]|(? & ? & [=] & _)].
    pose proof (scan_spec s pos (buildings s) None range) as Hb.
    destruct (fold_left _ (buildings s) _) as [n2 m2]. destruct Hb as [Hb1 Hb2].
    cbn [fst]. destruct n2 as [r|].
    + destruct Hb2 as [[[=] _]|(r' & e & [= <-] & Hin & He & Hh & Hm & Hlt)].
      exists e. rewrite <- Hm.
      split; [assumption|]. split; [assumption|]. split; [assumption|].
      right. split; [assumption|]. split; [exact Hu1 | exact Hb1].
    + destruct Hb2 as [[_ ->]|(? & ? & [=] & _)].
      intros r e Hin He Hh. apply in_app_or in Hin as [Hin|Hin]; eauto.
Qed.

End Nearest.

(** X21.  [getNearestEnemy] returns the nearest live enemy within range,
    units before buildings, by the distances it computes in binary64.  A
    result is a live enemy whose computed distance is below [range]; it is
    a unit, and no live enemy unit has a smaller computed distance,
    whenever some live enemy unit is within range; otherwise it is a
    building, and no live enemy building has a smaller computed distance.
    There is no result exactly when no live enemy, unit or building, has a
    computed distance below [range]. *)
Theorem nearest_enemy_is_the_nearest (pos : Vector float) (range : float)
    (s : GameEngine float) :
  match getNearestEnemy pos range s with
  | Some r =>
      exists e,
        heap s !! r = Some e /\ hostile e = true
        /\ (dist pos (Entity.pos e) <? range)%js = true
        /\ ((In r (units s)
             /\ forall u e', In u (units s) -> heap s !! u = Some e' ->
                             hostile e' = true ->
                             (dist pos (Entity.pos e') <? dist pos (Entity.pos e))%js
                             = false)
            \/ (In r (buildings s)
                /\ (forall u e', In u (units s) -> heap s !! u = Some e' ->
                                 hostile e' = true ->
                                 (dist pos (Entity.pos e') <? range)%js = false)
                /\ forall b e', In b (buildings s) -> heap s !! b = Some e' ->
                                hostile e' = true ->
                                (dist pos (Entity.pos e') <? dist pos (Entity.pos e))%js
                                = false))
  | None =>
      forall r e, In r (units s ++ buildings s) -> heap s !! r = Some e ->
                  hostile e = true -> (dist pos (Entity.pos e) <? range)%js = false
  end.
Proof.
  apply getNearestEnemy_spec; [exact float_ltb_irrefl | exact float_ltb_trans].
Qed.

(** ** Selection ([selectUnits]) *)

Section Selection.

Context {F : Type} {N : Num F}.

Implicit Types (s : GameEngine F) (e : Entity F) (r u b : ref)
  (h : list (Entity F)) (g : Entity F -> Entity F).

Lemma set_heap_heap s : set_heap (heap s) s = s.
Proof. destruct s; reflexivity. Qed.

Lemma lookup_alter_here g u h : alter g u h !! u = g <$> h !! u.
Proof. apply list_lookup_alter_eq. Qed.

Lemma lookup_alter_there g u h i : u <> i -> alter g u h !! i = h !! i.
Proof. apply list_lookup_alter_ne. Qed.

Lemma alter_at g g' u h :
  (forall e, h !! u = Some e -> g e = g' e) -> alter g u h = alter g' u h.
Proof.
  intros H. apply list_eq. intros i.
  destruct (decide (u = i)) as [<-|Hne].
  - rewrite !lookup_alter_here. destruct (h !! u) as [e|] eqn:He; cbn; [|reflexivity].
    f_equal. apply H. reflexivity.
  - rewrite !lookup_alter_there by assumption. reflexivity.
Qed.

Lemma alter_same g u h :
  (forall e, h !! u = Some e -> g e = e) -> alter g u h = h.
Proof.
  intros H. apply list_eq. intros i.
  destruct (decide (u = i)) as [<-|Hne].
  - rewrite lookup_alter_here. destruct (h !! u) as [e|] eqn:He; cbn.
    + transitivity (Some e); [f_equal; apply H; reflexivity | symmetry; exact He].
    + symmetry; exact He.
  - rewrite lookup_alter_there by assumption. reflexivity.
Qed.

(** A loop whose body rewrites one object per round. *)
Lemma loop_alter (body : ref -> GameEngine F -> GameEngine F) g s l :
  (forall u h, body u (set_heap h s) = set_heap (alter g u h) s) ->
  forall h,
    forEach l body (set_heap h s)
    = set_heap (fold_left (fun h u => alter g u h) l h) s.
Proof.
  intros Hbody. induction l as [|u l IH]; intros h; [reflexivity|].
  unfold forEach in *. cbn [fold_left]. rewrite Hbody. apply IH.
Qed.

Lemma fold_alter_lookup g l h r :
  (forall e, g (g e) = g e) ->
  fold_left (fun h u => alter g u h) l h !! r
  = (if bool_decide (r ∈ l) then g else fun e => e) <$> h !! r.
Proof.
  intros Hg. revert h. induction l as [|u l IH]; intros h.
  - cbn. destruct (h !! r); reflexivity.
  - cbn [fold_left]. rewrite IH.
    destruct (decide (u = r)) as [->|Hne].
    + rewrite lookup_alter_here.
      rewrite (bool_decide_eq_true_2 (r ∈ r :: l)) by (left).
      destruct (h !! r) as [e|]; cbn [fmap option_fmap option_map]; [|reflexivity].
      destruct (bool_decide (r ∈ l)); cbn; [rewrite Hg|]; reflexivity.
    + rewrite lookup_alter_there by assumption.
      destruct (bool_decide_reflect (r ∈ l)) as [Hin|Hin].
      * rewrite bool_decide_eq_true_2 by (right; exact Hin). reflexivity.
      * rewrite bool_decide_eq_false_2; [reflexivity|].
        intros Hin'. apply elem_of_cons in Hin' as [->|?]; contradiction.
Qed.

Lemma flag_idem s e : flag s (flag s e) = flag s e.
Proof.
  unfold flag. destruct (bool_decide (Entity.team e = player)) eqn:Ht; [|rewrite Ht; reflexivity].
  cbn [Entity.team Entity.set_selected]. rewrite Ht. reflexivity.
Qed.

Lemma selectUnits_loop s :
  selectUnits s
  = callUpdateUI
      (set_heap (fold_left (fun h u => alter (flag s) u h) (units s) (heap s)) s).
Proof.
  unfold selectUnits. cbv zeta. f_equal.
  match goal with |- forEach ?l ?body _ = _ =>
    pose proof (loop_alter body (flag s) s l) as HL end.
  cut (forall u h,
          (fun u s0 =>
             match heap s0 !! u with
             | Some e =>
                 if bool_decide (Entity.team e = player) then
                   if (fabs (fmax (Vector.x (selectionStart s)) (Vector.x (worldMouse s))
                             - fmin (Vector.x (selectionStart s)) (Vector.x (worldMouse s)))
                       <? ofZ 5)%js
                      && (fabs (fmax (Vector.y (selectionStart s)) (Vector.y (worldMouse s))
                                - fmin (Vector.y (selectionStart s)) (Vector.y (worldMouse s)))
                          <? ofZ 5)%js
                   then modify u
                          (Entity.set_selected
                             (dist (Entity.pos e) (worldMouse s0) <? ofZ 20)%js) s0
                   else modify u
                          (Entity.set_selected
                             ((Vector.x (Entity.pos e)
                               >? fmin (Vector.x (selectionStart s)) (Vector.x (worldMouse s)))%js
                              && (Vector.x (Entity.pos e)
                                  <? fmax (Vector.x (selectionStart s)) (Vector.x (worldMouse s)))%js
                              && (Vector.y (Entity.pos e)
                                  >? fmin (Vector.y (selectionStart s)) (Vector.y (worldMouse s)))%js
                              && (Vector.y (Entity.pos e)
                                  <? fmax (Vector.y (selectionStart s)) (Vector.y (worldMouse s)))%js))
                          s0
                 else s0
             | None => s0
             end) u (set_heap h s)
          = set_heap (alter (flag s) u h) s).
  { intros Hbody. specialize (HL Hbody (heap s)).
    rewrite set_heap_heap in HL. exact HL. }
  clear HL. intros u h. cbn beta. cbn [heap set_heap].
  destruct (h !! u) as [e|] eqn:He.
  2: { rewrite alter_same; [reflexivity|]. intros e He'. congruence. }
  destruct (bool_decide (Entity.team e = player)) eqn:Ht.
  - destruct (_ && _) eqn:Hclick;
      match goal with |- modify u ?f _ = _ =>
        change (set_heap (alter f u h) s = set_heap (alter (flag s) u h) s) end;
      f_equal; apply alter_at; intros e' He';
      assert (e' = e) as -> by congruence;
      unfold flag, picked; rewrite Ht; cbv zeta; rewrite Hclick; reflexivity.
  - rewrite alter_same; [reflexivity|]. intros e' He'.
    assert (e' = e) as -> by congruence. unfold flag. rewrite Ht. reflexivity.
Qed.

Lemma heap_selectUnits s r :
  heap (selectUnits s) !! r = marked s r <$> heap s !! r.
Proof.
  rewrite selectUnits_loop, heap_callUpdateUI. cbn [heap set_heap].
  rewrite (fold_alter_lookup (flag s)) by apply flag_idem.
  unfold marked. destruct (bool_decide (r ∈ units s)); destruct (heap s !! r); reflexivity.
Qed.

Lemma flag_frame s s' e :
  worldMouse s' = worldMouse s -> selectionStart s' = selectionStart s ->
  flag s' e = flag s e.
Proof. unfold flag, picked. intros -> ->. reflexivity. Qed.

Lemma kind_flag s e : kind (flag s e) = kind e.
Proof. unfold flag. destruct (bool_decide _); reflexivity. Qed.

Lemma callUpdateUI_idem s : callUpdateUI (callUpdateUI s) = callUpdateUI s.
Proof.
  unfold callUpdateUI. destruct (onUpdateUI s) eqn:H; [|rewrite H; reflexivity].
  cbn [onUpdateUI set_hasBuildings]. rewrite H. reflexivity.
Qed.

Lemma selectUnits_fields s :
  units (selectUnits s) = units s
  /\ worldMouse (selectUnits s) = worldMouse s
  /\ selectionStart (selectUnits s) = selectionStart s.
Proof.
  rewrite selectUnits_loop. unfold callUpdateUI.
  destruct (onUpdateUI _); repeat split.
Qed.

(** The snapshot for the UI does not depend on the [selected] flags. *)
Lemma holds_isA_selectUnits s t tm r :
  holds (selectUnits s) (isA t tm) r = holds s (isA t tm) r.
Proof.
  unfold holds. rewrite heap_selectUnits.
  destruct (heap s !! r) as [e|]; [|reflexivity].
  cbn [fmap option_fmap option_map]. unfold marked.
  destruct (bool_decide _); [|reflexivity].
  pose proof (kind_flag s e) as Hk. unfold kind in Hk. injection Hk as Ht Htm.
  unfold isA. rewrite Ht, Htm. reflexivity.
Qed.

(** X22.  What a selection does.  [selectUnits] changes nothing but
    the [selected] flags and the snapshot of the UI; it sets the flag of
    every unit of the player in [units] (within 20 of the cursor on a
    click, strictly inside the box on a drag) and clears it on the
    player's other units, never touches an enemy unit or an object that
    is not in [units], and selecting twice is selecting once. *)
Theorem selection_marks_the_players_units s :
  selectUnits s = set_heap (heap (selectUnits s)) (callUpdateUI s)
  /\ (forall r, heap (selectUnits s) !! r = marked s r <$> heap s !! r)
  /\ selectUnits (selectUnits s) = selectUnits s.
Proof.
  split; [|split].
  - rewrite selectUnits_loop at 1.
    set (H := fold_left _ _ _).
    assert (Hh : heap (selectUnits s) = H)
      by (rewrite selectUnits_loop, heap_callUpdateUI; reflexivity).
    rewrite Hh.
    assert (Hsnap : forall t tm,
               someEntity (set_heap H s) (buildings s) (isA t tm)
               = someEntity s (buildings s) (isA t tm)).
    { intros t tm. unfold someEntity.
      induction (buildings s) as [|b l IH]; [reflexivity|].
      cbn [existsb]. rewrite IH. f_equal.
      pose proof (holds_isA_selectUnits s t tm b) as Hb.
      unfold holds in Hb |- *. rewrite Hh in Hb. exact Hb. }
    unfold callUpdateUI. cbn [onUpdateUI buildings set_heap].
    destruct (onUpdateUI s); [|reflexivity].
    rewrite !Hsnap. reflexivity.
  - apply heap_selectUnits.
  - destruct (selectUnits_fields s) as (Hu & Hw & Hs).
    rewrite (selectUnits_loop (selectUnits s)).
    assert (H1 : fold_left (fun h u => alter (flag (selectUnits s)) u h)
                   (units (selectUnits s)) (heap (selectUnits s))
                 = heap (selectUnits s)).
    { apply list_eq. intros r.
      rewrite (fold_alter_lookup (flag (selectUnits s))) by apply flag_idem.
      rewrite Hu. etransitivity; [|symmetry; apply heap_selectUnits].
      rewrite heap_selectUnits. unfold marked.
      match goal with |- context [if ?b then flag _ else _] => destruct b end;
        match goal with |- context [_ <$> (_ <$> ?o)] => destruct o as [e|] end;
        cbn [fmap option_fmap option_map]; try reflexivity.
      rewrite (flag_frame s (selectUnits s)) by assumption.
      rewrite flag_idem. reflexivity. }
    rewrite H1, set_heap_heap.
    rewrite selectUnits_loop. apply callUpdateUI_idem.
Qed.

End Selection.

(** ** The further properties at work *)

Import Cases.

(** The rifleman of [spent]: 1984 of 2000 after 124 ticks, out of the
    slot on the 125th. *)
Lemma production_runs_on_schedule_witness :
  getQueue barracks (productionQueues (run half (repeat Tick 124) spent))
  = Some {| Queue.type := INFANTRY; Queue.progress := 1984; Queue.total := 2000 |}
  /\ getQueue barracks (productionQueues (run half (repeat Tick 125) spent)) = None.
Proof.
  destruct (production_runs_on_schedule half barracks
              {| Queue.type := INFANTRY; Queue.progress := 0; Queue.total := 2000 |}
              spent 124) as [H1 H2].
  - vm_compute. discriminate.
  - vm_compute. reflexivity.
  - split; [apply H1 | apply H2]; cbn; lia.
Defined.

(** The right button goes down at (300, 200) and up at (400, 260), two
    moves later: the camera has gone from (-500, -500) to (-400, -440),
    and no command is issued. *)
Lemma right_gesture_commands_or_pans_witness :
  camera (handleMouseUp (cursor 400 260 2)
            (play half (moves drag) (handleMouseDown half (cursor 300 200 2) desk)))
  = Vector.mk (-400)%float (-440)%float
  /\ isPanning (handleMouseUp (cursor 400 260 2)
                  (play half (moves drag) (handleMouseDown half (cursor 300 200 2) desk)))
     = false
  /\ engine (handleMouseUp (cursor 400 260 2)
               (play half (moves drag) (handleMouseDown half (cursor 300 200 2) desk)))
     = engine (play half (moves drag) (handleMouseDown half (cursor 300 200 2) desk)).
Proof.
  destruct (right_gesture_commands_or_pans half (cursor 300 200 2) (cursor 400 260 2)
              drag desk eq_refl eq_refl) as (Hc & Hp & He).
  split; [rewrite Hc; vm_compute; reflexivity|]. split; [exact Hp|].
  rewrite He.
  assert (Hd : (dist (mouse (play half (moves drag)
                               (handleMouseDown half (cursor 300 200 2) desk)))
                  (mouse desk) <? ofZ 5)%js = false) by (vm_compute; reflexivity).
  rewrite Hd. reflexivity.
Defined.

Lemma placement_builds_at_the_site_witness :
  credits (tryPlaceBuilding half siting) = 1000
  /\ buildMode (tryPlaceBuilding half siting) = None
  /\ buildings (tryPlaceBuilding half siting) = [0%nat; 1%nat]
  /\ units (tryPlaceBuilding half siting) = [2%nat]
  /\ power (tryPlaceBuilding half siting) = balance (tryPlaceBuilding half siting).
Proof.
  destruct (placement_builds_at_the_site half REFINERY siting)
    as (Hc & Hm & Hb & _ & _ & _ & Hr & Hp).
  - vm_compute. reflexivity.
  - vm_compute. discriminate.
  - vm_compute. reflexivity.
  - destruct (Hr eq_refl) as [_ Hu].
    split; [rewrite Hc; vm_compute; reflexivity|].
    split; [exact Hm|].
    split; [rewrite Hb; vm_compute; reflexivity|].
    split; [rewrite Hu; vm_compute; reflexivity | exact Hp].
Defined.

(** The rifleman of [ordering] completes on the next tick: the barracks
    is there, and production leaves the slot empty and the rifleman 50
    below the barracks. *)
Lemma completed_orders_are_delivered_witness :
  exists b sp,
    findEntity (run half ordering (construct half))
      (buildings (run half ordering (construct half)))
      (isA (spawnerType barracks) player) = Some b
    /\ heap (run half ordering (construct half)) !! b = Some sp
    /\ getQueue barracks
         (productionQueues
            (production half
               (set_tick (tick (run half ordering (construct half)) + 1)
                  (run half ordering (construct half))))) = None
    /\ exists u e,
         In u (units
                 (production half
                    (set_tick (tick (run half ordering (construct half)) + 1)
                       (run half ordering (construct half)))))
         /\ (length (heap (run half ordering (construct half))) <= u)%nat
         /\ heap (production half
                    (set_tick (tick (run half ordering (construct half)) + 1)
                       (run half ordering (construct half)))) !! u = Some e
         /\ Entity.type e = INFANTRY
         /\ Entity.team e = player
         /\ Entity.pos e
            = Vector.mk (Vector.x (Entity.pos sp)) (Vector.y (Entity.pos sp) + ofZ 50)%js.
Proof.
  destruct (completed_orders_are_delivered half ordering barracks
              {| Queue.type := INFANTRY; Queue.progress := 1984; Queue.total := 2000 |})
    as (b & sp & Hf & Hb & H).
  - vm_compute. reflexivity.
  - exists b, sp. split; [exact Hf|]. split; [exact Hb|].
    apply H; [vm_compute; discriminate | cbn; lia].
Defined.
